(** * nncase operator execution engine: reference kernels and the evaluator

    A shallow embedding of
    - [src/kernels/cpu/reference/gather_nd.cpp] (the Gather-ND reference kernel),
    - [src/evaluator/ops/neutral/neutral_ops.cpp] (the evaluator closures
      registered for the neutral operators),
    - [src/importer/tflite/tflite_importer.cpp] (the TFLite importer),
    together with the properties of the specification that concern them. *)

From Stdlib Require Import ZArith QArith Qabs Lia Bool.
From Stdlib Require Import Floats.SpecFloat.
From stdpp Require Import base list list_numbers gmap strings.

Local Open Scope Z_scope.

(** * Machine integers *)

(** [size_t] is a 64-bit unsigned integer: a [Z] in [0, 2^64) whose
    arithmetic wraps around. *)
Definition size_t_modulus : Z := 2 ^ 64.
Definition size_t_wrap (z : Z) : Z := z mod size_t_modulus.

(** * Kernel results *)

(** Error codes carried by a failed [result<void>]. *)
Inductive errc : Set :=
  | errc_not_supported
  | errc_invalid_argument
  | errc_result_out_of_range.

(** What goes wrong when C++ leaves the behaviour undefined. *)
Inductive ub_kind : Set :=
  | vector_index_out_of_range
  | indices_read_out_of_range
  | input_read_out_of_range
  | output_write_out_of_range.

(** The outcome of running a kernel.  [ok] and [err] are the two values of
    nncase's [result<T>]; [undefined] marks an execution that left the
    behaviour defined by C++ (an access outside a vector or a buffer), and
    [out_of_fuel] a loop of the model that was not given enough steps. *)
Inductive result (A : Type) : Type :=
  | ok (a : A)
  | err (e : errc)
  | undefined (u : ub_kind)
  | out_of_fuel.
Arguments ok {A} a.
Arguments err {A} e.
Arguments undefined {A} u.
Arguments out_of_fuel {A}.

#[export] Instance result_ret : MRet result := fun A a => ok a.
#[export] Instance result_bind : MBind result := fun A B f r =>
  match r with
  | ok a => f a
  | err e => err e
  | undefined u => undefined u
  | out_of_fuel => out_of_fuel
  end.

(** A [while] loop: [cond] is evaluated before every iteration. *)
Fixpoint while_loop {S : Type} (fuel : nat) (cond : S -> result bool)
    (body : S -> result S) (s : S) : result S :=
  match fuel with
  | O => out_of_fuel
  | Datatypes.S fuel' =>
      b ← cond s;
      if b : bool then s' ← body s; while_loop fuel' cond body s' else ok s
  end.

(** * Shapes, strides and offsets *)

Abbreviation runtime_shape_t := (list Z).

(** [v[i]] on a [runtime_shape_t]: no bounds check in the source. *)
Definition vec_at (v : runtime_shape_t) (i : Z) : result Z :=
  match v !! Z.to_nat i with
  | Some x => ok x
  | None => undefined vector_index_out_of_range
  end.

(** [v[i] = x] on a [runtime_shape_t]. *)
Definition vec_set (v : runtime_shape_t) (i : Z) (x : Z) : result runtime_shape_t :=
  if bool_decide (Z.to_nat i < length v)%nat
  then ok (<[Z.to_nat i := x]> v)
  else undefined vector_index_out_of_range.

(** Modelled from the spec: [offset] of kernel_utils.h is not among the
    sources; the data model gives [offset(index) = Σ index[d] * strides[d]]. *)
Fixpoint offset_sum (strides index : runtime_shape_t) : Z :=
  match strides, index with
  | s :: strides', i :: index' => i * s + offset_sum strides' index'
  | _, _ => 0
  end.

(** Modelled from the spec: [offset] of kernel_utils.h, the sum above in
    [size_t]. *)
Definition offset (strides index : runtime_shape_t) : Z :=
  size_t_wrap (offset_sum strides index).

(** Modelled from the spec: [compute_size] is not among the sources; the
    number of elements of a shape, the product of its sizes in [size_t]. *)
Fixpoint compute_size (shape : runtime_shape_t) : Z :=
  match shape with
  | [] => 1
  | d :: shape' => size_t_wrap (d * compute_size shape')
  end.

(** Modelled from the spec: [get_default_strides] of runtime_op_utility.h is
    not among the sources; the data model says that row-major (C-order)
    default strides are derived from the shape alone: the stride of a
    dimension is the product of the sizes of the dimensions after it. *)
Fixpoint get_default_strides (shape : runtime_shape_t) : runtime_shape_t :=
  match shape with
  | [] => []
  | _ :: shape' => compute_size shape' :: get_default_strides shape'
  end.

(** Modelled from the spec: the indices that [apply] of kernel_utils.h
    (not among the sources) visits, "every output index" of the shape, in
    row-major order; a shape of rank 0 has the one empty index. *)
Fixpoint all_indices (shape : runtime_shape_t) : list runtime_shape_t :=
  match shape with
  | [] => [[]]
  | d :: shape' => i ← seqZ 0 d; (fun index => i :: index) <$> all_indices shape'
  end.

(** Modelled from the spec: the loop of [apply]; it stops at the first call
    that does not return [ok]. *)
Fixpoint apply_indices {S : Type} (indices : list runtime_shape_t)
    (callable : runtime_shape_t -> S -> result S) (s : S) : result S :=
  match indices with
  | [] => ok s
  | index :: indices' => s' ← callable index s; apply_indices indices' callable s'
  end.

(** Modelled from the spec: [apply] of kernel_utils.h is not among the
    sources; it calls the callable for every index of the shape. *)
Definition apply {S : Type} (shape : runtime_shape_t)
    (callable : runtime_shape_t -> S -> result S) (s : S) : result S :=
  apply_indices (all_indices shape) callable s.

(** * The Gather-ND reference kernel (gather_nd.cpp) *)

(** The local variables of the callable of [gather_nd_impl].  The two
    counters are [size_t]; each increment follows an access at the counter
    inside a vector or a buffer, so neither wraps around. *)
Record gather_nd_locals : Type := {
  i_index : Z;
  o_index : Z;
  in_index : runtime_shape_t;
  indices_index : runtime_shape_t;
}.

(** [const int32_t] to [size_t]: the value modulo [2^64] (a negative index
    becomes a huge coordinate).  The indices buffer is a list of the values
    of its [int32_t] elements. *)
Definition int32_to_size_t (v : Z) : Z := size_t_wrap v.

Section gather_nd.
(** The element type [T] of the template. *)
Context {T : Type}.

Definition buffer_read (u : ub_kind) {A : Type} (buf : list A) (pos : Z) : result A :=
  match buf !! Z.to_nat pos with
  | Some x => ok x
  | None => undefined u
  end.

Definition buffer_write (output : list T) (pos : Z) (x : T) : result (list T) :=
  if bool_decide (Z.to_nat pos < length output)%nat
  then ok (<[Z.to_nat pos := x]> output)
  else undefined output_write_out_of_range.

Variables (input : list T) (in_shape out_shape in_strides out_strides : runtime_shape_t).
Variables (indices : list Z) (indices_shape : runtime_shape_t) (batch_dims : Z).

(** Each loop of the callable reads or writes a vector at its counter in
    every iteration, so it runs at most once more than the longest of the
    vectors is long. *)
Definition gather_nd_fuel (out_index : runtime_shape_t) : nat :=
  Datatypes.S (length out_index + length in_shape + length indices_shape).

(** Lines 37-42: output axes [0, batch_dims). *)
Definition batch_loop (fuel : nat) (out_index : runtime_shape_t)
    (st : gather_nd_locals) : result gather_nd_locals :=
  while_loop fuel
    (fun st => ok (bool_decide (i_index st < batch_dims)))
    (fun st =>
       v ← vec_at out_index (o_index st);
       indices_index' ← vec_set (indices_index st) (i_index st) v;
       v' ← vec_at out_index (o_index st);
       in_index' ← vec_set (in_index st) (i_index st) v';
       ok {| i_index := i_index st + 1; o_index := o_index st + 1;
             in_index := in_index'; indices_index := indices_index' |})
    st.

(** Lines 43-47: output axes [batch_dims, last_indices_index). *)
Definition indices_coord_loop (fuel : nat) (last_indices_index : Z)
    (out_index : runtime_shape_t) (st : gather_nd_locals) : result gather_nd_locals :=
  while_loop fuel
    (fun st => ok (bool_decide (o_index st < last_indices_index)))
    (fun st =>
       v ← vec_at out_index (o_index st);
       indices_index' ← vec_set (indices_index st) (o_index st) v;
       ok {| i_index := i_index st; o_index := o_index st + 1;
             in_index := in_index st; indices_index := indices_index' |})
    st.

(** Lines 50-54: the index vector read from the indices tensor; the
    counter [i] is the first component of the state. *)
Definition index_vector_loop (fuel : nat) (last_indices_index indices_begin : Z)
    (st : Z * gather_nd_locals) : result (Z * gather_nd_locals) :=
  while_loop fuel
    (fun '(i, st) =>
       bound ← vec_at indices_shape last_indices_index;
       ok (bool_decide (i < bound)))
    (fun '(i, st) =>
       v ← buffer_read indices_read_out_of_range indices (indices_begin + i);
       in_index' ← vec_set (in_index st) (i_index st) (int32_to_size_t v);
       ok (i + 1,
           {| i_index := i_index st + 1; o_index := o_index st;
              in_index := in_index'; indices_index := indices_index st |}))
    st.

(** Lines 59-62: the trailing output axes. *)
Definition block_loop (fuel : nat) (out_index : runtime_shape_t)
    (st : gather_nd_locals) : result gather_nd_locals :=
  while_loop fuel
    (fun st => ok (bool_decide (o_index st < Z.of_nat (length out_index))
                   && bool_decide (i_index st < Z.of_nat (length (in_index st)))))
    (fun st =>
       v ← vec_at out_index (o_index st);
       in_index' ← vec_set (in_index st) (i_index st) v;
       ok {| i_index := i_index st + 1; o_index := o_index st + 1;
             in_index := in_index'; indices_index := indices_index st |})
    st.

(** Lines 33-62: the input index computed for one output index. *)
Definition gather_nd_in_index (out_index : runtime_shape_t) : result gather_nd_locals :=
  let fuel := gather_nd_fuel out_index in
  let last_indices_index := size_t_wrap (Z.of_nat (length indices_shape) - 1) in
  let st := {| i_index := 0; o_index := 0;
               in_index := replicate (length in_shape) 0;
               indices_index := replicate (length indices_shape) 0 |} in
  st ← batch_loop fuel out_index st;
  st ← indices_coord_loop fuel last_indices_index out_index st;
  let indices_begin := offset (get_default_strides indices_shape) (indices_index st) in
  ist ← index_vector_loop fuel last_indices_index indices_begin (0, st);
  block_loop fuel out_index ist.2.

(** Lines 32-65: the callable passed to [apply]. *)
Definition gather_nd_callable (out_index : runtime_shape_t) (output : list T)
    : result (list T) :=
  st ← gather_nd_in_index out_index;
  x ← buffer_read input_read_out_of_range input (offset in_strides (in_index st));
  buffer_write output (offset out_strides out_index) x.

Definition gather_nd_impl (output : list T) : result (list T) :=
  apply out_shape gather_nd_callable output.
End gather_nd.

(** ** The Gather-ND algorithm in the words of the specification

    The input index that the specification describes for an output index:
    output axes [0, batch_dims) first, then the vector of [K] integers read
    from the last axis of the indices tensor, then the trailing output axes
    (those from [last_indices_axis] on) as far as the input has axes left. *)
Section gather_nd_spec.
Context {T : Type}.
Variables (input : list T) (in_shape in_strides out_strides : runtime_shape_t).
Variables (indices : list Z) (indices_shape : runtime_shape_t).
Variables (bd last K : nat).

(** The coordinate in the indices tensor: output axes
    [0, last_indices_axis), and 0 on the last axis. *)
Definition spec_indices_coordinate (out_index : runtime_shape_t) : runtime_shape_t :=
  take last out_index ++ [0].

(** The [K] integers read from the last axis of the indices tensor. *)
Definition spec_index_vector (out_index : runtime_shape_t) : list Z :=
  let begin :=
    offset (get_default_strides indices_shape) (spec_indices_coordinate out_index) in
  take K (drop (Z.to_nat begin) indices).

(** The number of trailing output axes that are copied: those that the
    output has left, as far as the input has axes left. *)
Definition spec_block_rank (out_index : runtime_shape_t) : nat :=
  Nat.min (length out_index - last) (length in_shape - bd - K).

(** The input index: batch axes, index vector, trailing axes; input axes
    beyond those stay 0. *)
Definition spec_input_index (out_index : runtime_shape_t) : runtime_shape_t :=
  take bd out_index
  ++ (int32_to_size_t <$> spec_index_vector out_index)
  ++ take (spec_block_rank out_index) (drop last out_index)
  ++ replicate (length in_shape - bd - K - spec_block_rank out_index) 0.

(** One scalar per output position. *)
Definition spec_gather_one (out_index : runtime_shape_t) (output : list T)
    : result (list T) :=
  match input !! Z.to_nat (offset in_strides (spec_input_index out_index)) with
  | Some x =>
      if bool_decide (Z.to_nat (offset out_strides out_index) < length output)%nat
      then ok (<[Z.to_nat (offset out_strides out_index) := x]> output)
      else undefined output_write_out_of_range
  | None => undefined input_read_out_of_range
  end.
End gather_nd_spec.

(** The row of the indices tensor that an output index selects lies inside
    the indices buffer. *)
Definition indices_rows_in_range (indices : list Z) (indices_shape : runtime_shape_t)
    (last K : nat) (out_index : runtime_shape_t) : Prop :=
  (Z.to_nat (offset (get_default_strides indices_shape)
               (spec_indices_coordinate last out_index)) + K <= length indices)%nat.

(** An index value [v] addresses a dimension of size [d] when [0 <= v < d]. *)
Definition index_value_in_bounds (v d : Z) : bool := (0 <=? v) && (v <? d).

(** The index vector addresses the input dimensions that follow the
    [bd] batch dimensions. *)
Definition index_vector_in_bounds (in_shape : runtime_shape_t) (bd : nat)
    (vector : list Z) : bool :=
  forallb (fun vd => index_value_in_bounds vd.1 vd.2) (zip vector (drop bd in_shape)).

(** * 32-bit floats

    [float] is IEEE 754 binary32: 24 bits of precision, infinities at
    exponent 128, round to nearest with ties to even. *)
Abbreviation float32 := spec_float.
Definition f32_prec : Z := 24.
Definition f32_emax : Z := 128.
Definition f32_add : float32 -> float32 -> float32 := SFadd f32_prec f32_emax.
Definition f32_sub : float32 -> float32 -> float32 := SFsub f32_prec f32_emax.
Definition f32_mul : float32 -> float32 -> float32 := SFmul f32_prec f32_emax.
Definition f32_ltb : float32 -> float32 -> bool := SFltb.
Definition f32_eqb : float32 -> float32 -> bool := SFeqb.
(** The literals [0.5f] and [1.0f]. *)
Definition f32_half : float32 := S754_finite false (2 ^ 23) (-24).
Definition f32_one : float32 := S754_finite false (2 ^ 23) (-23).

(** [std::floor] on [float]: the largest integer not above the argument;
    zeros, infinities and NaN are returned as they are. *)
Definition f32_floor (a : float32) : float32 :=
  match a with
  | S754_finite s m e =>
      if 0 <=? e then a
      else binary_normalize f32_prec f32_emax
             (Z.shiftr (cond_Zopp s (Z.pos m)) (- e)) 0 s
  | _ => a
  end.

(** [static_cast<int>] of a [float]: truncation towards zero; undefined
    ([None]) for NaN, the infinities and values outside the range of [int]. *)
Definition f32_to_int (a : float32) : option Z :=
  match a with
  | S754_zero _ => Some 0
  | S754_finite s m e =>
      let n := cond_Zopp s (if 0 <=? e then Z.shiftl (Z.pos m) e
                            else Z.shiftr (Z.pos m) (- e)) in
      if (- 2 ^ 31 <=? n) && (n <? 2 ^ 31) then Some n else None
  | _ => None
  end.

(** The lambda of the [unary_round] case (neutral_ops.cpp, lines 369-385);
    [%] on [int] truncates, as [Z.rem] does.  [None]: undefined behaviour
    of the cast. *)
Definition bankers_round (a : float32) : option float32 :=
  let floor_val := f32_floor a in
  let diff := f32_sub a floor_val in
  if f32_ltb diff f32_half then Some floor_val
  else if f32_eqb diff f32_half then
    n ← f32_to_int floor_val;
    if Z.rem n 2 =? 0 then Some floor_val else Some (f32_add floor_val f32_one)
  else Some (f32_add floor_val f32_one).

(** The value of [std::clamp(v, lo, hi)] where C++ defines the call: for
    [hi] not below [lo]. *)
Definition std_clamp (v lo hi : float32) : float32 :=
  if f32_ltb v lo then lo else if f32_ltb hi v then hi else v.

(** ** Integers as binary32 numbers

    The canonical binary32 representation of an integer of at most 24
    binary digits: the mantissa is shifted up to 24 digits. *)
Definition int_mantissa (p : positive) : positive :=
  Z.to_pos (Z.pos p * 2 ^ (24 - Z.pos (digits2_pos p))).
Definition int_float (s : bool) (p : positive) : float32 :=
  S754_finite s (int_mantissa p) (Z.pos (digits2_pos p) - 24).
Definition Z_float (n : Z) : float32 :=
  match n with
  | Z0 => S754_zero false
  | Z.pos p => int_float false p
  | Z.neg p => int_float true p
  end.

(** ** Round-half-to-even, as the specification words it

    [n] is a nearest integer of the dyadic number [M / 2^k], and it is the
    even one when [M / 2^k] lies half-way between two integers. *)
Definition nearest_ties_even (M k n : Z) : Prop :=
  2 * Z.abs (M - n * 2 ^ k) <= 2 ^ k
  /\ (2 * Z.abs (M - n * 2 ^ k) = 2 ^ k -> Z.even n = true).


(** Zeros and finite numbers, as opposed to infinities and NaN. *)
Definition f32_is_finite (a : float32) : bool :=
  match a with
  | S754_zero _ | S754_finite _ _ _ => true
  | _ => false
  end.


(** * The evaluator (neutral_ops.cpp) *)

(** ** Graph nodes and the memory binding *)

(** Modelled from the spec: the declaration of [datatype_t] is not among the
    sources; the data model lists signed and unsigned 8/16/32-bit integers
    and the 32-bit float.  [dt_other] stands for any further enumerator. *)
Inductive datatype_t : Set :=
  | dt_int8 | dt_int16 | dt_int32
  | dt_uint8 | dt_uint16 | dt_uint32
  | dt_float32
  | dt_other (tag : nat).

(** The enumerators of [unary_op_t] that neutral_ops.cpp names;
    [unary_other] stands for any further enumerator. *)
Inductive unary_op_t : Set :=
  | unary_abs | unary_ceil | unary_cos | unary_exp | unary_floor | unary_log
  | unary_neg | unary_round | unary_rsqrt | unary_sin | unary_sqrt
  | unary_square | unary_tanh
  | unary_other (tag : nat).

Inductive image_resize_mode_t : Set := image_resize_bilinear | image_resize_nearest_neighbor.

(** The operator kinds that neutral_ops.cpp registers; [op_other] stands
    for any other kind. *)
Inductive node_opcode : Set :=
  | op_input_node | op_output_node | op_ignore_node | op_constant
  | op_batch_to_space | op_binary | op_concat | op_conv2d | op_conv2d_transpose
  | op_dequantize | op_fused_unary | op_matmul | op_pad | op_quantize | op_reduce
  | op_reduce_window2d | op_bitcast | op_resize_image | op_slice | op_transpose
  | op_unary | op_table_lookup1d | op_clamp | op_convert | op_gather | op_gather_nd
  | op_other (tag : nat).

#[export] Instance node_opcode_eq_dec : EqDecision node_opcode.
Proof. solve_decision. Defined.
#[export] Instance datatype_eq_dec : EqDecision datatype_t.
Proof. solve_decision. Defined.
#[export] Instance image_resize_mode_eq_dec : EqDecision image_resize_mode_t.
Proof. solve_decision. Defined.

(** A connector: the identity under which memory is bound to it, and its
    declared element type and shape. *)
Record connector : Type := {
  conn_id : nat;
  conn_type : datatype_t;
  conn_shape : runtime_shape_t;
}.

(** The attributes a node class adds to [ir::node]; those that only the
    kernels outside neutral_ops.cpp read are kept opaque. *)
Inductive node_attributes : Type :=
  | attr_none
  | attr_unary (unary_op : unary_op_t)
  | attr_resize_image (mode : image_resize_mode_t) (opaque : list Z)
  | attr_opaque (opaque : list Z).

Record node : Type := {
  runtime_opcode : node_opcode;
  inputs : list connector;
  outputs : list connector;
  attributes : node_attributes;
}.

(** One element of bound memory: a [float], or an integer of one of the
    integer element types. *)
Inductive cell : Type :=
  | float_cell (f : float32)
  | int_cell (z : Z).

(** What [memory_at] returns: a view (first cell, number of elements) of
    the memory shared by all connectors, with its type, shape and strides.
    Views of different connectors may overlap. *)
Record evaluate_tensor : Type := {
  datatype : datatype_t;
  shape : runtime_shape_t;
  strides : runtime_shape_t;
  buffer_start : nat;
  buffer_size : nat;
}.

Record module_evaluate_context : Type := {
  allocations : gmap nat evaluate_tensor;
  memory : list cell;
}.

(** ** Exceptions, assertions and undefined behaviour *)

Inductive exception : Type :=
  | runtime_error (what : string)
  | out_of_range (what : string)
  | kernel_failure (e : errc).

(** How the evaluation of a node ends: it returns, throws, trips an
    [assert], or leaves the behaviour that C++ defines (or that this model
    covers). *)
Inductive outcome (A : Type) : Type :=
  | Normal (a : A)
  | Throw (e : exception)
  | AssertionFailure (expression : string)
  | Undefined.
Arguments Normal {A} a.
Arguments Throw {A} e.
Arguments AssertionFailure {A} expression.
Arguments Undefined {A}.

#[export] Instance outcome_ret : MRet outcome := fun A a => Normal a.
#[export] Instance outcome_bind : MBind outcome := fun A B f r =>
  match r with
  | Normal a => f a
  | Throw e => Throw e
  | AssertionFailure s => AssertionFailure s
  | Undefined => Undefined
  end.

(** [result<T>::unwrap_or_throw]. *)
Definition unwrap_or_throw {A : Type} (r : result A) : outcome A :=
  match r with
  | ok a => Normal a
  | err e => Throw (kernel_failure e)
  | undefined _ | out_of_fuel => Undefined
  end.

(** The kernels that neutral_ops.cpp calls and that live elsewhere. *)
Inductive kernel_name : Set :=
  | k_batch_to_space | k_binary | k_concat | k_conv2d | k_nnil_unary_method | k_pad
  | k_reduce | k_reduce_window2d | k_resize_bilinear | k_resize_nearest_neighbor
  | k_slice | k_transpose | k_convert | k_gather | k_gather_nd.
Inductive neutral_kernel_name : Set :=
  | n_conv2d_transpose | n_dequantize | n_matmul | n_quantize | n_table_lookup1d
  | n_bitcast_copy.

(** What the evaluator is built and linked with: whether [NDEBUG] is
    defined (it removes every [assert]), the kernels of [nncase::kernels]
    that return a [result<void>], those of [kernels::neutral] that return
    [void], and the functions of the C library applied per element. *)
Record environment : Type := {
  NDEBUG : bool;
  kernels : kernel_name -> node -> module_evaluate_context -> result module_evaluate_context;
  neutral : neutral_kernel_name -> node -> module_evaluate_context -> module_evaluate_context;
  libm : unary_op_t -> float32 -> float32;
}.

(** [assert(condition)]. *)
Definition assert_ (env : environment) (condition : bool) (expression : string)
    : outcome unit :=
  if NDEBUG env then Normal tt
  else if condition then Normal tt else AssertionFailure expression.

Definition input_at (n : node) (i : nat) : outcome connector :=
  match inputs n !! i with Some c => Normal c | None => Undefined end.
Definition output_at (n : node) (i : nat) : outcome connector :=
  match outputs n !! i with Some c => Normal c | None => Undefined end.

(** Modelled from the spec: [module_evaluate_context::memory_at] is not
    among the sources; a connector without a bound region aborts the pass. *)
Definition memory_at (ctx : module_evaluate_context) (c : connector)
    : outcome evaluate_tensor :=
  match allocations ctx !! conn_id c with
  | Some t => Normal t
  | None => Throw (out_of_range "memory_at")
  end.

(** [span[i]] read as a [float]; outside the memory, or on a cell that
    does not hold a [float], the behaviour is undefined. *)
Definition read_float (mem : list cell) (t : evaluate_tensor) (i : nat) : outcome float32 :=
  match mem !! (buffer_start t + i)%nat with
  | Some (float_cell f) => Normal f
  | _ => Undefined
  end.

(** [span[i] = f]. *)
Definition write_float (mem : list cell) (t : evaluate_tensor) (i : nat) (f : float32)
    : outcome (list cell) :=
  if bool_decide (buffer_start t + i < length mem)%nat
  then Normal (<[(buffer_start t + i)%nat := float_cell f]> mem)
  else Undefined.

(** [for (size_t i = first; i < first + count; i++) body(i)] on the memory. *)
Fixpoint for_each_index (count first : nat) (body : nat -> list cell -> outcome (list cell))
    (mem : list cell) : outcome (list cell) :=
  match count with
  | O => Normal mem
  | S count' => mem' ← body first mem; for_each_index count' (S first) body mem'
  end.

Definition with_memory (ctx : module_evaluate_context) (mem : list cell)
    : module_evaluate_context :=
  {| allocations := allocations ctx; memory := mem |}.

(** ** The registered evaluators *)

Definition evaluator : Type :=
  environment -> node -> module_evaluate_context -> outcome module_evaluate_context.

Definition is_type (t : datatype_t) (c : connector) : bool :=
  bool_decide (conn_type c = t).

(** [context.memory_at(c)] for every connector of a list. *)
Fixpoint memory_at_all (ctx : module_evaluate_context) (cs : list connector)
    : outcome unit :=
  match cs with
  | [] => Normal tt
  | c :: cs' => _ ← memory_at ctx c; memory_at_all ctx cs'
  end.

(** [kernels::k(...).unwrap_or_throw()]. *)
Definition invoke (env : environment) (k : kernel_name) (n : node)
    (ctx : module_evaluate_context) : outcome module_evaluate_context :=
  unwrap_or_throw (kernels env k n ctx).

(** Lines 71-73. *)
Definition nop_evaluator : evaluator := fun _ _ ctx => Normal ctx.

(** A closure that binds the buffers of its connectors and calls a kernel
    that returns a [result<void>] (batch_to_space, concat, fused_unary,
    pad, slice, transpose, convert, gather, gather_nd). *)
Definition kernel_evaluator (k : kernel_name) : evaluator := fun env n ctx =>
  _ ← memory_at_all ctx (inputs n);
  _ ← memory_at_all ctx (outputs n);
  invoke env k n ctx.

(** The same after [assert(rnode.input().type() == dt_float32)] (conv2d,
    reduce, reduce_window2d). *)
Definition float_kernel_evaluator (k : kernel_name) : evaluator := fun env n ctx =>
  input ← input_at n 0;
  _ ← assert_ env (is_type dt_float32 input) "rnode.input().type() == dt_float32";
  kernel_evaluator k env n ctx.

(** Lines 98-111. *)
Definition binary_evaluator : evaluator := fun env n ctx =>
  input_a ← input_at n 0;
  input_b ← input_at n 1;
  _ ← assert_ env (is_type dt_float32 input_a) "rnode.input_a().type() == dt_float32";
  _ ← assert_ env (is_type dt_float32 input_b) "rnode.input_b().type() == dt_float32";
  kernel_evaluator k_binary env n ctx.

(** A closure that calls a kernel of [kernels::neutral], which returns
    [void] (quantize). *)
Definition neutral_evaluator (k : neutral_kernel_name) : evaluator := fun env n ctx =>
  _ ← memory_at_all ctx (inputs n);
  _ ← memory_at_all ctx (outputs n);
  Normal (neutral env k n ctx).

(** Lines 152-164 and 407-416. *)
Definition typed_neutral_evaluator (t : datatype_t) (expression : string)
    (k : neutral_kernel_name) : evaluator := fun env n ctx =>
  input ← input_at n 0;
  _ ← assert_ env (is_type t input) expression;
  neutral_evaluator k env n ctx.

(** Lines 208-222. *)
Definition matmul_evaluator : evaluator := fun env n ctx =>
  input_a ← input_at n 0;
  input_b ← input_at n 1;
  _ ← assert_ env (is_type dt_float32 input_a) "rnode.input_a().type() == dt_float32";
  _ ← assert_ env (is_type dt_float32 input_b) "rnode.input_b().type() == dt_float32";
  neutral_evaluator n_matmul env n ctx.

(** Lines 166-188. *)
Definition dequantize_evaluator : evaluator := fun env n ctx =>
  output_c ← output_at n 0;
  output ← memory_at ctx output_c;
  input_c ← input_at n 0;
  match conn_type input_c with
  | dt_uint8 | dt_int8 | dt_int32 =>
      input ← memory_at ctx input_c;
      Normal (neutral env n_dequantize n ctx)
  | _ =>
      _ ← assert_ env false "false && not supported type!";
      Normal ctx
  end.

(** Lines 284-306. *)
Definition resize_image_evaluator : evaluator := fun env n ctx =>
  _ ← memory_at_all ctx (inputs n);
  _ ← memory_at_all ctx (outputs n);
  match attributes n with
  | attr_resize_image mode _ =>
      if bool_decide (mode = image_resize_bilinear)
      then invoke env k_resize_bilinear n ctx
      else invoke env k_resize_nearest_neighbor n ctx
  | _ => Undefined
  end.

(** The functions of the [switch] of lines 345-404; [None] is its
    [default] case. *)
Definition unary_function (env : environment) (op : unary_op_t)
    : option (float32 -> option float32) :=
  match op with
  | unary_abs => Some (fun a => Some (SFabs a))
  | unary_floor => Some (fun a => Some (f32_floor a))
  | unary_neg => Some (fun a => Some (SFopp a))
  | unary_round => Some bankers_round
  | unary_square => Some (fun a => Some (f32_mul a a))
  | unary_ceil | unary_cos | unary_exp | unary_log | unary_rsqrt | unary_sin
  | unary_sqrt | unary_tanh => Some (fun a => Some (libm env op a))
  | unary_other _ => None
  end.

(** Modelled from the spec: [neutral::unary] is not among the sources; it
    applies the function to each of the [count] input elements in turn. *)
Definition neutral_unary (input output : evaluate_tensor) (count : nat)
    (unary_op : float32 -> option float32) (mem : list cell) : outcome (list cell) :=
  for_each_index count 0
    (fun i mem =>
       a ← read_float mem input i;
       match unary_op a with
       | Some b => write_float mem output i b
       | None => Undefined
       end)
    mem.

(** Lines 334-405. *)
Definition unary_evaluator : evaluator := fun env n ctx =>
  input_c ← input_at n 0;
  _ ← assert_ env (is_type dt_float32 input_c) "rnode.input().type() == dt_float32";
  input ← memory_at ctx input_c;
  output_c ← output_at n 0;
  output ← memory_at ctx output_c;
  match attributes n with
  | attr_unary op =>
      match unary_function env op with
      | Some f =>
          mem ← neutral_unary input output (buffer_size input) f (memory ctx);
          Normal (with_memory ctx mem)
      | None => Throw (runtime_error "Not supported unary")
      end
  | _ => Undefined
  end.

(** The call [std::clamp(v, lo, hi)]: its precondition is that [hi] is not
    below [lo]; a call that breaks it leaves the behaviour that C++
    defines. *)
Definition call_std_clamp (v lo hi : float32) : outcome float32 :=
  if f32_ltb hi lo then Undefined else Normal (std_clamp v lo hi).

(** Lines 418-435. *)
Definition clamp_evaluator : evaluator := fun env n ctx =>
  input_c ← input_at n 0;
  _ ← assert_ env (is_type dt_float32 input_c) "rnode.input().type() == dt_float32";
  input ← memory_at ctx input_c;
  input_low_c ← input_at n 1;
  input_low ← memory_at ctx input_low_c;
  input_high_c ← input_at n 2;
  input_high ← memory_at ctx input_high_c;
  output_c ← output_at n 0;
  output ← memory_at ctx output_c;
  low ← read_float (memory ctx) input_low 0;
  high ← read_float (memory ctx) input_high 0;
  mem ← for_each_index (buffer_size input) 0
          (fun i mem =>
             a ← read_float mem input i;
             v ← call_std_clamp a low high;
             write_float mem output i v)
          (memory ctx);
  Normal (with_memory ctx mem).

(** [register_neutral_evaluators] (lines 78-477): the table after the
    calls of [register_evaluator], in their order. *)
Definition register_neutral_evaluators : list (node_opcode * evaluator) :=
  [ (op_input_node, nop_evaluator);
    (op_output_node, nop_evaluator);
    (op_ignore_node, nop_evaluator);
    (op_constant, nop_evaluator);
    (op_batch_to_space, kernel_evaluator k_batch_to_space);
    (op_binary, binary_evaluator);
    (op_concat, kernel_evaluator k_concat);
    (op_conv2d, float_kernel_evaluator k_conv2d);
    (op_conv2d_transpose,
     typed_neutral_evaluator dt_float32 "rnode.input().type() == dt_float32"
       n_conv2d_transpose);
    (op_dequantize, dequantize_evaluator);
    (op_fused_unary, kernel_evaluator k_nnil_unary_method);
    (op_matmul, matmul_evaluator);
    (op_pad, kernel_evaluator k_pad);
    (op_quantize, neutral_evaluator n_quantize);
    (op_reduce, float_kernel_evaluator k_reduce);
    (op_reduce_window2d, float_kernel_evaluator k_reduce_window2d);
    (op_bitcast, neutral_evaluator n_bitcast_copy);
    (op_resize_image, resize_image_evaluator);
    (op_slice, kernel_evaluator k_slice);
    (op_transpose, kernel_evaluator k_transpose);
    (op_unary, unary_evaluator);
    (op_table_lookup1d,
     typed_neutral_evaluator dt_uint8 "rnode.input().type() == dt_uint8"
       n_table_lookup1d);
    (op_clamp, clamp_evaluator);
    (op_convert, kernel_evaluator k_convert);
    (op_gather, kernel_evaluator k_gather);
    (op_gather_nd, kernel_evaluator k_gather_nd) ].

Fixpoint find_evaluator (table : list (node_opcode * evaluator)) (op : node_opcode)
    : option evaluator :=
  match table with
  | [] => None
  | (op', f) :: table' => if decide (op' = op) then Some f else find_evaluator table' op
  end.

Definition get_evaluator (op : node_opcode) : option evaluator :=
  find_evaluator register_neutral_evaluators op.

(** ** The kernel calls of the closures *)

(** The kernel of [nncase::kernels] that the closure registered for the
    kind of a node calls, for the kinds whose closure ends in such a call
    (for resize_image the mode of the node chooses between two); each of
    these calls is followed by [.unwrap_or_throw()]. *)
Definition kernel_call (n : node) : option kernel_name :=
  match runtime_opcode n with
  | op_batch_to_space => Some k_batch_to_space
  | op_binary => Some k_binary
  | op_concat => Some k_concat
  | op_conv2d => Some k_conv2d
  | op_fused_unary => Some k_nnil_unary_method
  | op_pad => Some k_pad
  | op_reduce => Some k_reduce
  | op_reduce_window2d => Some k_reduce_window2d
  | op_resize_image =>
      match attributes n with
      | attr_resize_image mode _ =>
          Some (if bool_decide (mode = image_resize_bilinear)
                then k_resize_bilinear else k_resize_nearest_neighbor)
      | _ => None
      end
  | op_slice => Some k_slice
  | op_transpose => Some k_transpose
  | op_convert => Some k_convert
  | op_gather => Some k_gather
  | op_gather_nd => Some k_gather_nd
  | _ => None
  end.

(** The inputs whose element type such a closure asserts to be float32
    before its kernel call (lines 101-102, 135, 249 and 263). *)
Definition float_asserted_inputs (op : node_opcode) : list nat :=
  match op with
  | op_binary => [0; 1]%nat
  | op_conv2d | op_reduce | op_reduce_window2d => [0%nat]
  | _ => []
  end.

(** ** The evaluator pass *)

(** Modelled from the spec: the loop over the schedule (evaluator.cpp) is
    not among the sources; the evaluator "walks the graph in a schedule
    order, and for each node invokes" the evaluator registered for the
    node's operator kind; an unknown kind is a fatal error.  The first
    component of the result lists the nodes visited, in order. *)
Fixpoint evaluate (env : environment) (schedule : list node)
    (ctx : module_evaluate_context) : list node * outcome module_evaluate_context :=
  match schedule with
  | [] => ([], Normal ctx)
  | n :: schedule' =>
      match get_evaluator (runtime_opcode n) with
      | None => ([n], Throw (runtime_error "Evaluator is not found"))
      | Some f =>
          match f env n ctx with
          | Normal ctx' =>
              let '(visited, r) := evaluate env schedule' ctx' in (n :: visited, r)
          | failure => ([n], failure)
          end
      end
  end.

(** ** Loud failures *)

(** The input types for which the [switch] of the dequantize closure has a
    case. *)
Definition dequantize_supported (t : datatype_t) : bool :=
  match t with dt_uint8 | dt_int8 | dt_int32 => true | _ => false end.

(** The evaluation of a node fails loudly when it ends in an exception or
    in a failed [assert]. *)
Definition fails_loudly {A : Type} (r : outcome A) : Prop :=
  match r with
  | Throw _ | AssertionFailure _ => True
  | Normal _ | Undefined => False
  end.

(** * Concrete inputs

    A small graph and memory on which the statements below are run. *)

(** An environment whose every kernel fails and whose C library is the
    identity; assertions are compiled in. *)
Definition example_env : environment :=
  {| NDEBUG := false;
     kernels := fun _ _ _ => err errc_invalid_argument;
     neutral := fun _ _ ctx => ctx;
     libm := fun _ a => a |}.

Definition example_connector (id : nat) (t : datatype_t) : connector :=
  {| conn_id := id; conn_type := t; conn_shape := [] |}.

Definition example_tensor (start size : nat) : evaluate_tensor :=
  {| datatype := dt_float32; shape := [Z.of_nat size]; strides := [1];
     buffer_start := start; buffer_size := size |}.

(** Four connectors over eight cells: the input [0.5; 2.5; -0.5], the low
    bound [0; 9] (its second element is never read), the high bound [2],
    and two output cells after the input's first cell. *)
Definition example_context : module_evaluate_context :=
  {| allocations :=
       {[ 0%nat := example_tensor 0 3; 1%nat := example_tensor 3 2;
          2%nat := example_tensor 5 1; 3%nat := example_tensor 6 2;
          4%nat := example_tensor 0 3 ]};
     memory :=
       [ float_cell f32_half;
         float_cell (S754_finite false (5 * 2 ^ 21) (-22));
         float_cell (S754_finite true (2 ^ 23) (-24));
         float_cell (S754_zero false);
         float_cell (S754_finite false (9 * 2 ^ 20) (-20));
         float_cell (S754_finite false (2 ^ 23) (-22));
         int_cell 0; int_cell 0 ] |}.

(** A clamp that writes its result over its own input. *)
Definition example_clamp : node :=
  {| runtime_opcode := op_clamp;
     inputs := [ example_connector 0 dt_float32; example_connector 1 dt_float32;
                 example_connector 2 dt_float32 ];
     outputs := [ example_connector 4 dt_float32 ];
     attributes := attr_none |}.




(** A binary node on two float inputs. *)
Definition example_binary : node :=
  {| runtime_opcode := op_binary;
     inputs := [ example_connector 0 dt_float32; example_connector 1 dt_float32 ];
     outputs := [ example_connector 3 dt_float32 ];
     attributes := attr_opaque [] |}.

Definition example_pad : node :=
  {| runtime_opcode := op_pad;
     inputs := [ example_connector 0 dt_float32 ];
     outputs := [ example_connector 3 dt_float32 ];
     attributes := attr_opaque [] |}.

Definition example_input_node : node :=
  {| runtime_opcode := op_input_node;
     inputs := [];
     outputs := [ example_connector 0 dt_float32 ];
     attributes := attr_none |}.

(** A dequantize fed with 16-bit integers, and a unary node whose operator
    is none of those of the [switch]. *)
Definition example_dequantize : node :=
  {| runtime_opcode := op_dequantize;
     inputs := [ example_connector 1 dt_int16 ];
     outputs := [ example_connector 3 dt_float32 ];
     attributes := attr_opaque [] |}.

Definition example_unary : node :=
  {| runtime_opcode := op_unary;
     inputs := [ example_connector 0 dt_float32 ];
     outputs := [ example_connector 3 dt_float32 ];
     attributes := attr_unary (unary_other 0) |}.

(** * Further definitions for the properties of the kernel and the evaluator *)

(** The number of elements of a shape, as a mathematical integer. *)
Definition element_count (shape : runtime_shape_t) : Z := foldr Z.mul 1 shape.

(** An index addresses an element of a tensor of the given shape: it has
    one coordinate per dimension, each inside its dimension. *)
Definition index_in_shape (index shape : runtime_shape_t) : Prop :=
  Forall2 (fun i d => 0 <= i < d) index shape.

(** The same evaluator built with or without [NDEBUG]. *)
Definition with_NDEBUG (b : bool) (env : environment) : environment :=
  {| NDEBUG := b; kernels := kernels env; neutral := neutral env; libm := libm env |}.

(** The element type that the closure of an operator kind asserts of its
    first input ([rnode.input()], for binary and matmul [rnode.input_a()])
    before anything else; [None] for a closure that starts otherwise. *)
Definition asserted_input_type (op : node_opcode) : option datatype_t :=
  match op with
  | op_binary | op_conv2d | op_conv2d_transpose | op_matmul | op_reduce
  | op_reduce_window2d | op_unary | op_clamp => Some dt_float32
  | op_table_lookup1d => Some dt_uint8
  | _ => None
  end.

(** A clamp whose input is declared as 8-bit integers. *)
Definition example_clamp_uint8 : node :=
  {| runtime_opcode := op_clamp;
     inputs := [ example_connector 0 dt_uint8; example_connector 1 dt_float32;
                 example_connector 2 dt_float32 ];
     outputs := [ example_connector 4 dt_float32 ];
     attributes := attr_none |}.

(** * The TFLite importer (tflite_importer.cpp) *)

(** ** The model file

    What the importer reads of the flatbuffers tables of a model: of a
    tensor its shape vector (a pointer that may be null), element type,
    buffer index and name (a pointer that may be null); of an operator the
    index of its operator code and its tensors; of the model the builtin
    codes of the operator codes, the data of the buffers (null for a buffer
    without data, else its bytes), and of subgraph 0 the tensors, inputs,
    outputs and operators. *)
Record tflite_tensor : Type := {
  tensor_shape : option (list Z);
  tensor_type : Z;
  tensor_buffer : Z;
  tensor_name : option string;
}.

Record tflite_operator : Type := {
  opcode_index : Z;
  operator_inputs : list Z;
  operator_outputs : list Z;
}.

Record tflite_model : Type := {
  operator_codes : list Z;
  buffers : list (option (list Z));
  tensors : list tflite_tensor;
  subgraph_inputs : list Z;
  subgraph_outputs : list Z;
  operators : list tflite_operator;
}.

Record import_options : Type := {
  output_arrays : list string;
}.

(** [v->Get(i)] on a flatbuffers vector: an index outside the vector
    (a negative [int32_t] becomes a huge unsigned index) leaves the
    behaviour that C++ defines. *)
Definition vector_get {A : Type} (v : list A) (i : Z) : outcome A :=
  if 0 <=? i
  then match v !! Z.to_nat i with Some x => Normal x | None => Undefined end
  else Undefined.

(** [p->member] on a pointer that may be null. *)
Definition deref {A : Type} (p : option A) : outcome A :=
  match p with Some x => Normal x | None => Undefined end.

(** [size_t] to [int32_t], as [outputs.emplace_back(i)] converts. *)
Definition int32_of_size_t (i : Z) : Z := (i + 2 ^ 31) mod 2 ^ 32 - 2 ^ 31.

(** ** The graph under construction *)

(** The nodes that [import] itself adds to the graph. *)
Inductive ir_node : Type :=
  | input_node (type : datatype_t) (dims : runtime_shape_t) (name : string)
  | output_node (type : datatype_t) (dims : runtime_shape_t) (name : string)
  | constant (type : datatype_t) (dims : runtime_shape_t) (data : list Z)
      (name : string).

(** Connectors are pointers in the source: those of the nodes that the
    [convert_op_] functions made are told apart by an identifier, and the
    one connector of a node that [import] adds by the position of the node
    among the nodes added. *)
Inductive output_connector : Type :=
  | operator_output (id : nat)
  | node_output (index : nat).
Inductive input_connector : Type :=
  | operator_input (id : nat)
  | node_input (index : nat).

#[export] Instance output_connector_eq_dec : EqDecision output_connector.
Proof. solve_decision. Defined.
#[export] Instance input_connector_eq_dec : EqDecision input_connector.
Proof. solve_decision. Defined.

(** The importer: the nodes added to [graph_], the output that each input
    connector is connected to ([connection()], null when unconnected), and
    the two maps [input_tensors_] (input connector to tensor; a list in the
    order in which the [unordered_map] is iterated) and [output_tensors_]
    (tensor to the output connector that produces it). *)
Record tflite_importer : Type := {
  graph_ : list ir_node;
  connection : input_connector -> option output_connector;
  input_tensors_ : list (input_connector * Z);
  output_tensors_ : gmap Z output_connector;
}.

(** Modelled from the spec: [graph::emplace] is not among the sources; the
    node is added to the graph, and the result is its position. *)
Definition emplace (node : ir_node) (st : tflite_importer) : nat * tflite_importer :=
  (length (graph_ st),
   {| graph_ := graph_ st ++ [node]; connection := connection st;
      input_tensors_ := input_tensors_ st; output_tensors_ := output_tensors_ st |}).

(** Modelled from the spec: [input_connector::connect] is not among the
    sources; a connector carries one tensor value from exactly one
    producer, so connecting an input makes the output its connection. *)
Definition connect (c : input_connector) (out : output_connector)
    (st : tflite_importer) : tflite_importer :=
  {| graph_ := graph_ st;
     connection := fun c' => if decide (c' = c) then Some out else connection st c';
     input_tensors_ := input_tensors_ st; output_tensors_ := output_tensors_ st |}.

(** Modelled from the spec: [link_output_tensor] is declared in
    tflite_importer.h, which is not among the sources; it records the
    connector as the producer of the tensor.  [import] calls it for a
    tensor that has no producer yet. *)
Definition link_output_tensor (t : Z) (out : output_connector)
    (st : tflite_importer) : tflite_importer :=
  {| graph_ := graph_ st; connection := connection st;
     input_tensors_ := input_tensors_ st;
     output_tensors_ := <[t := out]> (output_tensors_ st) |}.

(** [map.emplace(key, value)] of [std::unordered_map]: an entry that is
    there is kept. *)
Definition map_emplace {V : Type} (key : Z) (value : V) (map : gmap Z V) : gmap Z V :=
  match map !! key with
  | Some _ => map
  | None => <[key := value]> map
  end.

(** ** The output tensors (lines 67-99) *)

(** Lines 79-92: the index of the first tensor that has the name; a tensor
    without a name is passed over. *)
Fixpoint find_tensor (name : string) (ts : list tflite_tensor) (i : Z) : option Z :=
  match ts with
  | [] => None
  | t :: ts' =>
      match tensor_name t with
      | Some t_name =>
          if decide (t_name = name) then Some i
          else find_tensor name ts' (size_t_wrap (i + 1))
      | None => find_tensor name ts' (size_t_wrap (i + 1))
      end
  end.

(** Lines 77-98. *)
Fixpoint find_outputs (names : list string) (ts : list tflite_tensor)
    (outputs : list Z) : outcome (list Z) :=
  match names with
  | [] => Normal outputs
  | name :: names' =>
      match find_tensor name ts 0 with
      | Some i => find_outputs names' ts (outputs ++ [int32_of_size_t i])
      | None => Throw (runtime_error ("Cannot find output tensor: " ++ name))
      end
  end.

(** Lines 67-99. *)
Definition select_outputs (options : import_options) (model_ : tflite_model)
    : outcome (list Z) :=
  if bool_decide (output_arrays options = [])
  then Normal (subgraph_outputs model_)
  else find_outputs (output_arrays options) (tensors model_) [].

(** The data of the buffer of a tensor, where the tensor and its buffer
    exist and the buffer has data. *)
Definition constant_data (model_ : tflite_model) (t : Z) : option (list Z) :=
  match vector_get (tensors model_) t with
  | Normal tensor =>
      match vector_get (buffers model_) (tensor_buffer tensor) with
      | Normal (Some data) => Some data
      | _ => None
      end
  | _ => None
  end.

Section tflite_importer.
(** What the importer is linked with and is not among the sources: the
    lines of opcode.def with their [convert_op_] functions, the name of a
    builtin code, [get_shape], [to_data_type], the order in which an
    [unordered_map] from tensors to output connectors is iterated, and
    [graph::dce]. *)
Variable opcode_def :
  list (Z * (tflite_operator -> tflite_importer -> outcome tflite_importer)).
Variable EnumNameBuiltinOperator : Z -> string.
Variable get_shape : option (list Z) -> outcome runtime_shape_t.
Variable to_data_type : Z -> outcome datatype_t.
Variable iteration_order : gmap Z output_connector -> list (Z * output_connector).
Variable dce : tflite_importer -> tflite_importer.
(** The model that the importer was constructed with. *)
Variable model_ : tflite_model.

(** The chain of [if (builtin_code == ...) return convert_op_...(op);]
    that the lines of opcode.def expand to. *)
Fixpoint dispatch_opcode
    (table : list (Z * (tflite_operator -> tflite_importer -> outcome tflite_importer)))
    (builtin_code : Z)
    : option (tflite_operator -> tflite_importer -> outcome tflite_importer) :=
  match table with
  | [] => None
  | (code, convert) :: table' =>
      if decide (builtin_code = code) then Some convert
      else dispatch_opcode table' builtin_code
  end.

(** Lines 174-186. *)
Definition convert_op (op : tflite_operator) (st : tflite_importer)
    : outcome tflite_importer :=
  builtin_code ← vector_get (operator_codes model_) (opcode_index op);
  match dispatch_opcode opcode_def builtin_code with
  | Some convert => convert op st
  | None =>
      Throw (runtime_error
               ("Unsupported tflite opcode: " ++ EnumNameBuiltinOperator builtin_code))
  end.

(** Lines 33-37. *)
Fixpoint convert_ops (ops : list tflite_operator) (st : tflite_importer)
    : outcome tflite_importer :=
  match ops with
  | [] => Normal st
  | op :: ops' => st' ← convert_op op st; convert_ops ops' st'
  end.

(** Lines 43-65: an input node for every entry of the inputs of the
    subgraph.  The name is set on the node after it was made. *)
Fixpoint create_inputs (ins : list Z) (created_inputs : gmap Z output_connector)
    (st : tflite_importer) : outcome (gmap Z output_connector * tflite_importer) :=
  match ins with
  | [] => Normal (created_inputs, st)
  | i :: ins' =>
      tensor ← vector_get (tensors model_) i;
      dims ← get_shape (tensor_shape tensor);
      type ← to_data_type (tensor_type tensor);
      name ← deref (tensor_name tensor);
      let '(node, st') := emplace (input_node type dims name) st in
      create_inputs ins' (map_emplace i (node_output node) created_inputs) st'
  end.

(** Lines 102-123: an output node for every entry of [outputs]. *)
Fixpoint create_outputs (outputs : list Z) (created_outputs : gmap Z input_connector)
    (st : tflite_importer) : outcome (gmap Z input_connector * tflite_importer) :=
  match outputs with
  | [] => Normal (created_outputs, st)
  | out :: outputs' =>
      tensor ← vector_get (tensors model_) out;
      dims ← get_shape (tensor_shape tensor);
      type ← to_data_type (tensor_type tensor);
      name ← deref (tensor_name tensor);
      let '(node, st') := emplace (output_node type dims name) st in
      create_outputs outputs' (map_emplace out (node_input node) created_outputs) st'
  end.

(** Lines 128-148: one input connector of a converted operator. *)
Definition connect_tensor (c : input_connector) (t : Z) (st : tflite_importer)
    : outcome tflite_importer :=
  match output_tensors_ st !! t with
  | Some out => Normal (connect c out st)
  | None =>
      tensor ← vector_get (tensors model_) t;
      buffer ← vector_get (buffers model_) (tensor_buffer tensor);
      match buffer with
      | Some data =>
          type ← to_data_type (tensor_type tensor);
          dims ← get_shape (tensor_shape tensor);
          name ← deref (tensor_name tensor);
          let '(con, st') := emplace (constant type dims data name) st in
          Normal (connect c (node_output con)
                    (link_output_tensor t (node_output con) st'))
      | None => Normal st
      end
  end.

(** Lines 125-149. *)
Fixpoint connect_tensors (links : list (input_connector * Z)) (st : tflite_importer)
    : outcome tflite_importer :=
  match links with
  | [] => Normal st
  | (c, t) :: links' => st' ← connect_tensor c t st; connect_tensors links' st'
  end.

(** Lines 151-159; [created_inputs.at] throws [std::out_of_range] for a
    tensor that is not among the inputs of the subgraph. *)
Fixpoint connect_inputs (created_inputs : gmap Z output_connector)
    (links : list (input_connector * Z)) (st : tflite_importer)
    : outcome tflite_importer :=
  match links with
  | [] => Normal st
  | (c, t) :: links' =>
      match connection st c with
      | Some _ => connect_inputs created_inputs links' st
      | None =>
          match created_inputs !! t with
          | Some out => connect_inputs created_inputs links' (connect c out st)
          | None => Throw (out_of_range "unordered_map::at")
          end
      end
  end.

(** Lines 161-169. *)
Fixpoint connect_outputs (created_outputs : gmap Z input_connector)
    (produced : list (Z * output_connector)) (st : tflite_importer) : tflite_importer :=
  match produced with
  | [] => st
  | (t, out) :: produced' =>
      match created_outputs !! t with
      | Some c => connect_outputs created_outputs produced' (connect c out st)
      | None => connect_outputs created_outputs produced' st
      end
  end.

(** Lines 31-172. *)
Definition import (options : import_options) (st : tflite_importer)
    : outcome tflite_importer :=
  st ← convert_ops (operators model_) st;
  '(created_inputs, st) ← create_inputs (subgraph_inputs model_) ∅ st;
  outputs ← select_outputs options model_;
  '(created_outputs, st) ← create_outputs outputs ∅ st;
  st ← connect_tensors (input_tensors_ st) st;
  st ← connect_inputs created_inputs (input_tensors_ st) st;
  Normal (dce (connect_outputs created_outputs (iteration_order (output_tensors_ st))
                 st)).
End tflite_importer.

(** A model of five tensors: an input, weights with data in their buffer,
    a tensor without a name, and two tensors called [out]. *)
Definition example_tensors : list tflite_tensor :=
  [ {| tensor_shape := Some [2]; tensor_type := 0; tensor_buffer := 0;
       tensor_name := Some "in" |};
    {| tensor_shape := Some [2]; tensor_type := 0; tensor_buffer := 1;
       tensor_name := Some "weights" |};
    {| tensor_shape := Some [2]; tensor_type := 0; tensor_buffer := 0;
       tensor_name := None |};
    {| tensor_shape := Some [2]; tensor_type := 0; tensor_buffer := 0;
       tensor_name := Some "out" |};
    {| tensor_shape := Some [2]; tensor_type := 0; tensor_buffer := 0;
       tensor_name := Some "out" |} ].

Definition example_model : tflite_model :=
  {| operator_codes := [0]; buffers := [None; Some [1; 2]];
     tensors := example_tensors;
     subgraph_inputs := [0]; subgraph_outputs := [3];
     operators := [] |}.

(** [out] is the index of the first tensor that has the name. *)
Definition first_tensor_named (ts : list tflite_tensor) (name : string) (out : Z)
    : Prop :=
  exists (k : nat) (tensor : tflite_tensor),
    out = Z.of_nat k
    /\ ts !! k = Some tensor
    /\ tensor_name tensor = Some name
    /\ forall (j : nat) (tensor' : tflite_tensor),
         (j < k)%nat -> ts !! j = Some tensor' -> tensor_name tensor' <> Some name.

(** A name that a tensor of the list has. *)
Definition names_tensor (ts : list tflite_tensor) (name : string) : Prop :=
  exists tensor, tensor ∈ ts /\ tensor_name tensor = Some name.

(** The input connector [c], which reads tensor [t], is connected to a
    constant node that holds [data], and that node is recorded as the
    producer of [t]. *)
Definition connected_to_constant (st : tflite_importer) (c : input_connector)
    (t : Z) (data : list Z) : Prop :=
  exists (con : nat) (type : datatype_t) (dims : runtime_shape_t) (name : string),
    connection st c = Some (node_output con)
    /\ graph_ st !! con = Some (constant type dims data name)
    /\ output_tensors_ st !! t = Some (node_output con).

(** What the example importer is linked with: no operator is supported,
    every tensor is of floats, a shape is taken as it is, the map is
    iterated in the order of its keys, and [dce] removes nothing. *)
Definition example_get_shape (dims : option (list Z)) : outcome runtime_shape_t :=
  Normal (default [] dims).
Definition example_to_data_type (type : Z) : outcome datatype_t := Normal dt_float32.

(** The importer after the conversion of two operators: the first reads
    tensors 0 and 1 and produces tensor 3, the second reads tensors 1
    and 3. *)
Definition example_importer : tflite_importer :=
  {| graph_ := [];
     connection := fun _ => None;
     input_tensors_ :=
       [ (operator_input 0, 0); (operator_input 1, 1); (operator_input 2, 1);
         (operator_input 3, 3) ];
     output_tensors_ := {[ 3 := operator_output 0 ]} |}.

(** The example importer after each part of [import]. *)
Definition example_after_inputs : gmap Z output_connector * tflite_importer :=
  Eval vm_compute in
    match create_inputs example_get_shape example_to_data_type example_model
            (subgraph_inputs example_model) ∅ example_importer with
    | Normal r => r
    | _ => (∅, example_importer)
    end.

Definition example_after_outputs : gmap Z input_connector * tflite_importer :=
  Eval vm_compute in
    match create_outputs example_get_shape example_to_data_type example_model
            (subgraph_outputs example_model) ∅ example_after_inputs.2 with
    | Normal r => r
    | _ => (∅, example_importer)
    end.

Definition example_after_tensors : tflite_importer :=
  Eval vm_compute in
    match connect_tensors example_get_shape example_to_data_type example_model
            (input_tensors_ example_after_outputs.2) example_after_outputs.2 with
    | Normal st => st
    | _ => example_importer
    end.

Definition example_after_connect_inputs : tflite_importer :=
  Eval vm_compute in
    match connect_inputs example_after_inputs.1 (input_tensors_ example_after_tensors)
            example_after_tensors with
    | Normal st => st
    | _ => example_importer
    end.

Definition example_imported : tflite_importer :=
  Eval vm_compute in
    connect_outputs example_after_outputs.1
      (map_to_list (output_tensors_ example_after_connect_inputs))
      example_after_connect_inputs.

(** An importer with an operator input that reads the tensor without a
    name, which nothing provides. *)
Definition example_dangling : tflite_importer :=
  {| graph_ := [];
     connection := fun _ => None;
     input_tensors_ := [ (operator_input 0, 2) ];
     output_tensors_ := ∅ |}.

(** The dangling importer after the input and the output nodes are made. *)
Definition example_dangling_inputs : gmap Z output_connector * tflite_importer :=
  Eval vm_compute in
    match create_inputs example_get_shape example_to_data_type example_model
            (subgraph_inputs example_model) ∅ example_dangling with
    | Normal r => r
    | _ => (∅, example_dangling)
    end.

Definition example_dangling_outputs : gmap Z input_connector * tflite_importer :=
  Eval vm_compute in
    match create_outputs example_get_shape example_to_data_type example_model
            (subgraph_outputs example_model) ∅ example_dangling_inputs.2 with
    | Normal r => r
    | _ => (∅, example_dangling)
    end.

(** A model with one operator. *)
Definition example_model_one_operator : tflite_model :=
  {| operator_codes := [7]; buffers := [None; Some [1; 2]];
     tensors := example_tensors;
     subgraph_inputs := [0]; subgraph_outputs := [3];
     operators := [ {| opcode_index := 0; operator_inputs := [0];
                       operator_outputs := [3] |} ] |}.

(** A model whose subgraph has the tensor without a name among its
    inputs. *)
Definition example_model_unnamed_input : tflite_model :=
  {| operator_codes := [0]; buffers := [None; Some [1; 2]];
     tensors := example_tensors;
     subgraph_inputs := [0; 2]; subgraph_outputs := [3];
     operators := [] |}.

(** * Properties of the Gather-ND kernel *)

Lemma vec_at_middle (l1 l2 : runtime_shape_t) x k :
  k = Z.of_nat (length l1) -> vec_at (l1 ++ x :: l2) k = ok x.
Proof.
  intros ->. unfold vec_at. rewrite Nat2Z.id.
  by rewrite list_lookup_middle.
Qed.

Lemma vec_set_middle (l1 l2 : runtime_shape_t) y x k :
  k = Z.of_nat (length l1) -> vec_set (l1 ++ y :: l2) k x = ok (l1 ++ x :: l2).
Proof.
  intros ->. unfold vec_set. rewrite Nat2Z.id.
  rewrite bool_decide_eq_true_2 by (rewrite length_app; simpl; lia).
  f_equal. replace (length l1) with (length l1 + 0)%nat at 1 by lia.
  by rewrite insert_app_r.
Qed.

Lemma vec_at_Some (l : runtime_shape_t) k x :
  l !! Z.to_nat k = Some x -> vec_at l k = ok x.
Proof. intros H. unfold vec_at. by rewrite H. Qed.

Lemma vec_at_ge (l : runtime_shape_t) k :
  Z.of_nat (length l) <= k -> vec_at l k = undefined vector_index_out_of_range.
Proof.
  intros H. unfold vec_at. rewrite lookup_ge_None_2; [done | lia].
Qed.

Lemma batch_loop_spec batch_dims (O2 : runtime_shape_t) :
  forall (O1 O3 A B C D : runtime_shape_t) (fuel : nat),
    length A = length O1 -> length C = length O1 ->
    (length O2 <= length B)%nat -> (length O2 <= length D)%nat ->
    (length O2 < fuel)%nat ->
    batch_dims = Z.of_nat (length O1 + length O2) ->
    batch_loop batch_dims fuel (O1 ++ O2 ++ O3)
      {| i_index := Z.of_nat (length O1); o_index := Z.of_nat (length O1);
         in_index := A ++ B; indices_index := C ++ D |}
    = ok {| i_index := batch_dims; o_index := batch_dims;
            in_index := A ++ O2 ++ drop (length O2) B;
            indices_index := C ++ O2 ++ drop (length O2) D |}.
Proof.
  induction O2 as [|x O2 IH]; intros O1 O3 A B C D fuel HA HC HB HD Hfuel Hbd.
  - destruct fuel as [|fuel]; [simpl in Hfuel; lia|].
    unfold batch_loop. cbn [while_loop mbind result_bind i_index length] in *.
    rewrite bool_decide_eq_false_2 by lia.
    rewrite Nat.add_0_r in Hbd. subst batch_dims. by rewrite !drop_0.
  - destruct fuel as [|fuel]; [simpl in Hfuel; lia|].
    destruct B as [|b B]; [simpl in HB; lia|].
    destruct D as [|d D]; [simpl in HD; lia|].
    unfold batch_loop. cbn [while_loop length app mbind result_bind i_index o_index in_index indices_index] in *.
    rewrite bool_decide_eq_true_2 by lia. cbn [mbind result_bind].
    rewrite (vec_at_middle O1) by done. cbn [mbind result_bind].
    rewrite (vec_set_middle C) by (cbn; lia). cbn [mbind result_bind].
    rewrite (vec_set_middle A) by (cbn; lia). cbn [mbind result_bind].
    specialize (IH (O1 ++ [x]) O3 (A ++ [x]) B (C ++ [x]) D fuel).
    rewrite !length_app in IH. cbn [length] in IH.
    unfold batch_loop in IH.
    rewrite <- !(assoc_L (++)) in IH. cbn [app] in IH.
    replace (Z.of_nat (length O1 + 1)) with (Z.of_nat (length O1) + 1) in IH by lia.
    rewrite IH by lia. done.
Qed.

Ltac loop_step :=
  cbn [while_loop length app mbind result_bind i_index o_index in_index
       indices_index fst snd] in *.

Lemma indices_coord_loop_spec last (O2 : runtime_shape_t) :
  forall (O1 O3 C D : runtime_shape_t) (fuel : nat) (i : Z) (X : runtime_shape_t),
    length C = length O1 ->
    (length O2 <= length D)%nat ->
    (length O2 < fuel)%nat ->
    last = Z.of_nat (length O1 + length O2) ->
    indices_coord_loop fuel last (O1 ++ O2 ++ O3)
      {| i_index := i; o_index := Z.of_nat (length O1);
         in_index := X; indices_index := C ++ D |}
    = ok {| i_index := i; o_index := last; in_index := X;
            indices_index := C ++ O2 ++ drop (length O2) D |}.
Proof.
  induction O2 as [|x O2 IH]; intros O1 O3 C D fuel i X HC HD Hfuel Hlast;
    (destruct fuel as [|fuel]; [simpl in Hfuel; lia|]); unfold indices_coord_loop.
  - loop_step. rewrite bool_decide_eq_false_2 by lia.
    rewrite Nat.add_0_r in Hlast. subst last. by rewrite drop_0.
  - destruct D as [|d D]; [simpl in HD; lia|]. loop_step.
    rewrite bool_decide_eq_true_2 by lia. loop_step.
    rewrite (vec_at_middle O1) by done. loop_step.
    rewrite (vec_set_middle C) by (cbn; lia). loop_step.
    specialize (IH (O1 ++ [x]) O3 (C ++ [x]) D fuel i X).
    rewrite !length_app in IH. cbn [length] in IH.
    unfold indices_coord_loop in IH.
    rewrite <- !(assoc_L (++)) in IH. cbn [app] in IH.
    replace (Z.of_nat (length O1 + 1)) with (Z.of_nat (length O1) + 1) in IH by lia.
    rewrite IH by lia. done.
Qed.

Lemma buffer_read_middle {A : Type} u (l1 l2 : list A) x k :
  k = Z.of_nat (length l1) -> buffer_read u (l1 ++ x :: l2) k = ok x.
Proof.
  intros ->. unfold buffer_read. rewrite Nat2Z.id.
  by rewrite list_lookup_middle.
Qed.

Lemma index_vector_loop_spec indices_shape last K (V2 : list Z) :
  forall (I0 V1 I3 : list Z) (A B : runtime_shape_t) (fuel : nat) (o : Z)
         (Y : runtime_shape_t),
    indices_shape !! Z.to_nat last = Some K ->
    (length V2 <= length B)%nat ->
    (length V2 < fuel)%nat ->
    K = Z.of_nat (length V1 + length V2) ->
    index_vector_loop (I0 ++ V1 ++ V2 ++ I3) indices_shape fuel last
      (Z.of_nat (length I0))
      (Z.of_nat (length V1),
       {| i_index := Z.of_nat (length A); o_index := o;
          in_index := A ++ B; indices_index := Y |})
    = ok (K, {| i_index := Z.of_nat (length A + length V2); o_index := o;
                in_index := A ++ (int32_to_size_t <$> V2) ++ drop (length V2) B;
                indices_index := Y |}).
Proof.
  induction V2 as [|v V2 IH]; intros I0 V1 I3 A B fuel o Y HK HB Hfuel HKeq;
    (destruct fuel as [|fuel]; [simpl in Hfuel; lia|]); unfold index_vector_loop.
  - loop_step. rewrite (vec_at_Some _ _ _ HK). loop_step.
    rewrite bool_decide_eq_false_2 by lia.
    rewrite !Nat.add_0_r in *. subst K. by rewrite drop_0.
  - destruct B as [|b B]; [simpl in HB; lia|]. loop_step.
    rewrite (vec_at_Some _ _ _ HK). loop_step.
    rewrite bool_decide_eq_true_2 by lia. loop_step.
    rewrite (assoc_L (++) I0 V1). 
    rewrite (buffer_read_middle _ (I0 ++ V1)) by (rewrite length_app; lia).
    rewrite <- (assoc_L (++) I0 V1). loop_step.
    rewrite (vec_set_middle A) by (cbn; lia). loop_step.
    specialize (IH I0 (V1 ++ [v]) I3 (A ++ [int32_to_size_t v]) B fuel o Y HK).
    rewrite !length_app in IH. cbn [length] in IH.
    unfold index_vector_loop in IH.
    rewrite (vec_at_Some _ _ _ HK) in IH. cbn [mbind result_bind] in IH.
    rewrite <- !(assoc_L (++)) in IH. cbn [app] in IH.
    replace (Z.of_nat (length V1 + 1)) with (Z.of_nat (length V1) + 1) in IH by lia.
    replace (Z.of_nat (length A + 1)) with (Z.of_nat (length A) + 1) in IH by lia.
    rewrite IH by lia. cbn [fmap list_fmap app].
    do 3 f_equal. lia.
Qed.

Lemma block_loop_spec (O2 : runtime_shape_t) :
  forall (O1 O3 A B : runtime_shape_t) (fuel : nat) (Y : runtime_shape_t),
    (length O2 <= length B)%nat ->
    (O3 = [] \/ length B = length O2) ->
    (length O2 < fuel)%nat ->
    block_loop fuel (O1 ++ O2 ++ O3)
      {| i_index := Z.of_nat (length A); o_index := Z.of_nat (length O1);
         in_index := A ++ B; indices_index := Y |}
    = ok {| i_index := Z.of_nat (length A + length O2);
            o_index := Z.of_nat (length O1 + length O2);
            in_index := A ++ O2 ++ drop (length O2) B;
            indices_index := Y |}.
Proof.
  induction O2 as [|x O2 IH]; intros O1 O3 A B fuel Y HB Hend Hfuel;
    (destruct fuel as [|fuel]; [simpl in Hfuel; lia|]); unfold block_loop.
  - loop_step. rewrite !Nat.add_0_r, drop_0.
    destruct Hend as [-> | HB0].
    + rewrite app_nil_r, bool_decide_eq_false_2 by lia. done.
    + rewrite (bool_decide_eq_false_2 (_ < Z.of_nat (length (A ++ B))))
        by (rewrite length_app; cbn [length] in HB0; lia).
      by rewrite andb_false_r.
  - destruct B as [|b B]; [simpl in HB; lia|]. loop_step.
    rewrite !bool_decide_eq_true_2 by (rewrite !length_app; cbn [length]; lia).
    loop_step.
    rewrite (vec_at_middle O1) by done. loop_step.
    rewrite (vec_set_middle A) by (cbn; lia). loop_step.
    specialize (IH (O1 ++ [x]) O3 (A ++ [x]) B fuel Y).
    rewrite !length_app in IH. cbn [length] in IH.
    unfold block_loop in IH.
    rewrite <- !(assoc_L (++)) in IH. cbn [app] in IH.
    replace (Z.of_nat (length O1 + 1)) with (Z.of_nat (length O1) + 1) in IH by lia.
    replace (Z.of_nat (length A + 1)) with (Z.of_nat (length A) + 1) in IH by lia.
    rewrite IH; [| lia | | lia].
    + do 2 f_equal; lia.
    + destruct Hend as [-> | HBl]; [by left | right; lia].
Qed.

Lemma size_t_wrap_small z : 0 <= z < size_t_modulus -> size_t_wrap z = z.
Proof. intros H. unfold size_t_wrap. by apply Z.mod_small. Qed.

Lemma gather_nd_in_index_segments
    (O1 O2 O3 O4 : runtime_shape_t) (I0 V I3 : list Z)
    (in_shape indices_shape : runtime_shape_t) (z : nat) :
  length indices_shape = S (length O1 + length O2) ->
  Z.of_nat (length O1 + length O2) < size_t_modulus ->
  indices_shape !! (length O1 + length O2)%nat = Some (Z.of_nat (length V)) ->
  length in_shape = (length O1 + length V + length O3 + z)%nat ->
  (O4 = [] \/ z = 0%nat) ->
  offset (get_default_strides indices_shape) (O1 ++ O2 ++ [0]) = Z.of_nat (length I0) ->
  gather_nd_in_index in_shape (I0 ++ V ++ I3) indices_shape (Z.of_nat (length O1))
    (O1 ++ O2 ++ O3 ++ O4)
  = ok {| i_index := Z.of_nat (length O1 + length V + length O3);
          o_index := Z.of_nat (length O1 + length O2 + length O3);
          in_index := O1 ++ (int32_to_size_t <$> V) ++ O3 ++ replicate z 0;
          indices_index := O1 ++ O2 ++ [0] |}.
Proof.
  intros Hrank Hsmall HK Hin Hend Hbase.
  unfold gather_nd_in_index.
  set (fuel := gather_nd_fuel in_shape indices_shape (O1 ++ O2 ++ O3 ++ O4)).
  assert (Hfuel : (length O1 + length O2 + length O3 + length V < fuel)%nat).
  { unfold fuel, gather_nd_fuel. rewrite !length_app. lia. }
  rewrite Hrank.
  replace (size_t_wrap (Z.of_nat (S (length O1 + length O2)) - 1))
    with (Z.of_nat (length O1 + length O2))
    by (rewrite size_t_wrap_small; lia).
  (* lines 37-42 *)
  pose proof (batch_loop_spec (Z.of_nat (length O1)) O1 [] (O2 ++ O3 ++ O4) []
                (replicate (length in_shape) 0) []
                (replicate (S (length O1 + length O2)) 0) fuel) as H1.
  cbn [app length] in H1. change (Z.of_nat 0) with 0 in H1. rewrite H1; clear H1;
    [| done | done | rewrite length_replicate; lia
     | rewrite length_replicate; lia | lia | done].
  cbn [mbind result_bind]. rewrite !drop_replicate.
  (* lines 43-47 *)
  pose proof (indices_coord_loop_spec (Z.of_nat (length O1 + length O2)) O2 O1
                (O3 ++ O4) O1
                (replicate (S (length O1 + length O2) - length O1) 0) fuel
                (Z.of_nat (length O1))
                (O1 ++ replicate (length in_shape - length O1) 0)) as H2.
  rewrite H2; clear H2; [| done | rewrite length_replicate; lia | lia | done].
  cbn [mbind result_bind indices_index]. rewrite drop_replicate.
  replace (S (length O1 + length O2) - length O1 - length O2)%nat with 1%nat by lia.
  cbn [replicate]. rewrite Hbase.
  (* lines 50-54 *)
  pose proof (index_vector_loop_spec indices_shape (Z.of_nat (length O1 + length O2))
                (Z.of_nat (length V)) V I0 [] I3 O1
                (replicate (length in_shape - length O1) 0) fuel
                (Z.of_nat (length O1 + length O2)) (O1 ++ O2 ++ [0])) as H3.
  cbn [app length] in H3. change (Z.of_nat 0) with 0 in H3. rewrite H3; clear H3;
    [| by rewrite Nat2Z.id | rewrite length_replicate; lia | lia | done].
  cbn [mbind result_bind snd]. rewrite drop_replicate.
  (* lines 59-62 *)
  pose proof (block_loop_spec O3 (O1 ++ O2) O4 (O1 ++ (int32_to_size_t <$> V))
                (replicate (length in_shape - length O1 - length V) 0) fuel
                (O1 ++ O2 ++ [0])) as H4.
  rewrite !length_app, length_fmap, <- !(assoc_L (++)) in H4.
  rewrite H4; clear H4;
    [| rewrite length_replicate; lia
     | destruct Hend as [-> | ->]; [by left | right; rewrite length_replicate; lia]
     | lia].
  rewrite drop_replicate.
  replace (length in_shape - length O1 - length V - length O3)%nat with z by lia.
  done.
Qed.

(** The input index in terms of positions of the output index. *)
Lemma gather_nd_in_index_spec
    (in_shape : runtime_shape_t) (indices : list Z) (indices_shape : runtime_shape_t)
    (batch_dims : Z) (out_index : runtime_shape_t) (bd last K : nat) :
  let indices_begin :=
    offset (get_default_strides indices_shape) (take last out_index ++ [0]) in
  let block := Nat.min (length out_index - last) (length in_shape - bd - K) in
  length indices_shape = S last ->
  Z.of_nat last < size_t_modulus ->
  indices_shape !! last = Some (Z.of_nat K) ->
  batch_dims = Z.of_nat bd ->
  (bd <= last <= length out_index)%nat ->
  (bd + K <= length in_shape)%nat ->
  (Z.to_nat indices_begin + K <= length indices)%nat ->
  gather_nd_in_index in_shape indices indices_shape batch_dims out_index
  = ok {| i_index := Z.of_nat (bd + K + block);
          o_index := Z.of_nat (last + block);
          in_index :=
            take bd out_index
            ++ (int32_to_size_t <$> take K (drop (Z.to_nat indices_begin) indices))
            ++ take block (drop last out_index)
            ++ replicate (length in_shape - bd - K - block) 0;
          indices_index := take last out_index ++ [0] |}.
Proof.
  intros indices_begin block Hrank Hsmall HK -> Hbd Hin Hind.
  set (O1 := take bd out_index).
  set (O2 := take (last - bd) (drop bd out_index)).
  set (O3 := take block (drop last out_index)).
  set (O4 := drop block (drop last out_index)).
  set (I0 := take (Z.to_nat indices_begin) indices).
  set (V := take K (drop (Z.to_nat indices_begin) indices)).
  set (I3 := drop K (drop (Z.to_nat indices_begin) indices)).
  assert (HO1 : length O1 = bd) by (unfold O1; rewrite length_take; lia).
  assert (HO2 : length O2 = (last - bd)%nat)
    by (unfold O2; rewrite length_take, length_drop; lia).
  assert (HO3 : length O3 = block)
    by (unfold O3; rewrite length_take, length_drop; unfold block; lia).
  assert (HV : length V = K) by (unfold V; rewrite length_take, length_drop; lia).
  assert (HI0 : length I0 = Z.to_nat indices_begin)
    by (unfold I0; rewrite length_take; lia).
  assert (Hout12 : take last out_index = O1 ++ O2).
  { unfold O1, O2. rewrite take_take_drop. f_equal. lia. }
  assert (Hout : out_index = O1 ++ O2 ++ O3 ++ O4).
  { rewrite (assoc_L (++) O1 O2), <- Hout12. unfold O3, O4.
    by rewrite !take_drop. }
  assert (Hindices : indices = I0 ++ V ++ I3).
  { unfold I0, V, I3. by rewrite !take_drop. }
  assert (Hbegin_nonneg : 0 <= indices_begin).
  { unfold indices_begin, offset, size_t_wrap, size_t_modulus.
    apply Z.mod_pos_bound. lia. }
  pose proof (gather_nd_in_index_segments O1 O2 O3 O4 I0 V I3 in_shape indices_shape
                (length in_shape - bd - K - block)) as H.
  rewrite HO1, HO2, HO3, HV, HI0, <- Hout, <- Hindices in H.
  replace (bd + (last - bd))%nat with last in H by lia.
  rewrite Hout12, <- (assoc_L (++)). apply H; try done; try (unfold block; lia).
  - destruct (decide (length out_index - last <= length in_shape - bd - K)%nat).
    + left. unfold O4. apply drop_ge. rewrite length_drop. unfold block. lia.
    + right. unfold block. lia.
  - fold indices_begin in Hbegin_nonneg.
    rewrite (assoc_L (++) O1 O2), <- Hout12. fold indices_begin. lia.
Qed.

Lemma all_indices_length (shape index : runtime_shape_t) :
  index ∈ all_indices shape -> length index = length shape.
Proof.
  revert index. induction shape as [|d shape IH]; intros index Hin; cbn in Hin.
  - apply list_elem_of_singleton in Hin. by subst.
  - apply list_elem_of_bind in Hin as (i & Hin & _).
    apply list_elem_of_fmap in Hin as (index' & -> & Hin).
    cbn. f_equal. by apply IH.
Qed.

Lemma apply_indices_ext {S : Type} (l : list runtime_shape_t)
    (f g : runtime_shape_t -> S -> result S) (s : S) :
  Forall (fun index => forall s, f index s = g index s) l ->
  apply_indices l f s = apply_indices l g s.
Proof.
  intros H. revert s. induction H as [|index l Hfg _ IH]; intros s; cbn; [done|].
  rewrite Hfg. destruct (g index s); cbn; auto.
Qed.

(** C2.  For every output index of a Gather-ND call the input index is
    built in three zones: output axes [0, batch_dims) go to both the
    indices-tensor coordinate and the input index; output axes
    [batch_dims, last) go to the indices-tensor coordinate only; the last
    axis of the indices tensor is read as a vector of [K] integers, the
    next coordinates of the input index; the trailing output axes are
    copied into the input axes that remain.  One scalar,
    [input[computed index]], is written at the output position: the kernel
    is the per-index gather of the specification, run over all indices of
    the output shape.  [bd] is [batch_dims], [last] the last axis of the
    indices tensor and [K] its size. *)
Theorem gather_nd_three_zones {T : Type} (input output : list T)
    (in_shape out_shape in_strides out_strides : runtime_shape_t)
    (indices : list Z) (indices_shape : runtime_shape_t) (bd last K : nat) :
  length indices_shape = S last ->
  Z.of_nat last < size_t_modulus ->
  indices_shape !! last = Some (Z.of_nat K) ->
  (bd <= last <= length out_shape)%nat ->
  (bd + K <= length in_shape)%nat ->
  Forall (indices_rows_in_range indices indices_shape last K) (all_indices out_shape) ->
  Forall (fun out_index =>
            exists i o,
              gather_nd_in_index in_shape indices indices_shape (Z.of_nat bd) out_index
              = ok {| i_index := i; o_index := o;
                      in_index :=
                        spec_input_index in_shape indices indices_shape bd last K out_index;
                      indices_index := spec_indices_coordinate last out_index |})
         (all_indices out_shape)
  /\ gather_nd_impl input in_shape out_shape in_strides out_strides indices
       indices_shape (Z.of_nat bd) output
     = apply out_shape
         (spec_gather_one input in_shape in_strides out_strides indices indices_shape
            bd last K)
         output.
Proof.
  intros Hrank Hsmall HK Hbd Hin Hrows.
  assert (Hidx : Forall (fun out_index =>
    gather_nd_in_index in_shape indices indices_shape (Z.of_nat bd) out_index
    = ok {| i_index := Z.of_nat (bd + K + spec_block_rank in_shape bd last K out_index);
            o_index := Z.of_nat (last + spec_block_rank in_shape bd last K out_index);
            in_index :=
              spec_input_index in_shape indices indices_shape bd last K out_index;
            indices_index := spec_indices_coordinate last out_index |})
    (all_indices out_shape)).
  { apply Forall_forall. intros out_index Hmem.
    rewrite Forall_forall in Hrows. specialize (Hrows _ Hmem).
    apply all_indices_length in Hmem.
    apply gather_nd_in_index_spec; first [done | lia | exact Hrows]. }
  split.
  - eapply Forall_impl; [exact Hidx|]. cbn. eauto.
  - unfold gather_nd_impl, apply. apply apply_indices_ext.
    eapply Forall_impl; [exact Hidx|]. cbn. intros out_index Hix out.
    unfold gather_nd_callable, spec_gather_one. rewrite Hix. cbn.
    unfold buffer_read.
    destruct (input !! _); cbn; [|done]. done.
Qed.

(** ** Failures: the kernel has no failing path *)

Definition is_err {A : Type} (r : result A) : bool :=
  match r with err _ => true | _ => false end.

Lemma bind_not_err {A B : Type} (r : result A) (f : A -> result B) :
  is_err r = false -> (forall a, is_err (f a) = false) -> is_err (r ≫= f) = false.
Proof. destruct r; cbn; auto. Qed.

Lemma while_loop_not_err {S : Type} (cond : S -> result bool) (body : S -> result S) :
  (forall s, is_err (cond s) = false) ->
  (forall s, is_err (body s) = false) ->
  forall fuel s, is_err (while_loop fuel cond body s) = false.
Proof.
  intros Hc Hb. induction fuel as [|fuel IH]; intros s; cbn; [done|].
  apply bind_not_err; [done|]. intros [|]; [|done].
  apply bind_not_err; [done|]. apply IH.
Qed.

Lemma vec_at_not_err v i : is_err (vec_at v i) = false.
Proof. unfold vec_at. by case_match. Qed.
Lemma vec_set_not_err v i x : is_err (vec_set v i x) = false.
Proof. unfold vec_set. by case_bool_decide. Qed.
Lemma buffer_read_not_err {A : Type} u (buf : list A) pos :
  is_err (buffer_read u buf pos) = false.
Proof. unfold buffer_read. by case_match. Qed.
Lemma buffer_write_not_err {T : Type} (output : list T) pos x :
  is_err (buffer_write output pos x) = false.
Proof. unfold buffer_write. by case_bool_decide. Qed.

Ltac not_err :=
  repeat first
    [ done
    | apply vec_at_not_err | apply vec_set_not_err
    | apply buffer_read_not_err | apply buffer_write_not_err
    | apply bind_not_err; [|intros ?]
    | apply while_loop_not_err; intros ?
    | match goal with |- context [let '(_, _) := ?s in _] => destruct s end ].

Lemma gather_nd_in_index_not_err in_shape indices indices_shape batch_dims out_index :
  is_err (gather_nd_in_index in_shape indices indices_shape batch_dims out_index) = false.
Proof.
  unfold gather_nd_in_index, batch_loop, indices_coord_loop, index_vector_loop,
    block_loop.
  not_err; repeat case_match; not_err.
Qed.

Lemma gather_nd_callable_not_err {T : Type} (input : list T) in_shape in_strides
    out_strides indices indices_shape batch_dims out_index output :
  is_err (gather_nd_callable input in_shape in_strides out_strides indices
            indices_shape batch_dims out_index output) = false.
Proof.
  unfold gather_nd_callable.
  apply bind_not_err; [apply gather_nd_in_index_not_err|]. intros st. not_err.
Qed.

Lemma apply_indices_not_err {S : Type} (l : list runtime_shape_t)
    (f : runtime_shape_t -> S -> result S) :
  (forall index s, is_err (f index s) = false) ->
  forall s, is_err (apply_indices l f s) = false.
Proof.
  intros Hf. induction l as [|index l IH]; intros s; cbn; [done|].
  apply bind_not_err; auto.
Qed.

(** C4, as amended.  The Gather-ND kernel checks no index value: no call
    returns a failure, and for each output index the element is read at
    [offset(in_strides, in_index)] with the index values as they are;
    where that offset lies outside the input buffer the read is out of
    range. *)
Theorem gather_nd_never_reports_failure {T : Type} (input output : list T)
    (in_shape out_shape in_strides out_strides : runtime_shape_t)
    (indices : list Z) (indices_shape : runtime_shape_t) (batch_dims : Z) :
  (forall e,
      gather_nd_impl input in_shape out_shape in_strides out_strides indices
        indices_shape batch_dims output <> err e)
  /\ (forall out_index st,
        gather_nd_in_index in_shape indices indices_shape batch_dims out_index = ok st ->
        gather_nd_callable input in_shape in_strides out_strides indices
          indices_shape batch_dims out_index output
        = match input !! Z.to_nat (offset in_strides (in_index st)) with
          | Some x => buffer_write output (offset out_strides out_index) x
          | None => undefined input_read_out_of_range
          end).
Proof.
  split.
  - intros e He.
    pose proof (apply_indices_not_err (all_indices out_shape)
                  (gather_nd_callable input in_shape in_strides out_strides indices
                     indices_shape batch_dims)
                  (fun index s => gather_nd_callable_not_err _ _ _ _ _ _ _ index s)
                  output) as H.
    unfold gather_nd_impl, apply in He. by rewrite He in H.
  - intros out_index st Hst. unfold gather_nd_callable. rewrite Hst. cbn.
    unfold buffer_read. by case_match.
Qed.

(** ** The loops of the model are given enough fuel *)

Definition is_out_of_fuel {A : Type} (r : result A) : bool :=
  match r with out_of_fuel => true | _ => false end.

Lemma while_loop_terminates {S : Type} (P : S -> Prop) (m : S -> nat)
    (cond : S -> result bool) (body : S -> result S) (fuel : nat) (s : S) :
  (forall s, is_out_of_fuel (cond s) = false) ->
  (forall s, is_out_of_fuel (body s) = false) ->
  (forall s s', P s -> body s = ok s' -> P s' /\ (m s' < m s)%nat) ->
  P s -> (m s < fuel)%nat ->
  is_out_of_fuel (while_loop fuel cond body s) = false
  /\ (forall s', while_loop fuel cond body s = ok s' -> P s').
Proof.
  intros Hc Hb Hstep. revert s.
  induction fuel as [|fuel IH]; intros s HP Hm; [lia|].
  cbn. specialize (Hc s). destruct (cond s) as [[|]| | |]; cbn; try done.
  - specialize (Hb s). specialize (Hstep s).
    destruct (body s) as [s'| | |]; cbn; try done.
    destruct (Hstep s' HP eq_refl) as [HP' Hm']. apply IH; [done | lia].
  - split; [done|]. by intros s' [= <-].
Qed.

Definition locals_inv (n_in r : nat) (st : gather_nd_locals) : Prop :=
  0 <= i_index st /\ 0 <= o_index st
  /\ length (in_index st) = n_in /\ length (indices_index st) = r.

Lemma vec_set_ok v i x v' :
  vec_set v i x = ok v' -> (Z.to_nat i < length v)%nat /\ length v' = length v.
Proof.
  unfold vec_set. case_bool_decide; [|done]. intros [= <-].
  by rewrite length_insert.
Qed.

Ltac bind_ok H :=
  repeat match type of H with
  | (?r ≫= _) = ok _ =>
      let E := fresh "E" in destruct r eqn:E; cbn [mbind result_bind] in H;
      [|discriminate H ..]
  end.

Ltac not_out_of_fuel :=
  unfold vec_at, vec_set, buffer_read, buffer_write;
  cbn [mbind result_bind]; repeat (case_match; cbn [mbind result_bind]); done.

Lemma gather_nd_in_index_fuel in_shape indices indices_shape batch_dims out_index :
  is_out_of_fuel
    (gather_nd_in_index in_shape indices indices_shape batch_dims out_index) = false.
Proof.
  unfold gather_nd_in_index.
  set (fuel := gather_nd_fuel in_shape indices_shape out_index).
  set (n_in := length in_shape). set (r := length indices_shape).
  set (P := locals_inv n_in r).
  assert (Hfuel : (n_in < fuel)%nat /\ (r < fuel)%nat)
    by (unfold fuel, gather_nd_fuel; lia).
  match goal with |- context [batch_loop _ _ _ ?s] => set (st0 := s) end.
  assert (P0 : P st0) by (repeat split; cbn; try done; apply length_replicate).
  (* lines 37-42 *)
  destruct (while_loop_terminates P
              (fun st => (n_in - Z.to_nat (i_index st))%nat)
              (fun st => ok (bool_decide (i_index st < batch_dims)))
              (fun st =>
                 v ← vec_at out_index (o_index st);
                 indices_index' ← vec_set (indices_index st) (i_index st) v;
                 v' ← vec_at out_index (o_index st);
                 in_index' ← vec_set (in_index st) (i_index st) v';
                 ok {| i_index := i_index st + 1; o_index := o_index st + 1;
                       in_index := in_index'; indices_index := indices_index' |})
              fuel st0)
    as [F1 I1] ; [done | intros; not_out_of_fuel | | exact P0 | cbn; lia |].
  { intros s s' (Hi & Ho & Hl1 & Hl2) Hb. bind_ok Hb. injection Hb as <-.
    match goal with H : vec_set (in_index _) _ _ = _ |- _ =>
      apply vec_set_ok in H as [? ?] end.
    match goal with H : vec_set (indices_index _) _ _ = _ |- _ =>
      apply vec_set_ok in H as [? ?] end.
    unfold P, locals_inv. cbn. repeat split; lia. }
  fold (batch_loop batch_dims fuel out_index st0) in F1, I1.
  destruct (batch_loop batch_dims fuel out_index st0) as [st1| | |];
    cbn [mbind result_bind]; try done.
  specialize (I1 st1 eq_refl).
  (* lines 43-47 *)
  set (last := size_t_wrap (Z.of_nat r - 1)).
  destruct (while_loop_terminates P
              (fun st => (r - Z.to_nat (o_index st))%nat)
              (fun st => ok (bool_decide (o_index st < last)))
              (fun st =>
                 v ← vec_at out_index (o_index st);
                 indices_index' ← vec_set (indices_index st) (o_index st) v;
                 ok {| i_index := i_index st; o_index := o_index st + 1;
                       in_index := in_index st; indices_index := indices_index' |})
              fuel st1)
    as [F2 I2] ; [done | intros; not_out_of_fuel | | exact I1 | lia |].
  { intros s s' (Hi & Ho & Hl1 & Hl2) Hb. bind_ok Hb. injection Hb as <-.
    match goal with H : vec_set (indices_index _) _ _ = _ |- _ =>
      apply vec_set_ok in H as [? ?] end.
    unfold P, locals_inv. cbn. repeat split; lia. }
  fold (indices_coord_loop fuel last out_index st1) in F2, I2.
  destruct (indices_coord_loop fuel last out_index st1) as [st2| | |];
    cbn [mbind result_bind]; try done.
  specialize (I2 st2 eq_refl).
  (* lines 50-54 *)
  set (indices_begin := offset _ _).
  destruct (while_loop_terminates (fun ist : Z * gather_nd_locals => P ist.2)
              (fun ist => (n_in - Z.to_nat (i_index ist.2))%nat)
              (fun '(i, st) =>
                 bound ← vec_at indices_shape last;
                 ok (bool_decide (i < bound)))
              (fun '(i, st) =>
                 v ← buffer_read indices_read_out_of_range indices (indices_begin + i);
                 in_index' ← vec_set (in_index st) (i_index st) (int32_to_size_t v);
                 ok (i + 1,
                     {| i_index := i_index st + 1; o_index := o_index st;
                        in_index := in_index'; indices_index := indices_index st |}))
              fuel (0, st2))
    as [F3 I3] ;
    [intros []; not_out_of_fuel | intros []; not_out_of_fuel | | exact I2 | cbn; lia |].
  { intros [i s] [i' s'] (Hi & Ho & Hl1 & Hl2) Hb. cbn in *. bind_ok Hb.
    injection Hb as <- <-.
    match goal with H : vec_set (in_index _) _ _ = _ |- _ =>
      apply vec_set_ok in H as [? ?] end.
    unfold P, locals_inv. cbn. repeat split; lia. }
  fold (index_vector_loop indices indices_shape fuel last indices_begin (0, st2))
    in F3, I3.
  destruct (index_vector_loop indices indices_shape fuel last indices_begin (0, st2))
    as [[i3 st3]| | |]; cbn [mbind result_bind]; try done.
  specialize (I3 _ eq_refl). cbn in I3. cbn [snd].
  (* lines 59-62 *)
  destruct (while_loop_terminates P
              (fun st => (n_in - Z.to_nat (i_index st))%nat)
              (fun st => ok (bool_decide (o_index st < Z.of_nat (length out_index))
                     && bool_decide (i_index st < Z.of_nat (length (in_index st)))))
              (fun st =>
                 v ← vec_at out_index (o_index st);
                 in_index' ← vec_set (in_index st) (i_index st) v;
                 ok {| i_index := i_index st + 1; o_index := o_index st + 1;
                       in_index := in_index'; indices_index := indices_index st |})
              fuel st3)
    as [F4 _] ; [done | intros; not_out_of_fuel | | exact I3 | lia |].
  { intros s s' (Hi & Ho & Hl1 & Hl2) Hb. bind_ok Hb. injection Hb as <-.
    match goal with H : vec_set (in_index _) _ _ = _ |- _ =>
      apply vec_set_ok in H as [? ?] end.
    unfold P, locals_inv. cbn. repeat split; lia. }
  exact F4.
Qed.

Lemma apply_indices_fuel {S : Type} (l : list runtime_shape_t)
    (f : runtime_shape_t -> S -> result S) :
  (forall index s, is_out_of_fuel (f index s) = false) ->
  forall s, is_out_of_fuel (apply_indices l f s) = false.
Proof.
  intros Hf. induction l as [|index l IH]; intros s; cbn; [done|].
  specialize (Hf index s). destruct (f index s); cbn; auto.
Qed.

(** Whatever the arguments, the fuel given to the loops of the model is
    enough: the kernel returns, or its behaviour is undefined. *)
Lemma gather_nd_impl_fuel {T : Type} (input output : list T)
    in_shape out_shape in_strides out_strides indices indices_shape batch_dims :
  gather_nd_impl input in_shape out_shape in_strides out_strides indices
    indices_shape batch_dims output <> out_of_fuel.
Proof.
  intros H.
  assert (F : is_out_of_fuel
                (gather_nd_impl input in_shape out_shape in_strides out_strides
                   indices indices_shape batch_dims output) = false);
    [|by rewrite H in F].
  apply apply_indices_fuel. intros index s. unfold gather_nd_callable.
  pose proof (gather_nd_in_index_fuel in_shape indices indices_shape batch_dims index).
  destruct (gather_nd_in_index _ _ _ _ _); cbn [mbind result_bind]; try done.
  not_out_of_fuel.
Qed.

(** ** Default strides of the indices tensor *)

Lemma offset_sum_default_last (shape c : runtime_shape_t) (i : Z) :
  length shape = S (length c) ->
  offset_sum (get_default_strides shape) (c ++ [i])
  = offset_sum (get_default_strides shape) (c ++ [0]) + i.
Proof.
  revert shape. induction c as [|x c IH]; intros [|d shape] Hlen; try done.
  - destruct shape; [|done]. cbn. lia.
  - cbn in Hlen. cbn. rewrite IH by lia. lia.
Qed.

Lemma offset_default_last (shape c : runtime_shape_t) (i : Z) :
  length shape = S (length c) ->
  0 <= i ->
  offset (get_default_strides shape) (c ++ [0]) + i < size_t_modulus ->
  offset (get_default_strides shape) (c ++ [i])
  = offset (get_default_strides shape) (c ++ [0]) + i.
Proof.
  intros Hlen Hi Hsmall. unfold offset, size_t_wrap in *.
  rewrite offset_sum_default_last by done.
  rewrite Z.add_mod by (unfold size_t_modulus; lia).
  pose proof (Z.mod_pos_bound
                (offset_sum (get_default_strides shape) (c ++ [0])) size_t_modulus
                ltac:(unfold size_t_modulus; lia)).
  rewrite (Z.mod_small i) by lia. apply Z.mod_small. lia.
Qed.

(** C10.  Gather-ND reads the indices tensor through the default
    (row-major) strides of [indices_shape] alone: the i-th coordinate
    gathered for an output index is the element of the indices buffer at
    [offset(get_default_strides(indices_shape), c)], for the coordinate
    [c] made of the leading output axes and [i] on the last axis.  The
    kernel takes no strides for the indices tensor, whereas the input is
    read and the output written through the strides of the caller. *)
Theorem gather_nd_indices_default_strides
    (in_shape : runtime_shape_t) (indices : list Z) (indices_shape : runtime_shape_t)
    (out_index : runtime_shape_t) (bd last K : nat) :
  length indices_shape = S last ->
  Z.of_nat last < size_t_modulus ->
  indices_shape !! last = Some (Z.of_nat K) ->
  (bd <= last <= length out_index)%nat ->
  (bd + K <= length in_shape)%nat ->
  indices_rows_in_range indices indices_shape last K out_index ->
  Z.of_nat (length indices) <= size_t_modulus ->
  exists st,
    gather_nd_in_index in_shape indices indices_shape (Z.of_nat bd) out_index = ok st
    /\ (forall i : nat, (i < K)%nat ->
          in_index st !! (bd + i)%nat
          = int32_to_size_t <$>
              indices !! Z.to_nat (offset (get_default_strides indices_shape)
                                     (take last out_index ++ [Z.of_nat i])))
    /\ (forall (T : Type) (input output : list T)
               (in_strides out_strides : runtime_shape_t),
          gather_nd_callable input in_shape in_strides out_strides indices
            indices_shape (Z.of_nat bd) out_index output
          = x ← buffer_read input_read_out_of_range input
                  (offset in_strides (in_index st));
            buffer_write output (offset out_strides out_index) x).
Proof.
  intros Hrank Hsmall HK Hbd Hin Hrows Hbuf.
  eexists. split; [|split].
  { apply (gather_nd_in_index_spec in_shape indices indices_shape (Z.of_nat bd)
             out_index bd last K); first [done | lia | exact Hrows]. }
  2: { intros T input output in_strides out_strides. unfold gather_nd_callable.
       by rewrite (gather_nd_in_index_spec in_shape indices indices_shape
                     (Z.of_nat bd) out_index bd last K)
         by first [done | lia | exact Hrows]. }
  intros i Hi. cbn [in_index].
  unfold indices_rows_in_range, spec_indices_coordinate in Hrows.
  set (begin := offset (get_default_strides indices_shape) (take last out_index ++ [0]))
    in *.
  assert (0 <= begin).
  { unfold begin, offset, size_t_wrap. apply Z.mod_pos_bound.
    unfold size_t_modulus. lia. }
  rewrite lookup_app_r by (rewrite length_take; lia).
  rewrite length_take.
  replace (bd + i - bd `min` length out_index)%nat with i by lia.
  rewrite lookup_app_l by (rewrite length_fmap, length_take, length_drop; lia).
  rewrite list_lookup_fmap, lookup_take_lt, lookup_drop by lia.
  rewrite offset_default_last;
    [| rewrite length_take; lia | lia | fold begin; lia].
  fold begin. do 2 f_equal. lia.
Qed.

(** C3.  Gather-ND of the 2x2 input [[1,2],[3,4]] with indices [[1],[0]]
    of shape [2,1], batch_dims = 0, default strides and output shape
    [2,2] gives [[3,4],[1,2]], whatever the output held before. *)
Theorem gather_nd_2x2_example (o0 o1 o2 o3 : Z) :
  gather_nd_impl [1; 2; 3; 4] [2; 2] [2; 2] (get_default_strides [2; 2])
    (get_default_strides [2; 2]) [1; 0] [2; 1] 0 [o0; o1; o2; o3]
  = ok [3; 4; 1; 2].
Proof. vm_compute. reflexivity. Qed.

(** The same indices laid out with a row stride of 2 (one padding element,
    here 1, after each row) are read as if they were contiguous: the
    second row is taken from the padding. *)
Example gather_nd_strided_indices :
  gather_nd_impl [1; 2; 3; 4] [2; 2] [2; 2] [2; 1] [2; 1] [1; 1; 0; 1] [2; 1] 0
    [0; 0; 0; 0]
  = ok [3; 4; 3; 4].
Proof. vm_compute. reflexivity. Qed.

(** Index values out of bounds of their input dimension, and no failure:
    on a 2x2 input the index tuple (0, 2) returns [ok], with the element
    at offset 2 (that of input index (1, 0)); the index rows [[5], [0]]
    make the kernel read the input at offset 10. *)
Lemma gather_nd_out_of_bounds_index_unreported :
  (index_vector_in_bounds [2; 2] 0 (spec_index_vector [0; 2] [1; 2] 1 2 [0]) = false
   /\ gather_nd_impl [1; 2; 3; 4] [2; 2] [1] [2; 1] [1] [0; 2] [1; 2] 0 [0] = ok [3])
  /\ (index_vector_in_bounds [2; 2] 0 (spec_index_vector [5; 0] [2; 1] 1 1 [0; 0]) = false
      /\ gather_nd_impl [1; 2; 3; 4] [2; 2] [2; 2] [2; 1] [2; 1] [5; 0] [2; 1] 0
           [0; 0; 0; 0]
         = undefined input_read_out_of_range).
Proof. vm_compute. repeat split. Qed.

Lemma gather_nd_never_reports_failure_witness :
  gather_nd_callable [1; 2; 3; 4] [2; 2] [2; 1] [2; 1] [5; 0] [2; 1] 0 [0; 0]
    [0; 0; 0; 0]
  = undefined input_read_out_of_range.
Proof.
  apply (proj2 (gather_nd_never_reports_failure [1; 2; 3; 4] [0; 0; 0; 0] [2; 2]
                  [2; 2] [2; 1] [2; 1] [5; 0] [2; 1] 0)
           [0; 0]
           {| i_index := 2; o_index := 2; in_index := [5; 0];
              indices_index := [0; 0] |}).
  vm_compute. reflexivity.
Defined.

Lemma gather_nd_three_zones_witness :
  Forall (fun out_index =>
            exists i o,
              gather_nd_in_index [2; 2] [1; 0] [2; 1] 0 out_index
              = ok {| i_index := i; o_index := o;
                      in_index := spec_input_index [2; 2] [1; 0] [2; 1] 0 1 1 out_index;
                      indices_index := spec_indices_coordinate 1 out_index |})
         (all_indices [2; 2])
  /\ gather_nd_impl [1; 2; 3; 4] [2; 2] [2; 2] [2; 1] [2; 1] [1; 0] [2; 1] 0
       [0; 0; 0; 0]
     = apply [2; 2] (spec_gather_one [1; 2; 3; 4] [2; 2] [2; 1] [2; 1] [1; 0] [2; 1] 0 1 1)
         [0; 0; 0; 0].
Proof.
  apply (gather_nd_three_zones [1; 2; 3; 4] [0; 0; 0; 0] [2; 2] [2; 2] [2; 1] [2; 1]
           [1; 0] [2; 1] 0 1 1).
  - reflexivity.
  - reflexivity.
  - reflexivity.
  - simpl. lia.
  - simpl. lia.
  - change (all_indices [2; 2]) with [[0; 0]; [0; 1]; [1; 0]; [1; 1]].
    repeat (constructor; [unfold indices_rows_in_range; vm_compute; lia|]).
    constructor.
Defined.

Lemma gather_nd_indices_default_strides_witness :
  exists st,
    gather_nd_in_index [2; 2] [1; 0] [2; 1] 0 [1; 1] = ok st
    /\ (forall i : nat, (i < 1)%nat ->
          in_index st !! (0 + i)%nat
          = int32_to_size_t <$>
              [1; 0] !! Z.to_nat (offset (get_default_strides [2; 1])
                                    (take 1 [1; 1] ++ [Z.of_nat i])))
    /\ (forall (T : Type) (input output : list T)
               (in_strides out_strides : runtime_shape_t),
          gather_nd_callable input [2; 2] in_strides out_strides [1; 0] [2; 1] 0
            [1; 1] output
          = x ← buffer_read input_read_out_of_range input
                  (offset in_strides (in_index st));
            buffer_write output (offset out_strides [1; 1]) x).
Proof.
  apply (gather_nd_indices_default_strides [2; 2] [1; 0] [2; 1] [1; 1] 0 1 1).
  - reflexivity.
  - reflexivity.
  - reflexivity.
  - simpl. lia.
  - simpl. lia.
  - unfold indices_rows_in_range. vm_compute. repeat constructor.
  - vm_compute. discriminate.
Defined.


(** * The evaluator *)

Lemma memory_at_bound ctx c t :
  allocations ctx !! conn_id c = Some t -> memory_at ctx c = Normal t.
Proof. intros H. unfold memory_at. by rewrite H. Qed.

Lemma input_at_Some n i c : inputs n !! i = Some c -> input_at n i = Normal c.
Proof. intros H. unfold input_at. by rewrite H. Qed.

Lemma output_at_Some n i c : outputs n !! i = Some c -> output_at n i = Normal c.
Proof. intros H. unfold output_at. by rewrite H. Qed.

Lemma evaluate_app_normal (env : environment) (pre post : list node) ctx0 ctx1 :
  evaluate env pre ctx0 = (pre, Normal ctx1) ->
  evaluate env (pre ++ post) ctx0
  = let '(visited, r) := evaluate env post ctx1 in (pre ++ visited, r).
Proof.
  revert ctx0. induction pre as [|n pre IH]; intros ctx0 H; cbn [evaluate app] in *.
  - injection H as ->. by destruct (evaluate env post ctx1).
  - destruct (get_evaluator (runtime_opcode n)) as [f|]; [|done].
    destruct (f env n ctx0) as [ctx'| | |]; try done.
    destruct (evaluate env pre ctx') as [visited r] eqn:E.
    injection H as -> ->. rewrite (IH ctx' E).
    by destruct (evaluate env post ctx1).
Qed.

Lemma evaluate_stops (env : environment) (n : node) (post : list node) f ctx r :
  get_evaluator (runtime_opcode n) = Some f ->
  f env n ctx = r ->
  (forall ctx', r <> Normal ctx') ->
  evaluate env (n :: post) ctx = ([n], r).
Proof.
  intros Hf Hr Hfail. cbn [evaluate]. rewrite Hf, Hr.
  destruct r; try done. by destruct (Hfail a).
Qed.

(** C9.  For input, output, ignore and constant nodes the registered
    evaluator is [nop_evaluator], which returns the context (bindings and
    memory) as it received it. *)
Theorem nop_evaluator_no_effect (env : environment) (n : node)
    (ctx : module_evaluate_context) :
  runtime_opcode n ∈ [op_input_node; op_output_node; op_ignore_node; op_constant] ->
  get_evaluator (runtime_opcode n) = Some nop_evaluator
  /\ nop_evaluator env n ctx = Normal ctx.
Proof.
  intros Hop. split; [|reflexivity].
  repeat (apply elem_of_cons in Hop as [-> | Hop]; [reflexivity|]).
  by apply elem_of_nil in Hop.
Qed.

(** An unsupported unary operator throws, in every build. *)
Lemma unary_unsupported_throws (env : environment) (n : node)
    (ctx : module_evaluate_context) input_c output_c op :
  inputs n !! 0%nat = Some input_c -> outputs n !! 0%nat = Some output_c ->
  conn_type input_c = dt_float32 ->
  is_Some (allocations ctx !! conn_id input_c) ->
  is_Some (allocations ctx !! conn_id output_c) ->
  attributes n = attr_unary op -> unary_function env op = None ->
  unary_evaluator env n ctx = Throw (runtime_error "Not supported unary").
Proof.
  intros Hin Hout Htype [input Hi] [output Ho] Hattr Hop.
  unfold unary_evaluator.
  rewrite Hattr, Hop, (input_at_Some _ _ _ Hin), (output_at_Some _ _ _ Hout).
  cbn [mbind outcome_bind].
  rewrite (memory_at_bound _ _ _ Hi), (memory_at_bound _ _ _ Ho).
  unfold assert_, is_type. rewrite Htype, bool_decide_eq_true_2 by done.
  by destruct (NDEBUG env).
Qed.

(** With assertions compiled in, an unsupported dequantize trips the
    [assert] of the [default] case. *)
Lemma dequantize_unsupported_asserts (env : environment) (n : node)
    (ctx : module_evaluate_context) input_c output_c :
  inputs n !! 0%nat = Some input_c -> outputs n !! 0%nat = Some output_c ->
  is_Some (allocations ctx !! conn_id output_c) ->
  dequantize_supported (conn_type input_c) = false ->
  NDEBUG env = false ->
  dequantize_evaluator env n ctx = AssertionFailure "false && not supported type!".
Proof.
  intros Hin Hout [output Hbound] Htype Hdebug.
  unfold dequantize_evaluator.
  rewrite (input_at_Some _ _ _ Hin), (output_at_Some _ _ _ Hout).
  cbn [mbind outcome_bind]. rewrite (memory_at_bound _ _ _ Hbound).
  unfold assert_. rewrite Hdebug. cbn [mbind outcome_bind].
  by destruct (conn_type input_c).
Qed.

(** Where [NDEBUG] removes the [assert], the closure of an unsupported
    dequantize returns without having written anything. *)
Lemma dequantize_unsupported_ndebug (env : environment) (n : node)
    (ctx : module_evaluate_context) input_c output_c :
  inputs n !! 0%nat = Some input_c -> outputs n !! 0%nat = Some output_c ->
  is_Some (allocations ctx !! conn_id output_c) ->
  dequantize_supported (conn_type input_c) = false ->
  NDEBUG env = true ->
  dequantize_evaluator env n ctx = Normal ctx.
Proof.
  intros Hin Hout [output Hbound] Htype Hndebug.
  unfold dequantize_evaluator.
  rewrite (input_at_Some _ _ _ Hin), (output_at_Some _ _ _ Hout).
  cbn [mbind outcome_bind]. rewrite (memory_at_bound _ _ _ Hbound).
  unfold assert_. rewrite Hndebug. cbn [mbind outcome_bind].
  by destruct (conn_type input_c).
Qed.

(** ** Clamp *)

Lemma read_float_Some mem t i f :
  mem !! (buffer_start t + i)%nat = Some (float_cell f) -> read_float mem t i = Normal f.
Proof. intros H. unfold read_float. by rewrite H. Qed.

Lemma write_float_lt mem t i f :
  (buffer_start t + i < length mem)%nat ->
  write_float mem t i f = Normal (<[(buffer_start t + i)%nat := float_cell f]> mem).
Proof. intros H. unfold write_float. by rewrite bool_decide_eq_true_2. Qed.

Lemma call_std_clamp_defined (v lo hi : float32) :
  f32_ltb hi lo = false -> call_std_clamp v lo hi = Normal (std_clamp v lo hi).
Proof. intros H. unfold call_std_clamp. by rewrite H. Qed.

(** The loop of lines 431-434, from element [first] on: [values] are the
    input elements not yet read. *)
Lemma clamp_loop (input output : evaluate_tensor) (low high : float32)
    (values : list float32) :
  f32_ltb high low = false ->
  forall (first : nat) (mem : list cell),
    (forall i a, values !! i = Some a ->
                 mem !! (buffer_start input + (first + i))%nat = Some (float_cell a)) ->
    (buffer_start output + (first + length values) <= length mem)%nat ->
    (buffer_start output <= buffer_start input
     \/ buffer_start input + (first + length values) <= buffer_start output)%nat ->
    exists mem',
      for_each_index (length values) first
        (fun i mem =>
           a ← read_float mem input i;
           v ← call_std_clamp a low high;
           write_float mem output i v)
        mem
      = Normal mem'
      /\ length mem' = length mem
      /\ (forall i a, values !! i = Some a ->
            mem' !! (buffer_start output + (first + i))%nat
            = Some (float_cell (std_clamp a low high)))
      /\ (forall j, ~ (buffer_start output + first <= j
                       < buffer_start output + (first + length values))%nat ->
            mem' !! j = mem !! j).
Proof.
  intros Hbounds.
  induction values as [|v values IH]; intros first mem Hin Hlen Hhazard.
  - exists mem. cbn. repeat split; try done.
  - cbn [length for_each_index] in *.
    rewrite (read_float_Some mem input first v)
      by (specialize (Hin 0%nat v eq_refl); by rewrite Nat.add_0_r in Hin).
    cbn [mbind outcome_bind]. rewrite (call_std_clamp_defined v low high Hbounds).
    cbn [mbind outcome_bind]. rewrite write_float_lt by lia.
    cbn [mbind outcome_bind].
    set (mem1 := <[(buffer_start output + first)%nat
                   := float_cell (std_clamp v low high)]> mem).
    destruct (IH (S first) mem1) as (mem' & Hrun & Hlen' & Hout & Hframe).
    + intros i a Hi. pose proof (lookup_lt_Some _ _ _ Hi) as Hlt.
      unfold mem1. rewrite list_lookup_insert_ne by lia.
      replace (S first + i)%nat with (first + S i)%nat by lia.
      by apply Hin.
    + unfold mem1. rewrite length_insert. lia.
    + lia.
    + exists mem'. unfold mem1 in *. rewrite length_insert in Hlen'.
      repeat split; [done | done | |].
      * intros [|i] a Hi.
        -- cbn in Hi. injection Hi as ->. rewrite Hframe by lia.
           rewrite Nat.add_0_r. apply list_lookup_insert_eq. lia.
        -- replace (first + S i)%nat with (S first + i)%nat by lia.
           by apply Hout.
      * intros j Hj. rewrite Hframe by lia.
        apply list_lookup_insert_ne. lia.
Qed.

(** The clamp closure on a context whose views and cells are as the
    closure expects them. *)
Lemma clamp_evaluator_spec (env : environment) (n : node)
    (ctx : module_evaluate_context)
    (input_c input_low_c input_high_c output_c : connector)
    (input input_low input_high output : evaluate_tensor)
    (low high : float32) (values : list float32) :
  inputs n = [input_c; input_low_c; input_high_c] ->
  outputs n !! 0%nat = Some output_c ->
  conn_type input_c = dt_float32 ->
  allocations ctx !! conn_id input_c = Some input ->
  allocations ctx !! conn_id input_low_c = Some input_low ->
  allocations ctx !! conn_id input_high_c = Some input_high ->
  allocations ctx !! conn_id output_c = Some output ->
  memory ctx !! buffer_start input_low = Some (float_cell low) ->
  memory ctx !! buffer_start input_high = Some (float_cell high) ->
  length values = buffer_size input ->
  (forall i a, values !! i = Some a ->
               memory ctx !! (buffer_start input + i)%nat = Some (float_cell a)) ->
  (buffer_start output + buffer_size input <= length (memory ctx))%nat ->
  (buffer_start output <= buffer_start input
   \/ buffer_start input + buffer_size input <= buffer_start output)%nat ->
  f32_ltb high low = false ->
  exists mem',
    clamp_evaluator env n ctx = Normal (with_memory ctx mem')
    /\ length mem' = length (memory ctx)
    /\ (forall i a, values !! i = Some a ->
          mem' !! (buffer_start output + i)%nat
          = Some (float_cell (std_clamp a low high)))
    /\ (forall j, ~ (buffer_start output <= j
                     < buffer_start output + buffer_size input)%nat ->
          mem' !! j = memory ctx !! j).
Proof.
  intros Hins Hout Htype Hi Hl Hh Ho Hlow Hhigh Hsize Hvalues Hfit Hhazard Hbounds.
  destruct (clamp_loop input output low high values Hbounds 0 (memory ctx))
    as (mem' & Hrun & Hlen & Hres & Hframe).
  { intros i a Hia. cbn. by apply Hvalues. }
  { cbn. lia. }
  { cbn. lia. }
  exists mem'. split; [|repeat split].
  - unfold clamp_evaluator.
    rewrite (input_at_Some n 0 input_c) by (by rewrite Hins).
    rewrite (input_at_Some n 1 input_low_c) by (by rewrite Hins).
    rewrite (input_at_Some n 2 input_high_c) by (by rewrite Hins).
    rewrite (output_at_Some n 0 output_c) by done.
    cbn [mbind outcome_bind].
    rewrite (memory_at_bound _ _ _ Hi), (memory_at_bound _ _ _ Hl),
      (memory_at_bound _ _ _ Hh), (memory_at_bound _ _ _ Ho).
    unfold assert_, is_type. rewrite Htype, bool_decide_eq_true_2 by done.
    replace (if NDEBUG env then Normal () else Normal ()) with (Normal ())
      by (by destruct (NDEBUG env)).
    cbn [mbind outcome_bind].
    rewrite (read_float_Some _ input_low 0 low) by (by rewrite Nat.add_0_r).
    rewrite (read_float_Some _ input_high 0 high) by (by rewrite Nat.add_0_r).
    cbn [mbind outcome_bind]. rewrite <- Hsize, Hrun. done.
  - done.
  - intros i a Hia. by apply (Hres i a).
  - intros j Hj. apply Hframe. cbn. lia.
Qed.



Lemma memory_at_all_bound ctx (cs : list connector) :
  Forall (fun c => is_Some (allocations ctx !! conn_id c)) cs ->
  memory_at_all ctx cs = Normal tt.
Proof.
  induction 1 as [|c cs [t Ht] _ IH]; [done|].
  cbn [memory_at_all]. by rewrite (memory_at_bound _ _ _ Ht).
Qed.

(** With its connectors bound, a closure of the kernel kind comes down to
    the call of its kernel. *)
Lemma kernel_evaluator_invokes env k n ctx :
  Forall (fun c => is_Some (allocations ctx !! conn_id c)) (inputs n ++ outputs n) ->
  kernel_evaluator k env n ctx = invoke env k n ctx.
Proof.
  intros [Hin Hout]%Forall_app. unfold kernel_evaluator.
  by rewrite !memory_at_all_bound.
Qed.

Lemma float_kernel_evaluator_invokes env k n ctx input :
  inputs n !! 0%nat = Some input ->
  NDEBUG env = true \/ conn_type input = dt_float32 ->
  Forall (fun c => is_Some (allocations ctx !! conn_id c)) (inputs n ++ outputs n) ->
  float_kernel_evaluator k env n ctx = invoke env k n ctx.
Proof.
  intros Hin Hassert Hbound. unfold float_kernel_evaluator.
  rewrite (input_at_Some _ _ _ Hin). cbn [mbind outcome_bind].
  rewrite <- (kernel_evaluator_invokes env k n ctx Hbound).
  unfold assert_, is_type. destruct Hassert as [-> | ->]; [done|].
  rewrite bool_decide_eq_true_2 by done. by destruct (NDEBUG env).
Qed.

Lemma binary_evaluator_invokes env n ctx input_a input_b :
  inputs n !! 0%nat = Some input_a ->
  inputs n !! 1%nat = Some input_b ->
  NDEBUG env = true
  \/ (conn_type input_a = dt_float32 /\ conn_type input_b = dt_float32) ->
  Forall (fun c => is_Some (allocations ctx !! conn_id c)) (inputs n ++ outputs n) ->
  binary_evaluator env n ctx = invoke env k_binary n ctx.
Proof.
  intros Ha Hb Hassert Hbound. unfold binary_evaluator.
  rewrite (input_at_Some _ _ _ Ha), (input_at_Some _ _ _ Hb).
  cbn [mbind outcome_bind].
  rewrite <- (kernel_evaluator_invokes env k_binary n ctx Hbound).
  unfold assert_, is_type. destruct Hassert as [-> | [-> ->]]; [done|].
  rewrite bool_decide_eq_true_2 by done. by destruct (NDEBUG env).
Qed.

Lemma resize_image_evaluator_invokes env n ctx mode opaque :
  attributes n = attr_resize_image mode opaque ->
  Forall (fun c => is_Some (allocations ctx !! conn_id c)) (inputs n ++ outputs n) ->
  resize_image_evaluator env n ctx
  = invoke env (if bool_decide (mode = image_resize_bilinear)
                then k_resize_bilinear else k_resize_nearest_neighbor) n ctx.
Proof.
  intros Hattr [Hin Hout]%Forall_app. unfold resize_image_evaluator.
  rewrite !memory_at_all_bound by done. cbn [mbind outcome_bind].
  rewrite Hattr. by case_bool_decide.
Qed.

(** The closure registered for a node whose kind ends in a kernel call
    comes down to that call when the inputs it asserts are of floats (or
    assertions are compiled out) and its connectors are bound. *)
Lemma registered_closure_invokes (env : environment) (n : node)
    (ctx : module_evaluate_context) (k : kernel_name) :
  kernel_call n = Some k ->
  Forall (fun i => exists c, inputs n !! i = Some c
                             /\ (NDEBUG env = true \/ conn_type c = dt_float32))
         (float_asserted_inputs (runtime_opcode n)) ->
  Forall (fun c => is_Some (allocations ctx !! conn_id c)) (inputs n ++ outputs n) ->
  exists f,
    get_evaluator (runtime_opcode n) = Some f /\ f env n ctx = invoke env k n ctx.
Proof.
  intros Hk Hassert Hbound. unfold kernel_call in Hk.
  destruct (runtime_opcode n) eqn:Hop; try discriminate Hk;
    cbn [float_asserted_inputs] in Hassert;
    try (injection Hk as <-; eexists; split; [reflexivity|];
         by apply kernel_evaluator_invokes).
  - (* binary *)
    injection Hk as <-. eexists. split; [reflexivity|].
    apply Forall_cons in Hassert as [(input_a & Ha & Hta) Hassert].
    apply Forall_cons in Hassert as [(input_b & Hb & Htb) _].
    apply (binary_evaluator_invokes env n ctx input_a input_b); [done | done | | done].
    destruct Hta as [Hndebug | Hta]; [by left|].
    destruct Htb as [Hndebug | Htb]; [by left | by right].
  - (* conv2d *)
    injection Hk as <-. eexists. split; [reflexivity|].
    apply Forall_cons in Hassert as [(input & Ha & Hta) _].
    by apply (float_kernel_evaluator_invokes env k_conv2d n ctx input).
  - (* reduce *)
    injection Hk as <-. eexists. split; [reflexivity|].
    apply Forall_cons in Hassert as [(input & Ha & Hta) _].
    by apply (float_kernel_evaluator_invokes env k_reduce n ctx input).
  - (* reduce_window2d *)
    injection Hk as <-. eexists. split; [reflexivity|].
    apply Forall_cons in Hassert as [(input & Ha & Hta) _].
    by apply (float_kernel_evaluator_invokes env k_reduce_window2d n ctx input).
  - (* resize_image *)
    destruct (attributes n) as [| |mode opaque|] eqn:Hattr; try discriminate Hk.
    injection Hk as <-. eexists. split; [reflexivity|].
    by apply (resize_image_evaluator_invokes env n ctx mode opaque).
Qed.

(** C6.  Fail-fast: when the closure that [register_neutral_evaluators]
    registers for a node of the schedule reaches its kernel call (binary,
    conv2d, pad, gather_nd and the other kinds of [kernel_call]) and the
    kernel returns a failure, [unwrap_or_throw] throws it and the pass ends
    at that node: the nodes after it are not visited (whatever they are),
    nothing is retried and nothing is recovered. *)
Theorem evaluate_fail_fast (env : environment) (pre post : list node) (n : node)
    (k : kernel_name) (e : errc) (ctx0 ctx1 : module_evaluate_context) :
  evaluate env pre ctx0 = (pre, Normal ctx1) ->
  kernel_call n = Some k ->
  Forall (fun i => exists c, inputs n !! i = Some c
                             /\ (NDEBUG env = true \/ conn_type c = dt_float32))
         (float_asserted_inputs (runtime_opcode n)) ->
  Forall (fun c => is_Some (allocations ctx1 !! conn_id c)) (inputs n ++ outputs n) ->
  kernels env k n ctx1 = err e ->
  evaluate env (pre ++ n :: post) ctx0 = (pre ++ [n], Throw (kernel_failure e)).
Proof.
  intros Hpre Hcall Hassert Hbound Hk.
  destruct (registered_closure_invokes env n ctx1 k Hcall Hassert Hbound)
    as (f & Hf & Hinvoke).
  rewrite (evaluate_app_normal env pre (n :: post) ctx0 ctx1 Hpre).
  rewrite (evaluate_stops env n post f ctx1 (Throw (kernel_failure e)) Hf); [done| |done].
  rewrite Hinvoke. unfold invoke. by rewrite Hk.
Qed.

Lemma evaluate_fail_fast_witness :
  evaluate example_env
    ([example_input_node] ++ example_binary :: [example_pad; example_clamp])
    example_context
  = ([example_input_node] ++ [example_binary],
     Throw (kernel_failure errc_invalid_argument)).
Proof.
  apply (evaluate_fail_fast example_env [example_input_node]
           [example_pad; example_clamp] example_binary k_binary errc_invalid_argument
           example_context example_context).
  - reflexivity.
  - reflexivity.
  - simpl. constructor; [|constructor; [|constructor]].
    + eexists. split; [reflexivity | right; reflexivity].
    + eexists. split; [reflexivity | right; reflexivity].
  - simpl. repeat (constructor; [vm_compute; by eexists|]). constructor.
  - reflexivity.
Defined.

Lemma nop_evaluator_no_effect_witness :
  get_evaluator (runtime_opcode example_input_node) = Some nop_evaluator
  /\ nop_evaluator example_env example_input_node example_context = Normal example_context.
Proof.
  apply (nop_evaluator_no_effect example_env example_input_node example_context).
  simpl. apply list_elem_of_here.
Defined.

(** C7.  The closure of an unsupported dequantize is silent where
    [NDEBUG] is defined: on the example node, whose input is of 16-bit
    integers, it returns normally with the context as it was, whatever the
    kernels are (none is called, nothing is written to the output, nothing
    is reported), while the build with assertions stops at the [assert] of
    the [default] case, and an unsupported unary node throws under
    [NDEBUG] as well. *)
Theorem unsupported_dequantize_silent_with_NDEBUG (env : environment) :
  dequantize_supported (conn_type (example_connector 1 dt_int16)) = false
  /\ dequantize_evaluator (with_NDEBUG true env) example_dequantize example_context
     = Normal example_context
  /\ ~ fails_loudly
         (dequantize_evaluator (with_NDEBUG true env) example_dequantize example_context)
  /\ dequantize_evaluator (with_NDEBUG false env) example_dequantize example_context
     = AssertionFailure "false && not supported type!"
  /\ unary_evaluator (with_NDEBUG true env) example_unary example_context
     = Throw (runtime_error "Not supported unary").
Proof.
  assert (Hsilent :
    dequantize_evaluator (with_NDEBUG true env) example_dequantize example_context
    = Normal example_context).
  { apply (dequantize_unsupported_ndebug (with_NDEBUG true env) example_dequantize
             example_context (example_connector 1 dt_int16)
             (example_connector 3 dt_float32));
      [reflexivity | reflexivity | vm_compute; by eexists | reflexivity | reflexivity]. }
  split; [reflexivity|]. split; [exact Hsilent|]. split; [rewrite Hsilent; exact (fun H : False => H)|].
  split.
  - apply (dequantize_unsupported_asserts (with_NDEBUG false env) example_dequantize
             example_context (example_connector 1 dt_int16)
             (example_connector 3 dt_float32));
      [reflexivity | reflexivity | vm_compute; by eexists | reflexivity | reflexivity].
  - apply (unary_unsupported_throws (with_NDEBUG true env) example_unary example_context
             (example_connector 0 dt_float32) (example_connector 3 dt_float32)
             (unary_other 0));
      [reflexivity | reflexivity | reflexivity | vm_compute; by eexists
      | vm_compute; by eexists | reflexivity | reflexivity].
Qed.



(** * binary32 arithmetic *)

(** ** Number of binary digits *)

Lemma digits2_pos_bounds (p : positive) :
  2 ^ (Z.pos (digits2_pos p) - 1) <= Z.pos p < 2 ^ Z.pos (digits2_pos p).
Proof.
  induction p as [p IH|p IH|]; cbn [digits2_pos]; [| |cbn; lia].
  - rewrite Pos2Z.inj_succ.
    replace (Z.succ (Z.pos (digits2_pos p)) - 1) with (Z.succ (Z.pos (digits2_pos p) - 1)) by lia.
    rewrite !Z.pow_succ_r by lia. lia.
  - rewrite Pos2Z.inj_succ.
    replace (Z.succ (Z.pos (digits2_pos p)) - 1) with (Z.succ (Z.pos (digits2_pos p) - 1)) by lia.
    rewrite !Z.pow_succ_r by lia. lia.
Qed.

Lemma digits2_pos_unique (p : positive) (d : Z) :
  2 ^ (d - 1) <= Z.pos p < 2 ^ d -> Z.pos (digits2_pos p) = d.
Proof.
  intros [Hlo Hhi]. pose proof (digits2_pos_bounds p) as [Hlo' Hhi'].
  assert (0 < d).
  { destruct (Z.le_gt_cases d 0) as [Hd|]; [|done].
    assert (2 ^ d <= 2 ^ 0) by (apply Z.pow_le_mono_r; lia).
    change (2 ^ 0) with 1 in *. lia. }
  assert (d - 1 < Z.pos (digits2_pos p)).
  { apply (Z.pow_lt_mono_r_iff 2); lia. }
  assert (Z.pos (digits2_pos p) - 1 < d).
  { apply (Z.pow_lt_mono_r_iff 2); lia. }
  lia.
Qed.

Lemma digits2_pos_shift (p q : positive) (j : Z) :
  0 <= j -> Z.pos q = Z.pos p * 2 ^ j ->
  Z.pos (digits2_pos q) = Z.pos (digits2_pos p) + j.
Proof.
  intros Hj Hq. apply digits2_pos_unique. rewrite Hq.
  pose proof (digits2_pos_bounds p) as [Hlo Hhi].
  replace (Z.pos (digits2_pos p) + j - 1) with (Z.pos (digits2_pos p) - 1 + j) by lia.
  rewrite !Z.pow_add_r by lia.
  assert (0 < 2 ^ j) by (apply Z.pow_pos_nonneg; lia).
  split; [apply Z.mul_le_mono_nonneg_r; lia | apply Z.mul_lt_mono_pos_r; lia].
Qed.

(** ** Shifts of the mantissa *)

Lemma iter_xO_mul (p : positive) (d : positive) :
  Z.pos (Pos.iter xO p d) = Z.pos p * 2 ^ Z.pos d.
Proof.
  induction d as [|d IH] using Pos.peano_ind.
  - cbn. lia.
  - rewrite Pos.iter_succ, Pos2Z.inj_succ, Z.pow_succ_r by lia.
    rewrite Pos2Z.inj_xO, IH. lia.
Qed.

Lemma iter_pos_nat {A : Type} (f : A -> A) (n : positive) (x : A) :
  SpecFloat.iter_pos f n x = Nat.iter (Pos.to_nat n) f x.
Proof.
  revert x. induction n as [n IH|n IH|]; intros x; cbn [SpecFloat.iter_pos].
  - rewrite !IH, Pos2Nat.inj_xI.
    replace (S (2 * Pos.to_nat n)) with (Pos.to_nat n + S (Pos.to_nat n))%nat by lia.
    by rewrite Nat.iter_add, Nat.iter_succ_r.
  - rewrite !IH, Pos2Nat.inj_xO.
    replace (2 * Pos.to_nat n)%nat with (Pos.to_nat n + Pos.to_nat n)%nat by lia.
    by rewrite Nat.iter_add.
  - done.
Qed.

(** Shifting out zero bits is exact. *)
Lemma shr_1_exact (y : Z) :
  0 <= y ->
  shr_1 {| shr_m := 2 * y; shr_r := false; shr_s := false |}
  = {| shr_m := y; shr_r := false; shr_s := false |}.
Proof. intros Hy. destruct y as [|y|y]; try done. Qed.

Lemma shr_exact (n : nat) (y : Z) :
  0 <= y ->
  Nat.iter n shr_1 {| shr_m := y * 2 ^ Z.of_nat n; shr_r := false; shr_s := false |}
  = {| shr_m := y; shr_r := false; shr_s := false |}.
Proof.
  intros Hy. induction n as [|n IH].
  - cbn. f_equal. lia.
  - rewrite Nat.iter_succ_r.
    replace (y * 2 ^ Z.of_nat (S n)) with (2 * (y * 2 ^ Z.of_nat n))
      by (rewrite Nat2Z.inj_succ, Z.pow_succ_r by lia; lia).
    rewrite shr_1_exact; [done|]. apply Z.mul_nonneg_nonneg; [done|].
    apply Z.pow_nonneg. lia.
Qed.

(** Shifting right divides the mantissa, whatever the bits shifted out. *)
Lemma shr_1_m (mrs : shr_record) :
  0 <= shr_m mrs -> shr_m (shr_1 mrs) = shr_m mrs / 2.
Proof.
  destruct mrs as [m r s]. cbn [shr_m]. intros Hm.
  destruct m as [|[p|p|]|p]; cbn [shr_1 shr_m]; try done.
  - rewrite Pos2Z.inj_xI. apply Z.div_unique with 1; lia.
  - rewrite Pos2Z.inj_xO. apply Z.div_unique with 0; lia.
Qed.

Lemma shr_m_iter (n : nat) (mrs : shr_record) :
  0 <= shr_m mrs ->
  shr_m (Nat.iter n shr_1 mrs) = shr_m mrs / 2 ^ Z.of_nat n.
Proof.
  intros Hm. induction n as [|n IH].
  - cbn. by rewrite Z.div_1_r.
  - rewrite Nat.iter_succ, shr_1_m.
    + rewrite IH, Nat2Z.inj_succ, Z.pow_succ_r by lia.
      rewrite Z.div_div by (try apply Z.pow_pos_nonneg; lia).
      f_equal. lia.
    + rewrite IH. apply Z.div_pos; [done|]. apply Z.pow_pos_nonneg; lia.
Qed.

(** ** Rounding a mantissa that needs no rounding *)

Lemma f32_fexp (k : Z) : fexp f32_prec f32_emax k = Z.max (k - 24) (-149).
Proof. reflexivity. Qed.

Lemma binary_round_aux_canonical (s : bool) (mz : positive) (t : Z) :
  fexp f32_prec f32_emax (Z.pos (digits2_pos mz) + t) = t ->
  t <= 104 ->
  binary_round_aux f32_prec f32_emax s (Z.pos mz) t loc_Exact = S754_finite s mz t.
Proof.
  intros Hcanon Hmax. unfold binary_round_aux, shr_fexp.
  cbn [Zdigits2 shr_record_of_loc]. rewrite Hcanon, Z.sub_diag.
  cbn [shr shr_m loc_of_shr_record round_nearest_even Zdigits2 shr_record_of_loc].
  rewrite Hcanon, Z.sub_diag. cbn [shr shr_m].
  replace (t <=? f32_emax - f32_prec) with true; [done|].
  symmetry. apply Z.leb_le. unfold f32_emax, f32_prec. lia.
Qed.

Lemma binary_round_exact (s : bool) (X mz : positive) (ex t : Z) :
  t = fexp f32_prec f32_emax (Z.pos (digits2_pos X) + ex) ->
  t <= 104 ->
  (t <= ex /\ Z.pos mz = Z.pos X * 2 ^ (ex - t))
  \/ (ex < t /\ Z.pos X = Z.pos mz * 2 ^ (t - ex)) ->
  binary_round f32_prec f32_emax s X ex = S754_finite s mz t.
Proof.
  intros Ht Hmax [[Hle Hmz] | [Hlt HX]]; unfold binary_round, shl_align.
  - assert (Hdig : Z.pos (digits2_pos mz) + t = Z.pos (digits2_pos X) + ex).
    { rewrite (digits2_pos_shift X mz (ex - t)) by (done || lia). lia. }
    rewrite <- Ht.
    destruct (t - ex) as [|d|d] eqn:Hd; try lia.
    + assert (t = ex) by lia. subst ex. rewrite Z.sub_diag in Hmz.
      assert (mz = X) by lia. subst mz.
      apply binary_round_aux_canonical; [|done]. by rewrite Ht at 2.
    + assert (Pos.iter xO X d = mz) as ->.
      { apply Pos2Z.inj. rewrite iter_xO_mul, Hmz. f_equal. f_equal. lia. }
      apply binary_round_aux_canonical; [|done]. rewrite Hdig. done.
  - rewrite <- Ht.
    destruct (t - ex) as [|d|d] eqn:Hd; try lia.
    assert (Hdig : Z.pos (digits2_pos X) = Z.pos (digits2_pos mz) + Z.pos d).
    { apply (digits2_pos_shift mz X); [lia|]. by rewrite HX. }
    unfold binary_round_aux, shr_fexp.
    cbn [Zdigits2 shr_record_of_loc]. rewrite <- Ht, Hd. cbn [shr].
    rewrite iter_pos_nat, HX.
    replace (Z.pos d) with (Z.of_nat (Pos.to_nat d)) by lia.
    rewrite shr_exact by lia.
    cbn [shr_m loc_of_shr_record round_nearest_even Zdigits2 shr_record_of_loc].
    replace (Z.of_nat (Pos.to_nat d)) with (Z.pos d) by lia.
    replace (ex + Z.pos d) with t by lia.
    replace (fexp f32_prec f32_emax (Z.pos (digits2_pos mz) + t)) with t
      by (rewrite Ht at 1; f_equal; lia).
    rewrite Z.sub_diag. cbn [shr shr_m].
    replace (t <=? f32_emax - f32_prec) with true; [done|].
    symmetry. apply Z.leb_le. unfold f32_emax, f32_prec. lia.
Qed.

(** ** Integers *)

Lemma digits2_pos_le_24 (p : positive) :
  Z.pos p < 2 ^ 24 -> Z.pos (digits2_pos p) <= 24.
Proof.
  intros Hp. pose proof (digits2_pos_bounds p) as [Hlo _].
  destruct (Z.le_gt_cases (Z.pos (digits2_pos p)) 24) as [|Hgt]; [done|].
  assert (2 ^ 24 <= 2 ^ (Z.pos (digits2_pos p) - 1)) by (apply Z.pow_le_mono_r; lia).
  lia.
Qed.

Lemma int_mantissa_spec (p : positive) :
  Z.pos p < 2 ^ 24 ->
  Z.pos (int_mantissa p) = Z.pos p * 2 ^ (24 - Z.pos (digits2_pos p)).
Proof.
  intros Hp. pose proof (digits2_pos_le_24 p Hp). unfold int_mantissa.
  rewrite Z2Pos.id; [done|].
  apply Z.mul_pos_pos; [done|]. apply Z.pow_pos_nonneg; lia.
Qed.

(** An integer of at most 24 digits, scaled by a power of two, is rounded
    to its canonical representation. *)
Lemma binary_round_int (s : bool) (X p : positive) (j : Z) :
  Z.pos p < 2 ^ 24 -> 0 <= j <= 24 ->
  Z.pos X = Z.pos p * 2 ^ j ->
  binary_round f32_prec f32_emax s X (- j) = int_float s p.
Proof.
  intros Hp Hj HX. pose proof (digits2_pos_le_24 p Hp) as Hd.
  pose proof (Pos2Z.is_pos (digits2_pos p)) as Hd0.
  pose proof (int_mantissa_spec p Hp) as Hm.
  set (d := Z.pos (digits2_pos p)) in *.
  assert (HdX : Z.pos (digits2_pos X) = d + j).
  { apply (digits2_pos_shift p X); [lia | done]. }
  apply binary_round_exact.
  - rewrite HdX, f32_fexp. lia.
  - lia.
  - destruct (Z.le_gt_cases (d - 24) (- j)) as [Hle | Hgt].
    + left. split; [done|]. rewrite Hm, HX, <- Z.mul_assoc, <- Z.pow_add_r by lia.
      do 2 f_equal. lia.
    + right. split; [done|]. rewrite Hm, HX, <- Z.mul_assoc, <- Z.pow_add_r by lia.
      do 2 f_equal. lia.
Qed.

Lemma binary_normalize_int (n : Z) (j : Z) (szero : bool) :
  Z.abs n < 2 ^ 24 -> 0 <= j <= 24 -> n <> 0 ->
  binary_normalize f32_prec f32_emax (n * 2 ^ j) (- j) szero = Z_float n.
Proof.
  intros Hn Hj Hn0.
  assert (0 < 2 ^ j) by (apply Z.pow_pos_nonneg; lia).
  destruct n as [|p|p]; [done| |].
  - destruct (Z.pos p * 2 ^ j) as [|X|X] eqn:HX; try lia.
    cbn [binary_normalize Z_float]. apply binary_round_int; [lia | done | done].
  - destruct (Z.neg p * 2 ^ j) as [|X|X] eqn:HX; try lia.
    cbn [binary_normalize Z_float]. apply binary_round_int; [lia | done | lia].
Qed.

Lemma f32_to_int_Z_float (n : Z) :
  Z.abs n < 2 ^ 24 -> f32_to_int (Z_float n) = Some n.
Proof.
  intros Hn. destruct n as [|p|p]; [done| |]; cbn [Z_float int_float f32_to_int].
  all: pose proof (digits2_pos_le_24 p ltac:(lia)) as Hd.
  all: pose proof (Pos2Z.is_pos (digits2_pos p)) as Hd0.
  all: pose proof (int_mantissa_spec p ltac:(lia)) as Hm.
  all: set (d := Z.pos (digits2_pos p)) in *.
  all: destruct (0 <=? d - 24) eqn:He;
    [ apply Z.leb_le in He; assert (d - 24 = 0) as -> by lia;
      rewrite Z.shiftl_0_r, Hm; replace (24 - d) with 0 by lia;
      rewrite Z.mul_1_r
    | rewrite Z.shiftr_div_pow2 by lia;
      replace (- (d - 24)) with (24 - d) by lia;
      rewrite Hm, Z.div_mul by (apply Z.pow_nonzero; lia) ].
  all: cbn [cond_Zopp];
    replace ((- 2 ^ 31 <=? _) && (_ <? 2 ^ 31)) with true; [done|];
    symmetry; apply andb_true_iff; split; [apply Z.leb_le | apply Z.ltb_lt]; lia.
Qed.

Lemma shl_align_fst (mx : positive) (ex ex' : Z) :
  ex' <= ex -> Z.pos (fst (shl_align mx ex ex')) = Z.pos mx * 2 ^ (ex - ex').
Proof.
  intros Hle. unfold shl_align.
  destruct (ex' - ex) as [|d|d] eqn:Hd; try lia; cbn [fst].
  - replace (ex - ex') with 0 by lia. lia.
  - rewrite iter_xO_mul. do 2 f_equal. lia.
Qed.

Lemma bounded_facts (m : positive) (e : Z) :
  bounded f32_prec f32_emax m e = true ->
  Z.pos m < 2 ^ 24 /\ -149 <= e <= 104 /\ (e = -149 \/ 2 ^ 23 <= Z.pos m).
Proof.
  unfold bounded, canonical_mantissa. intros [Hc He]%andb_true_iff.
  apply Z.eqb_eq in Hc. apply Z.leb_le in He. rewrite f32_fexp in Hc.
  pose proof (digits2_pos_bounds m) as [Hlo Hhi].
  unfold f32_emax, f32_prec in He.
  assert (Hd : Z.pos (digits2_pos m) <= 24) by lia.
  split; [|split; [lia|]].
  - eapply Z.lt_le_trans; [exact Hhi|]. apply Z.pow_le_mono_r; lia.
  - destruct (Z.eq_dec e (-149)) as [|Hne]; [by left | right].
    assert (Z.pos (digits2_pos m) = 24) as Hd24 by lia.
    rewrite Hd24 in Hlo. exact Hlo.
Qed.

(** ** The integer part *)

Lemma floor_bounds (s : bool) (m : positive) (k : Z) :
  Z.pos m < 2 ^ 24 -> 0 < k ->
  let f := cond_Zopp s (Z.pos m) / 2 ^ k in
  - 2 ^ 23 <= f < 2 ^ 23 /\ (f = 0 -> s = false).
Proof.
  intros Hm Hk f.
  assert (H2k : 2 <= 2 ^ k).
  { change 2 with (2 ^ 1) at 1. apply Z.pow_le_mono_r; lia. }
  assert (Hdef := Z.div_mod (cond_Zopp s (Z.pos m)) (2 ^ k) ltac:(lia)).
  assert (Hrem := Z.mod_pos_bound (cond_Zopp s (Z.pos m)) (2 ^ k) ltac:(lia)).
  fold f in Hdef. destruct s; cbn [cond_Zopp] in *; split; nia.
Qed.

Lemma f32_floor_finite (s : bool) (m : positive) (e : Z) :
  bounded f32_prec f32_emax m e = true -> e < 0 ->
  f32_floor (S754_finite s m e) = Z_float (cond_Zopp s (Z.pos m) / 2 ^ (- e)).
Proof.
  intros Hb He. destruct (bounded_facts m e Hb) as (Hm & Hrange & _).
  destruct (floor_bounds s m (- e) Hm ltac:(lia)) as [Hf Hf0].
  unfold f32_floor. replace (0 <=? e) with false by (symmetry; apply Z.leb_gt; lia).
  rewrite Z.shiftr_div_pow2 by lia.
  set (f := cond_Zopp s (Z.pos m) / 2 ^ (- e)) in *.
  destruct (Z.eq_dec f 0) as [Hz | Hnz].
  - rewrite Hz. cbn. by rewrite (Hf0 Hz).
  - pose proof (binary_normalize_int f 0 s ltac:(lia) ltac:(lia) Hnz) as H.
    by rewrite Z.mul_1_r in H.
Qed.

Lemma f32_add_one (f : Z) :
  - 2 ^ 23 <= f < 2 ^ 23 -> f32_add (Z_float f) f32_one = Z_float (f + 1).
Proof.
  intros Hf. destruct (Z.eq_dec f 0) as [-> | Hnz]; [reflexivity|].
  assert (exists sf p, Z_float f = int_float sf p /\ f = cond_Zopp sf (Z.pos p))
    as (sf & p & Hfloat & Hfp).
  { destruct f as [|p|p]; [done | by exists false, p | by exists true, p]. }
  rewrite Hfloat. unfold int_float, f32_add, f32_one, SFadd.
  assert (Hp : Z.pos p < 2 ^ 24) by (destruct sf; cbn in Hfp; lia).
  pose proof (digits2_pos_le_24 p Hp) as Hd.
  pose proof (Pos2Z.is_pos (digits2_pos p)) as Hd0.
  pose proof (int_mantissa_spec p Hp) as Hm.
  set (d := Z.pos (digits2_pos p)) in *.
  replace (Z.min (d - 24) (-23)) with (-23) by lia.
  rewrite !shl_align_fst by lia. rewrite Hm, Z.sub_diag, Z.mul_1_r.
  replace (Z.pos p * 2 ^ (24 - d) * 2 ^ (d - 24 - -23)) with (Z.pos p * 2 ^ 23)
    by (rewrite <- Z.mul_assoc, <- Z.pow_add_r by lia; do 2 f_equal; lia).
  replace (cond_Zopp sf (Z.pos p * 2 ^ 23) + cond_Zopp false (Z.pos (2 ^ 23)))
    with ((f + 1) * 2 ^ 23)
    by (rewrite Hfp; destruct sf; cbn [cond_Zopp]; lia).
  destruct (Z.eq_dec (f + 1) 0) as [Hz | Hnz1].
  - rewrite Hz. reflexivity.
  - apply (binary_normalize_int (f + 1) 23 false); lia.
Qed.

(** ** The fractional part: [a - floor_val] *)

Lemma floor_digits (s : bool) (m p : positive) (e : Z) :
  bounded f32_prec f32_emax m e = true -> e < 0 ->
  Z.abs (cond_Zopp s (Z.pos m) / 2 ^ (- e)) = Z.pos p ->
  e <= Z.pos (digits2_pos p) - 24.
Proof.
  intros Hb He Hp. destruct (bounded_facts m e Hb) as (Hm & Hrange & Hnorm).
  pose proof (Pos2Z.is_pos (digits2_pos p)) as Hd0.
  destruct (Z.le_gt_cases (- e) 23) as [Hk|Hk]; [|lia].
  destruct Hnorm as [|Hnorm]; [lia|].
  assert (Hlow : 2 ^ (23 - - e) <= Z.pos p).
  { assert (Hpow : 2 ^ 23 = 2 ^ (- e) * 2 ^ (23 - - e))
      by (rewrite <- Z.pow_add_r by lia; f_equal; lia).
    assert (0 < 2 ^ (- e)) by (apply Z.pow_pos_nonneg; lia).
    assert (0 < 2 ^ (23 - - e)) by (apply Z.pow_pos_nonneg; lia).
    assert (Hdef := Z.div_mod (cond_Zopp s (Z.pos m)) (2 ^ (- e)) ltac:(lia)).
    assert (Hrem := Z.mod_pos_bound (cond_Zopp s (Z.pos m)) (2 ^ (- e)) ltac:(lia)).
    destruct s; cbn [cond_Zopp] in *; nia. }
  pose proof (digits2_pos_bounds p) as [_ Hhi].
  assert (23 - - e < Z.pos (digits2_pos p)); [|lia].
  apply (Z.pow_lt_mono_r_iff 2); lia.
Qed.

Lemma f32_sub_floor (s : bool) (m : positive) (e : Z) :
  bounded f32_prec f32_emax m e = true -> e < 0 ->
  f32_sub (S754_finite s m e) (Z_float (cond_Zopp s (Z.pos m) / 2 ^ (- e)))
  = binary_normalize f32_prec f32_emax (cond_Zopp s (Z.pos m) mod 2 ^ (- e)) e false.
Proof.
  intros Hb He. destruct (bounded_facts m e Hb) as (Hm & Hrange & Hnorm).
  destruct (floor_bounds s m (- e) Hm ltac:(lia)) as [Hf Hf0].
  assert (Hdef := Z.div_mod (cond_Zopp s (Z.pos m)) (2 ^ (- e))
                    ltac:(apply Z.pow_nonzero; lia)).
  set (f := cond_Zopp s (Z.pos m) / 2 ^ (- e)) in *.
  set (R := cond_Zopp s (Z.pos m) mod 2 ^ (- e)) in *.
  destruct (Z.eq_dec f 0) as [Hz | Hnz].
  - rewrite Hz in *. rewrite (Hf0 eq_refl) in *. cbn [cond_Zopp] in *.
    assert (R = Z.pos m) as -> by lia.
    cbn [Z_float f32_sub SFsub binary_normalize]. symmetry.
    apply binary_round_exact.
    + unfold bounded, canonical_mantissa in Hb.
      apply andb_true_iff in Hb as [Hc _]. apply Z.eqb_eq in Hc. by rewrite Hc.
    + lia.
    + left. rewrite Z.sub_diag. lia.
  - assert (exists sf p, Z_float f = int_float sf p /\ f = cond_Zopp sf (Z.pos p))
      as (sf & p & Hfloat & Hfp).
    { destruct f as [|p|p]; [done | by exists false, p | by exists true, p]. }
    assert (Hp : Z.pos p < 2 ^ 24) by (destruct sf; cbn in Hfp; lia).
    assert (Habs : Z.abs f = Z.pos p) by (destruct sf; cbn in Hfp; lia).
    pose proof (floor_digits s m p e Hb He Habs) as Hd.
    pose proof (digits2_pos_le_24 p Hp) as Hd24.
    pose proof (int_mantissa_spec p Hp) as Hmant.
    rewrite Hfloat. unfold int_float, f32_sub, SFsub.
    set (d := Z.pos (digits2_pos p)) in *.
    replace (Z.min e (d - 24)) with e by lia.
    rewrite !shl_align_fst by lia. rewrite Hmant, Z.sub_diag, Z.mul_1_r.
    replace (Z.pos p * 2 ^ (24 - d) * 2 ^ (d - 24 - e)) with (Z.pos p * 2 ^ (- e))
      by (rewrite <- Z.mul_assoc, <- Z.pow_add_r by lia; do 2 f_equal; lia).
    f_equal. rewrite Hfp in Hdef. destruct sf; cbn [cond_Zopp] in *; lia.
Qed.

(** ** Comparing the fractional part with one half *)

Lemma compare_finite_positive (mz q : positive) (t u : Z) :
  SFcompare (S754_finite false mz t) (S754_finite false q u)
  = Some match t ?= u with
         | Lt => Lt
         | Gt => Gt
         | Eq => Z.pos mz ?= Z.pos q
         end.
Proof. reflexivity. Qed.

Lemma compare_f32_half (mz : positive) (t : Z) :
  SFcompare (S754_finite false mz t) f32_half
  = Some match t ?= -24 with
         | Lt => Lt
         | Gt => Gt
         | Eq => Z.pos mz ?= 2 ^ 23
         end.
Proof.
  unfold f32_half. rewrite compare_finite_positive. by rewrite Pos2Z.inj_pow.
Qed.

(** The fractional part is exact when it has at most 24 digits. *)
Lemma compare_fraction_exact (R : positive) (k : Z) :
  0 < k <= 149 -> Z.pos R < 2 ^ k -> Z.pos R < 2 ^ 24 ->
  SFcompare (binary_normalize f32_prec f32_emax (Z.pos R) (- k) false) f32_half
  = Some (2 * Z.pos R ?= 2 ^ k).
Proof.
  intros Hk HR HR24. cbn [binary_normalize].
  pose proof (digits2_pos_le_24 R HR24) as Hd24.
  pose proof (digits2_pos_bounds R) as [Hlo Hhi].
  pose proof (Pos2Z.is_pos (digits2_pos R)) as Hd0.
  set (d := Z.pos (digits2_pos R)) in *.
  assert (Hdk : d <= k).
  { destruct (Z.le_gt_cases d k) as [|Hgt]; [done|].
    assert (2 ^ k <= 2 ^ (d - 1)) by (apply Z.pow_le_mono_r; lia). lia. }
  set (t := Z.max (d + - k - 24) (-149)).
  assert (Hmz : 0 < Z.pos R * 2 ^ (- k - t)).
  { apply Z.mul_pos_pos; [done|]. apply Z.pow_pos_nonneg; lia. }
  destruct (Z.pos R * 2 ^ (- k - t)) as [|mz|] eqn:Emz; try lia.
  rewrite (binary_round_exact false R mz (- k) t);
    [| by rewrite f32_fexp | lia | left; split; [lia | done]].
  rewrite compare_f32_half. f_equal.
  assert (H2k : 2 ^ k = 2 * 2 ^ (k - 1))
    by (rewrite <- Z.pow_succ_r by lia; f_equal; lia).
  destruct (Z.eq_dec d k) as [Hdk' | Hne].
  - assert (t = -24) as Ht by lia. rewrite Ht in *.
    rewrite Z.compare_refl, <- Emz.
    assert (H23 : 2 ^ 23 = 2 ^ (k - 1) * 2 ^ (- k - -24))
      by (rewrite <- Z.pow_add_r by lia; f_equal; lia).
    assert (0 < 2 ^ (- k - -24)) by (apply Z.pow_pos_nonneg; lia).
    rewrite H23, H2k.
    destruct (Z.compare_spec (Z.pos R) (2 ^ (k - 1))) as [Heq | Hlt | Hgt].
    + rewrite Heq. by rewrite !Z.compare_refl.
    + rewrite Hdk' in Hlo. lia.
    + transitivity Gt; [|symmetry]; apply Z.compare_gt_iff; nia.
  - assert (t < -24) as Ht by lia.
    apply Z.compare_lt_iff in Ht. rewrite Ht. symmetry.
    apply Z.compare_lt_iff.
    assert (2 ^ d <= 2 ^ (k - 1)) by (apply Z.pow_le_mono_r; lia). lia.
Qed.

Lemma round_nearest_even_bounds (q : Z) (l : location) :
  q <= round_nearest_even q l <= q + 1.
Proof.
  unfold round_nearest_even. destruct l as [|[| |]]; try lia.
  destruct (Z.even q); lia.
Qed.

(** A fractional part of more than 24 digits is at least one half, and is
    rounded to at least one half. *)
Lemma compare_fraction_rounded (R : positive) (k : Z) :
  25 <= k <= 149 -> 2 ^ (k - 1) <= Z.pos R < 2 ^ k ->
  exists c,
    SFcompare (binary_normalize f32_prec f32_emax (Z.pos R) (- k) false) f32_half
    = Some c
    /\ c <> Lt.
Proof.
  intros Hk HR. cbn [binary_normalize]. unfold binary_round.
  pose proof (digits2_pos_unique R k HR) as Hd.
  rewrite Hd. replace (k + - k) with 0 by lia.
  change (fexp f32_prec f32_emax 0) with (-24).
  unfold shl_align. destruct (-24 - - k) as [|j|j] eqn:Hj; try lia.
  unfold binary_round_aux, shr_fexp at 1.
  cbn [Zdigits2 shr_record_of_loc]. rewrite Hd.
  replace (k + - k) with 0 by lia.
  change (fexp f32_prec f32_emax 0) with (-24). rewrite Hj. cbn [shr].
  replace (- k + Z.pos j) with (-24) by lia.
  rewrite iter_pos_nat.
  set (mrs := Nat.iter (Pos.to_nat j) shr_1
                {| shr_m := Z.pos R; shr_r := false; shr_s := false |}).
  assert (Hq : shr_m mrs = Z.pos R / 2 ^ Z.pos j).
  { unfold mrs. rewrite shr_m_iter by (cbn; lia). cbn [shr_m]. do 2 f_equal. lia. }
  assert (Hqb : 2 ^ 23 <= shr_m mrs < 2 ^ 24).
  { rewrite Hq.
    assert (0 < 2 ^ Z.pos j) by (apply Z.pow_pos_nonneg; lia).
    assert (2 ^ (k - 1) = 2 ^ Z.pos j * 2 ^ 23)
      by (rewrite <- Z.pow_add_r by lia; f_equal; lia).
    assert (2 ^ k = 2 ^ Z.pos j * 2 ^ 24)
      by (rewrite <- Z.pow_add_r by lia; f_equal; lia).
    split; [apply Z.div_le_lower_bound | apply Z.div_lt_upper_bound]; lia. }
  pose proof (round_nearest_even_bounds (shr_m mrs) (loc_of_shr_record mrs)) as Hr.
  destruct (round_nearest_even (shr_m mrs) (loc_of_shr_record mrs)) as [|q|q];
    try lia.
  unfold shr_fexp. cbn [Zdigits2 shr_record_of_loc].
  destruct (Z.eq_dec (Z.pos q) (2 ^ 24)) as [Htop | Hlow].
  - assert (q = (2 ^ 24)%positive) as -> by lia.
    exists Gt. split; [reflexivity | done].
  - assert (Hdq : Z.pos (digits2_pos q) = 24) by (apply digits2_pos_unique; lia).
    rewrite Hdq. change (fexp f32_prec f32_emax (24 + -24) - -24) with 0.
    cbn [shr shr_m]. change (-24 <=? f32_emax - f32_prec) with true. cbn iota.
    rewrite compare_f32_half. change (-24 ?= -24) with Eq. cbn iota.
    destruct (Z.compare_spec (Z.pos q) (2 ^ 23)) as [| |]; [by eexists | lia | by eexists].
Qed.

(** ** The rounding lambda on numbers with a fractional part *)

Lemma rem_2_even (f : Z) : (Z.rem f 2 =? 0) = Z.even f.
Proof.
  destruct (Z.even f) eqn:E.
  - apply Z.eqb_eq. apply Z.even_spec in E as [h ->].
    rewrite Z.mul_comm. apply Z.rem_mul. lia.
  - apply Z.eqb_neq. intros H.
    assert (Z.even f = true); [|congruence].
    apply Z.even_spec. exists (Z.quot f 2).
    pose proof (Z.quot_rem' f 2). lia.
Qed.

Lemma bankers_round_fraction (s : bool) (m : positive) (e : Z) :
  bounded f32_prec f32_emax m e = true -> e < 0 ->
  exists n,
    bankers_round (S754_finite s m e) = Some (Z_float n)
    /\ nearest_ties_even (cond_Zopp s (Z.pos m)) (- e) n.
Proof.
  intros Hb He. destruct (bounded_facts m e Hb) as (Hm & Hrange & Hnorm).
  destruct (floor_bounds s m (- e) Hm ltac:(lia)) as [Hf Hf0].
  assert (H2k : 0 < 2 ^ (- e)) by (apply Z.pow_pos_nonneg; lia).
  assert (Hdef := Z.div_mod (cond_Zopp s (Z.pos m)) (2 ^ (- e)) ltac:(lia)).
  assert (Hrem := Z.mod_pos_bound (cond_Zopp s (Z.pos m)) (2 ^ (- e)) ltac:(lia)).
  unfold bankers_round. rewrite f32_floor_finite, f32_sub_floor by done.
  set (M := cond_Zopp s (Z.pos m)) in *.
  set (f := M / 2 ^ (- e)) in *. set (R := M mod 2 ^ (- e)) in *.
  unfold f32_ltb, f32_eqb, SFltb, SFeqb, nearest_ties_even.
  destruct R as [|Rp|Rp] eqn:ER; [| |lia].
  - (* an integer *)
    exists f. split; [reflexivity|]. split; [|intros Htie]; lia.
  - destruct (Z.lt_ge_cases (Z.pos Rp) (2 ^ 24)) as [Hsmall | Hbig].
    + (* the subtraction is exact *)
      pose proof (compare_fraction_exact Rp (- e) ltac:(lia) ltac:(lia) Hsmall)
        as Hcmp.
      rewrite Z.opp_involutive in Hcmp. rewrite Hcmp. clear Hcmp.
      destruct (Z.compare_spec (2 * Z.pos Rp) (2 ^ (- e))) as [Htie | Hlt | Hgt].
      * rewrite f32_to_int_Z_float by lia. cbn [mbind option_bind].
        rewrite rem_2_even. destruct (Z.even f) eqn:Ef.
        -- exists f. split; [done|]. split; [lia | done].
        -- exists (f + 1). rewrite f32_add_one by lia. split; [done|].
           split; [lia|]. intros _. rewrite Z.even_add, Ef. done.
      * exists f. split; [done|]. split; [|intros Htie]; lia.
      * exists (f + 1). rewrite f32_add_one by lia. split; [done|].
        split; [|intros Htie]; lia.
    + (* the subtraction rounds: the number lies in (-1/2, 0) *)
      assert (Hs : s = true).
      { destruct s; [done|]. unfold M in *. cbn [cond_Zopp] in *.
        pose proof (Z.mod_le (Z.pos m) (2 ^ (- e)) ltac:(lia) ltac:(lia)). lia. }
      assert (Hk : 25 <= - e).
      { destruct (Z.le_gt_cases 25 (- e)) as [|Hlt]; [done|].
        assert (2 ^ (- e) <= 2 ^ 24) by (apply Z.pow_le_mono_r; lia). lia. }
      assert (Hpow : 2 ^ 24 <= 2 ^ (- e - 1)) by (apply Z.pow_le_mono_r; lia).
      assert (Hpow2 : 2 ^ (- e) = 2 * 2 ^ (- e - 1))
        by (rewrite <- Z.pow_succ_r by lia; f_equal; lia).
      unfold M in *. rewrite Hs in *. cbn [cond_Zopp] in *.
      assert (Hfm1 : f = -1) by nia.
      destruct (compare_fraction_rounded Rp (- e) ltac:(lia) ltac:(lia))
        as (c & Hcmp & Hc).
      rewrite Z.opp_involutive in Hcmp. rewrite Hcmp. clear Hcmp.
      rewrite Hfm1. exists 0.
      destruct c; [| done |]; (split; [reflexivity|]);
        (split; [|intros Htie]; lia).
Qed.

(** ** Integers and dyadic numbers as rationals *)





Lemma bankers_round_integer (s : bool) (m : positive) (e : Z) :
  0 <= e -> bankers_round (S754_finite s m e) = Some (S754_finite s m e).
Proof.
  intros He. unfold bankers_round, f32_floor.
  replace (0 <=? e) with true by (symmetry; by apply Z.leb_le).
  unfold f32_sub, SFsub. rewrite Z.min_id, Z.sub_diag. reflexivity.
Qed.




(** * Further properties of the Gather-ND kernel *)

(** ** What the kernel writes *)

Lemma buffer_write_ok {T : Type} (output output' : list T) pos x :
  buffer_write output pos x = ok output' ->
  (Z.to_nat pos < length output)%nat /\ output' = <[Z.to_nat pos := x]> output.
Proof.
  unfold buffer_write. case_bool_decide; [|done]. intros [= <-]. done.
Qed.

Lemma gather_nd_callable_ok {T : Type} (input : list T) in_shape in_strides
    out_strides indices indices_shape batch_dims out_index (output output' : list T) :
  gather_nd_callable input in_shape in_strides out_strides indices indices_shape
    batch_dims out_index output = ok output' ->
  exists (i : nat) (x : T),
    input !! i = Some x
    /\ (Z.to_nat (offset out_strides out_index) < length output)%nat
    /\ output' = <[Z.to_nat (offset out_strides out_index) := x]> output.
Proof.
  unfold gather_nd_callable. intros H.
  destruct (gather_nd_in_index _ _ _ _ _) as [st| | |]; cbn in H; try done.
  unfold buffer_read in H.
  destruct (input !! _) as [x|] eqn:Hx; cbn in H; [|done].
  apply buffer_write_ok in H as [Hlt ->]. eauto.
Qed.

Lemma apply_indices_gather_nd {T : Type} (input : list T) in_shape in_strides
    out_strides indices indices_shape batch_dims (l : list runtime_shape_t) :
  forall output output' : list T,
    apply_indices l
      (gather_nd_callable input in_shape in_strides out_strides indices indices_shape
         batch_dims) output = ok output' ->
    length output' = length output
    /\ (forall j : nat,
          output' !! j = output !! j
          \/ ((exists out_index, out_index ∈ l
                                 /\ j = Z.to_nat (offset out_strides out_index))
              /\ exists (i : nat) (x : T), input !! i = Some x /\ output' !! j = Some x))
    /\ (forall out_index, out_index ∈ l ->
          exists (i : nat) (x : T),
            input !! i = Some x
            /\ output' !! Z.to_nat (offset out_strides out_index) = Some x).
Proof.
  induction l as [|index l IH]; intros output output' H; cbn [apply_indices] in H.
  - injection H as ->. split; [done|]. split; [by left|].
    intros out_index Hin. by apply elem_of_nil in Hin.
  - destruct (gather_nd_callable _ _ _ _ _ _ _ index output) as [o1| | |] eqn:Hstep;
      cbn in H; try done.
    apply gather_nd_callable_ok in Hstep as (i & x & Hx & Hlt & ->).
    destruct (IH _ _ H) as (Hlen & Hj & Hwritten). rewrite length_insert in Hlen.
    split; [done|]. split.
    + intros j. destruct (Hj j) as [Hsame | [(idx & Hidx & ->) Hin]].
      * destruct (decide (j = Z.to_nat (offset out_strides index))) as [-> | Hne].
        -- right. split; [exists index; split; [apply list_elem_of_here | done]|].
           exists i, x. split; [done|]. rewrite Hsame. by apply list_lookup_insert_eq.
        -- left. rewrite Hsame. by apply list_lookup_insert_ne.
      * right. split; [|done]. exists idx.
        split; [by apply list_elem_of_further | done].
    + intros out_index [-> | Hin]%elem_of_cons; [|by apply Hwritten].
      destruct (Hj (Z.to_nat (offset out_strides index))) as [Hsame | [_ Hin]];
        [|done].
      exists i, x. split; [done|]. rewrite Hsame. by apply list_lookup_insert_eq.
Qed.

(** X1.  A successful Gather-ND call only copies: the output keeps its
    length, and every element of it is either the element that was there
    before, or sits at the offset of an index of the output shape and is an
    element of the input. *)
Theorem gather_nd_copies_input_elements {T : Type} (input output output' : list T)
    (in_shape out_shape in_strides out_strides : runtime_shape_t)
    (indices : list Z) (indices_shape : runtime_shape_t) (batch_dims : Z) :
  gather_nd_impl input in_shape out_shape in_strides out_strides indices indices_shape
    batch_dims output = ok output' ->
  length output' = length output
  /\ forall j : nat,
       output' !! j = output !! j
       \/ ((exists out_index, out_index ∈ all_indices out_shape
                              /\ j = Z.to_nat (offset out_strides out_index))
           /\ exists (i : nat) (x : T), input !! i = Some x /\ output' !! j = Some x).
Proof.
  intros Hrun. unfold gather_nd_impl, apply in Hrun.
  destruct (apply_indices_gather_nd input in_shape in_strides out_strides indices
              indices_shape batch_dims (all_indices out_shape) output output' Hrun)
    as (Hlen & Hj & _).
  split; [exact Hlen | exact Hj].
Qed.

Lemma gather_nd_copies_input_elements_witness :
  length [3; 4; 1; 2] = length [0; 0; 0; 0]
  /\ forall j : nat,
       [3; 4; 1; 2] !! j = [0; 0; 0; 0] !! j
       \/ ((exists out_index, out_index ∈ all_indices [2; 2]
                              /\ j = Z.to_nat (offset [2; 1] out_index))
           /\ exists (i : nat) (x : Z), [1; 2; 3; 4] !! i = Some x
                                        /\ [3; 4; 1; 2] !! j = Some x).
Proof.
  apply (gather_nd_copies_input_elements [1; 2; 3; 4] [0; 0; 0; 0] [3; 4; 1; 2]
           [2; 2] [2; 2] [2; 1] [2; 1] [1; 0] [2; 1] 0).
  vm_compute. reflexivity.
Defined.

(** ** Arguments that the kernel does not validate *)

(** X3.  An indices tensor of rank 0 is not rejected: [indices_shape.size()
    - 1] wraps around, and for every output index the kernel accesses a
    vector outside its bounds. *)
Theorem gather_nd_scalar_indices_undefined {T : Type} (input output : list T)
    (in_shape out_shape in_strides out_strides : runtime_shape_t)
    (indices : list Z) (batch_dims : Z) :
  all_indices out_shape <> [] ->
  gather_nd_impl input in_shape out_shape in_strides out_strides indices []
    batch_dims output
  = undefined vector_index_out_of_range.
Proof.
  intros Hne. unfold gather_nd_impl, apply.
  destruct (all_indices out_shape) as [|out_index l]; [done|].
  cbn [apply_indices].
  replace (gather_nd_callable input in_shape in_strides out_strides indices []
             batch_dims out_index output)
    with (@undefined (list T) vector_index_out_of_range); [done|].
  unfold gather_nd_callable, gather_nd_in_index, gather_nd_fuel, batch_loop,
    indices_coord_loop.
  cbn [while_loop length replicate mbind result_bind i_index o_index in_index
         indices_index].
  unfold vec_at, vec_set. cbn [length].
  case_bool_decide; cbn [mbind result_bind].
  - destruct (out_index !! Z.to_nat 0); cbn; [|done].
    rewrite (bool_decide_eq_false_2 (Z.to_nat 0 < 0)%nat) by lia. done.
  - rewrite (bool_decide_eq_true_2 (_ < size_t_wrap _)) by (by vm_compute).
    cbn [mbind result_bind o_index indices_index].
    destruct (out_index !! Z.to_nat 0); cbn; [|done].
    rewrite (bool_decide_eq_false_2 (Z.to_nat 0 < 0)%nat) by lia. done.
Qed.

Lemma gather_nd_scalar_indices_undefined_witness :
  gather_nd_impl [1; 2; 3; 4] [2; 2] [2] [2; 1] [1] [0] [] 0 [0; 0]
  = undefined vector_index_out_of_range.
Proof.
  apply (gather_nd_scalar_indices_undefined [1; 2; 3; 4] [0; 0] [2; 2] [2] [2; 1] [1]
           [0] 0).
  vm_compute. discriminate.
Defined.

(** ** Gathering from a vector *)

Lemma all_indices_vector (m : Z) :
  all_indices [m] = (fun i => [i]) <$> seqZ 0 m.
Proof.
  cbn [all_indices]. generalize (seqZ 0 m) as l.
  induction l as [|i l IH]; [done|]. cbn. by f_equal.
Qed.

Lemma gather_nd_callable_vector {T : Type} (input output : list T) (idx : list Z)
    (j : nat) (i : Z) (x : T) :
  Z.of_nat (length idx) < size_t_modulus ->
  idx !! j = Some i ->
  0 <= i < size_t_modulus ->
  input !! Z.to_nat i = Some x ->
  (j < length output)%nat ->
  gather_nd_callable input [Z.of_nat (length input)] [1] [1] idx
    [Z.of_nat (length idx); 1] 0 [Z.of_nat j] output
  = ok (<[j := x]> output).
Proof.
  intros Hfit Hj Hi Hx Hlt. pose proof (lookup_lt_Some _ _ _ Hj) as Hjlt.
  assert (Hoff : forall z, 0 <= z < size_t_modulus -> offset [1] [z] = z).
  { intros z Hz. unfold offset. cbn [offset_sum].
    replace (z * 1 + 0) with z by lia. by apply size_t_wrap_small. }
  assert (Hbegin : offset (get_default_strides [Z.of_nat (length idx); 1])
                     (take 1 [Z.of_nat j] ++ [0]) = Z.of_nat j).
  { unfold offset. cbn [take app get_default_strides compute_size offset_sum].
    rewrite (size_t_wrap_small (1 * 1)) by (by vm_compute).
    replace (Z.of_nat j * (1 * 1) + (0 * 1 + 0)) with (Z.of_nat j) by lia.
    apply size_t_wrap_small. lia. }
  unfold gather_nd_callable.
  rewrite (gather_nd_in_index_spec [Z.of_nat (length input)] idx
             [Z.of_nat (length idx); 1] 0 [Z.of_nat j] 0 1 1);
    [| done | by vm_compute | done | done | cbn; lia | cbn; lia
     | rewrite Hbegin; lia].
  cbn [mbind result_bind in_index]. rewrite Hbegin, Nat2Z.id.
  rewrite (drop_S idx i j Hj). cbn [length take drop Nat.min Nat.sub app fmap list_fmap
                                      replicate].
  unfold int32_to_size_t. rewrite (size_t_wrap_small i) by done.
  rewrite !Hoff by lia. unfold buffer_read. rewrite Hx. cbn [mbind result_bind].
  unfold buffer_write. rewrite Nat2Z.id. by rewrite bool_decide_eq_true_2.
Qed.

Lemma gather_nd_vector_loop {T : Type} (input : list T) (idx : list Z) (r : nat) :
  Z.of_nat (length idx) < size_t_modulus ->
  Forall (fun i => 0 <= i < Z.of_nat (length input)) idx ->
  Z.of_nat (length input) <= size_t_modulus ->
  forall (k : nat) (output : list T),
    (k + r = length idx)%nat ->
    length output = length idx ->
    exists output',
      apply_indices ((fun i => [i]) <$> seqZ (Z.of_nat k) (Z.of_nat r))
        (gather_nd_callable input [Z.of_nat (length input)] [1] [1] idx
           [Z.of_nat (length idx); 1] 0)
        output
      = ok output'
      /\ length output' = length idx
      /\ (forall j i, (k <= j)%nat -> idx !! j = Some i ->
                      output' !! j = input !! Z.to_nat i)
      /\ (forall j, (j < k)%nat -> output' !! j = output !! j).
Proof.
  intros Hfit Hidx Hinput. induction r as [|r IH]; intros k output Hk Hlen.
  - exists output. cbn. repeat split; try done.
    intros j i Hj Hi. apply lookup_lt_Some in Hi. lia.
  - rewrite seqZ_cons by lia. cbn [fmap list_fmap apply_indices].
    destruct (lookup_lt_is_Some_2 idx k ltac:(lia)) as [i Hi].
    pose proof (proj1 (Forall_lookup _ _) Hidx k i Hi) as Hrange. cbn in Hrange.
    destruct (lookup_lt_is_Some_2 input (Z.to_nat i) ltac:(lia)) as [x Hx].
    rewrite (gather_nd_callable_vector input output idx k i x) by (done || lia).
    cbn [mbind result_bind].
    replace (Z.succ (Z.of_nat k)) with (Z.of_nat (S k)) by lia.
    replace (Z.pred (Z.of_nat (S r))) with (Z.of_nat r) by lia.
    destruct (IH (S k) (<[k := x]> output)) as (output' & Hrun & Hlen' & Hset & Hkeep);
      [lia | by rewrite length_insert|].
    exists output'. split; [done|]. split; [done|]. split.
    + intros j i' Hj Hi'. destruct (decide (j = k)) as [-> | Hne].
      * rewrite Hkeep by lia. rewrite list_lookup_insert_eq by lia. congruence.
      * apply Hset; [lia | done].
    + intros j Hj. rewrite Hkeep by lia. apply list_lookup_insert_ne. lia.
Qed.

(** X4.  Gathering from a vector is indexing: for an input of one
    dimension and an indices tensor of shape [[m; 1]] whose values are
    inside the input, output element [j] is the input element at index
    [indices[j]]; with the indices [0, 1, ..., m-1] the output is a copy of
    the input. *)
Theorem gather_nd_vector_lookup {T : Type} (input output : list T) (idx : list Z) :
  length output = length idx ->
  Z.of_nat (length idx) < size_t_modulus ->
  Z.of_nat (length input) <= size_t_modulus ->
  Forall (fun i => 0 <= i < Z.of_nat (length input)) idx ->
  exists output',
    gather_nd_impl input [Z.of_nat (length input)] [Z.of_nat (length idx)] [1] [1] idx
      [Z.of_nat (length idx); 1] 0 output
    = ok output'
    /\ length output' = length idx
    /\ (forall j i, idx !! j = Some i -> output' !! j = input !! Z.to_nat i)
    /\ (idx = seqZ 0 (Z.of_nat (length input)) -> output' = input).
Proof.
  intros Hlen Hfit Hinput Hidx. unfold gather_nd_impl, apply.
  rewrite all_indices_vector.
  destruct (gather_nd_vector_loop input idx (length idx) Hfit Hidx Hinput 0 output)
    as (output' & Hrun & Hlen' & Hset & _); [lia | done|].
  exists output'. split; [exact Hrun|]. split; [done|].
  split; [intros j i Hj; apply Hset; [lia | done]|].
  intros Hid. apply list_eq. intros j.
  assert (Hm : length idx = length input) by (rewrite Hid, length_seqZ; lia).
  destruct (decide (j < length idx)%nat) as [Hj | Hj].
  - rewrite (Hset j (Z.of_nat j)); [by rewrite Nat2Z.id | lia|].
    rewrite Hid. rewrite lookup_seqZ. split; [lia|lia].
  - rewrite !lookup_ge_None_2; [done | lia | lia].
Qed.

Lemma gather_nd_vector_lookup_witness :
  exists output',
    gather_nd_impl [10; 20; 30] [Z.of_nat 3] [Z.of_nat 2] [1] [1] [2; 0]
      [Z.of_nat 2; 1] 0 [0; 0]
    = ok output'
    /\ length output' = 2%nat
    /\ (forall j i, [2; 0] !! j = Some i -> output' !! j = [10; 20; 30] !! Z.to_nat i)
    /\ ([2; 0] = seqZ 0 (Z.of_nat 3) -> output' = [10; 20; 30]).
Proof.
  apply (gather_nd_vector_lookup [10; 20; 30] [0; 0] [2; 0]).
  - reflexivity.
  - reflexivity.
  - simpl. unfold size_t_modulus. lia.
  - repeat (constructor; [simpl; lia|]). constructor.
Defined.




(** ** Calls whose indices are in bounds *)

Lemma elements_pos (shape : runtime_shape_t) :
  Forall (fun d => 0 < d) shape -> 0 < element_count shape.
Proof.
  induction 1 as [|d shape Hd _ IH]; [done|].
  change (element_count (d :: shape)) with (d * element_count shape). lia.
Qed.

Lemma compute_size_elements (shape : runtime_shape_t) :
  Forall (fun d => 0 < d) shape -> element_count shape < size_t_modulus ->
  compute_size shape = element_count shape.
Proof.
  induction 1 as [|d shape Hd Hpos IH]; intros Hfit; [done|].
  change (element_count (d :: shape)) with (d * element_count shape) in *.
  pose proof (elements_pos shape Hpos). cbn [compute_size].
  rewrite IH by nia. apply size_t_wrap_small. nia.
Qed.

Lemma index_in_shape_pos (index shape : runtime_shape_t) :
  index_in_shape index shape -> Forall (fun d => 0 < d) shape.
Proof. induction 1; constructor; [lia | done]. Qed.

Lemma offset_sum_in_shape (index shape : runtime_shape_t) :
  index_in_shape index shape -> element_count shape < size_t_modulus ->
  0 <= offset_sum (get_default_strides shape) index < element_count shape.
Proof.
  induction 1 as [|i d index shape Hi Hrest IH]; intros Hfit; [by cbn|].
  change (element_count (d :: shape)) with (d * element_count shape) in *.
  pose proof (index_in_shape_pos _ _ Hrest) as Hpos.
  pose proof (elements_pos shape Hpos).
  cbn [get_default_strides offset_sum].
  rewrite compute_size_elements by (done || nia).
  specialize (IH ltac:(nia)). nia.
Qed.

Lemma offset_in_shape (index shape : runtime_shape_t) :
  index_in_shape index shape -> element_count shape < size_t_modulus ->
  0 <= offset (get_default_strides shape) index < element_count shape.
Proof.
  intros Hin Hfit. pose proof (offset_sum_in_shape _ _ Hin Hfit).
  unfold offset. rewrite size_t_wrap_small; lia.
Qed.

Lemma all_indices_in_shape (shape index : runtime_shape_t) :
  index ∈ all_indices shape -> index_in_shape index shape.
Proof.
  revert index. induction shape as [|d shape IH]; intros index Hin; cbn in Hin.
  - apply list_elem_of_singleton in Hin. subst. constructor.
  - apply list_elem_of_bind in Hin as (i & Hin & Hi).
    apply list_elem_of_fmap in Hin as (index' & -> & Hin).
    apply elem_of_seqZ in Hi. constructor; [lia | by apply IH].
Qed.

Lemma element_count_nonneg (shape : runtime_shape_t) :
  Forall (fun d => 0 <= d) shape -> 0 <= element_count shape.
Proof.
  induction 1 as [|d shape Hd _ IH]; [done|].
  change (element_count (d :: shape)) with (d * element_count shape). lia.
Qed.

Lemma element_count_pos_dims (shape : runtime_shape_t) :
  Forall (fun d => 0 <= d) shape -> 0 < element_count shape ->
  Forall (fun d => 0 < d) shape.
Proof.
  induction 1 as [|d shape Hd Hnonneg IH]; intros Hpos; [done|].
  change (element_count (d :: shape)) with (d * element_count shape) in Hpos.
  pose proof (element_count_nonneg shape Hnonneg).
  constructor; [nia | apply IH; nia].
Qed.

(** Every offset below the number of elements is the offset of an index
    of the shape. *)
Lemma all_indices_offset_surjective (shape : runtime_shape_t) :
  Forall (fun d => 0 <= d) shape -> element_count shape < size_t_modulus ->
  forall j : Z,
    0 <= j < element_count shape ->
    exists index,
      index ∈ all_indices shape /\ offset (get_default_strides shape) index = j.
Proof.
  intros Hnonneg Hfit j Hj.
  assert (exists index, index ∈ all_indices shape
                        /\ offset_sum (get_default_strides shape) index = j)
    as (index & Hin & Hsum).
  { revert j Hj. induction Hnonneg as [|d shape Hd Hnonneg IH]; intros j Hj.
    - exists []. split; [apply list_elem_of_here|]. cbn in *. lia.
    - change (element_count (d :: shape)) with (d * element_count shape) in *.
      pose proof (element_count_nonneg shape Hnonneg) as HP.
      assert (HP0 : 0 < element_count shape) by nia.
      assert (Hd0 : 0 < d) by nia.
      destruct (IH ltac:(nia) (j mod element_count shape)) as (index & Hin & Hsum).
      { apply Z.mod_pos_bound. lia. }
      exists (j / element_count shape :: index). split.
      + cbn [all_indices]. apply list_elem_of_bind.
        exists (j / element_count shape). split.
        * apply list_elem_of_fmap. by exists index.
        * apply elem_of_seqZ. split; [apply Z.div_pos; lia|].
          rewrite Z.add_0_l. apply Z.div_lt_upper_bound; lia.
      + cbn [get_default_strides offset_sum]. rewrite Hsum.
        rewrite compute_size_elements
          by (by apply element_count_pos_dims || nia).
        pose proof (Z.div_mod j (element_count shape) ltac:(lia)). lia. }
  exists index. split; [done|]. unfold offset. rewrite Hsum.
  apply size_t_wrap_small. lia.
Qed.

(** X6.  A call whose computed input indices all lie inside the input
    shape succeeds and fills the output: with the shapes of a Gather-ND (as
    in C2), contiguous input and output buffers of the sizes of their
    shapes, and every input index that the three zones give inside
    [in_shape], no access leaves a vector or a buffer, the call returns
    [ok], and every element of the output is an element of the input:
    nothing of what the output held before is left. *)
Theorem gather_nd_in_bounds_succeeds {T : Type} (input output : list T)
    (in_shape out_shape : runtime_shape_t)
    (indices : list Z) (indices_shape : runtime_shape_t) (bd last K : nat) :
  length indices_shape = S last ->
  Z.of_nat last < size_t_modulus ->
  indices_shape !! last = Some (Z.of_nat K) ->
  (bd <= last <= length out_shape)%nat ->
  (bd + K <= length in_shape)%nat ->
  Forall (fun d => 0 <= d) out_shape ->
  Z.of_nat (length input) = element_count in_shape ->
  Z.of_nat (length output) = element_count out_shape ->
  element_count in_shape < size_t_modulus ->
  element_count out_shape < size_t_modulus ->
  Forall (fun out_index =>
            indices_rows_in_range indices indices_shape last K out_index
            /\ index_in_shape
                 (spec_input_index in_shape indices indices_shape bd last K out_index)
                 in_shape)
         (all_indices out_shape) ->
  exists output',
    gather_nd_impl input in_shape out_shape (get_default_strides in_shape)
      (get_default_strides out_shape) indices indices_shape (Z.of_nat bd) output
    = ok output'
    /\ length output' = length output
    /\ forall j : nat,
         (j < length output)%nat ->
         exists (i : nat) (x : T), input !! i = Some x /\ output' !! j = Some x.
Proof.
  intros Hrank Hsmall HK Hbd Hin Hnonneg Hinput Houtput Hfit_in Hfit_out Hvalid.
  assert (Hrun : exists output',
    gather_nd_impl input in_shape out_shape (get_default_strides in_shape)
      (get_default_strides out_shape) indices indices_shape (Z.of_nat bd) output
    = ok output').
  { unfold gather_nd_impl, apply.
    assert (Hall : Forall (fun out_index => index_in_shape out_index out_shape)
                     (all_indices out_shape)).
    { apply Forall_forall. intros. by apply all_indices_in_shape. }
    revert Hvalid Hall Houtput. generalize (all_indices out_shape) as l.
    intros l. revert output.
    induction l as [|out_index l IH]; intros output Hvalid Hall Houtput.
    - by exists output.
    - apply Forall_cons in Hvalid as [[Hrows Hidx] Hvalid].
      apply Forall_cons in Hall as [Hout Hall].
      cbn [apply_indices]. unfold gather_nd_callable.
      assert (Hlen : length out_index = length out_shape)
        by (by apply Forall2_length in Hout).
      rewrite (gather_nd_in_index_spec in_shape indices indices_shape (Z.of_nat bd)
                 out_index bd last K);
        [| done | done | done | done | lia | done | exact Hrows].
      cbn [mbind result_bind in_index].
      fold (spec_indices_coordinate last out_index).
      fold (spec_index_vector indices indices_shape last K out_index).
      fold (spec_block_rank in_shape bd last K out_index).
      fold (spec_input_index in_shape indices indices_shape bd last K out_index).
      pose proof (offset_in_shape _ _ Hidx Hfit_in) as Hoff_in.
      pose proof (offset_in_shape _ _ Hout Hfit_out) as Hoff_out.
      unfold buffer_read.
      destruct (lookup_lt_is_Some_2 input
                  (Z.to_nat (offset (get_default_strides in_shape)
                     (spec_input_index in_shape indices indices_shape bd last K
                        out_index)))) as [x Hx]; [lia|].
      rewrite Hx. cbn [mbind result_bind]. unfold buffer_write.
      rewrite bool_decide_eq_true_2 by lia.
      apply IH; [done | done | by rewrite length_insert]. }
  destruct Hrun as [output' Hrun]. exists output'. split; [exact Hrun|].
  unfold gather_nd_impl, apply in Hrun.
  destruct (apply_indices_gather_nd input in_shape (get_default_strides in_shape)
              (get_default_strides out_shape) indices indices_shape (Z.of_nat bd)
              (all_indices out_shape) output output' Hrun)
    as (Hlen & _ & Hwritten).
  split; [exact Hlen|]. intros j Hj.
  destruct (all_indices_offset_surjective out_shape Hnonneg Hfit_out (Z.of_nat j)
              ltac:(lia)) as (out_index & Hmem & Hoff).
  destruct (Hwritten out_index Hmem) as (i & x & Hx & Hout).
  exists i, x. split; [done|]. by rewrite Hoff, Nat2Z.id in Hout.
Qed.

Lemma gather_nd_in_bounds_succeeds_witness :
  exists output',
    gather_nd_impl [1; 2; 3; 4] [2; 2] [2; 2] (get_default_strides [2; 2])
      (get_default_strides [2; 2]) [1; 0] [2; 1] (Z.of_nat 0) [0; 0; 0; 0]
    = ok output'
    /\ length output' = length [0; 0; 0; 0]
    /\ forall j : nat,
         (j < length [0; 0; 0; 0])%nat ->
         exists (i : nat) (x : Z), [1; 2; 3; 4] !! i = Some x /\ output' !! j = Some x.
Proof.
  apply (gather_nd_in_bounds_succeeds [1; 2; 3; 4] [0; 0; 0; 0] [2; 2] [2; 2]
           [1; 0] [2; 1] 0 1 1).
  - reflexivity.
  - reflexivity.
  - reflexivity.
  - simpl. lia.
  - simpl. lia.
  - repeat (constructor; [lia|]). constructor.
  - reflexivity.
  - reflexivity.
  - reflexivity.
  - reflexivity.
  - change (all_indices [2; 2]) with [[0; 0]; [0; 1]; [1; 0]; [1; 1]].
    repeat (constructor;
            [split;
             [ unfold indices_rows_in_range; vm_compute; lia
             | match goal with
               | |- index_in_shape ?index _ =>
                   let v := eval vm_compute in index in
                   replace index with v by (vm_compute; reflexivity)
               end;
               repeat (constructor; [lia|]); constructor ]|]).
    constructor.
Defined.

(** * Further properties of the evaluator *)

(** ** The registration table *)

(** X7.  No operator kind is registered twice: every registration of
    [register_neutral_evaluators] is the one that a lookup of its kind
    finds, whether a second registration would replace the first or be
    dropped. *)
Theorem registrations_all_effective :
  NoDup (register_neutral_evaluators.*1)
  /\ forall (op : node_opcode) (f : evaluator),
       (op, f) ∈ register_neutral_evaluators -> get_evaluator op = Some f.
Proof.
  split.
  - apply (bool_decide_unpack _). by vm_compute.
  - intros op f Hin. unfold register_neutral_evaluators in Hin.
    repeat (apply elem_of_cons in Hin as [[= -> ->] | Hin]; [reflexivity|]).
    by apply elem_of_nil in Hin.
Qed.

Lemma registrations_all_effective_witness :
  get_evaluator op_gather_nd = Some (kernel_evaluator k_gather_nd).
Proof.
  apply (proj2 registrations_all_effective op_gather_nd (kernel_evaluator k_gather_nd)).
  unfold register_neutral_evaluators. do 25 apply list_elem_of_further.
  apply list_elem_of_here.
Defined.

(** ** Assertions and the build *)

Ltac evaluator_cases n :=
  cbn [with_NDEBUG NDEBUG kernels neutral libm mbind outcome_bind];
  repeat match goal with
    | |- context [input_at n ?i] =>
        destruct (input_at n i) as [?c| | |];
        cbn [with_NDEBUG NDEBUG kernels neutral libm mbind outcome_bind]
    | |- context [output_at n ?i] =>
        destruct (output_at n i) as [?c| | |];
        cbn [with_NDEBUG NDEBUG kernels neutral libm mbind outcome_bind]
    | |- context [is_type ?t ?c] =>
        destruct (is_type t c);
        cbn [with_NDEBUG NDEBUG kernels neutral libm mbind outcome_bind]
    end.

(** X8.  Defining [NDEBUG] changes the outcome of a registered evaluator
    only where the build with assertions ends in a failed [assert]: on
    every node on which that build does anything else, the two builds do
    the same. *)
Theorem NDEBUG_changes_only_failed_assertions (env : environment) (n : node)
    (ctx : module_evaluate_context) (op : node_opcode) (f : evaluator) :
  (op, f) ∈ register_neutral_evaluators ->
  (exists expression,
      f (with_NDEBUG false env) n ctx = AssertionFailure expression)
  \/ f (with_NDEBUG true env) n ctx = f (with_NDEBUG false env) n ctx.
Proof.
  intros Hin. unfold register_neutral_evaluators in Hin.
  repeat (apply elem_of_cons in Hin as [[= -> ->] | Hin];
          [ try (by right);
            unfold float_kernel_evaluator, binary_evaluator, typed_neutral_evaluator,
              matmul_evaluator, dequantize_evaluator, unary_evaluator,
              clamp_evaluator, assert_;
            evaluator_cases n; eauto |]).
  all: try (by apply elem_of_nil in Hin).
  (* dequantize: the [default] case of the [switch] *)
  match goal with
  | |- context [memory_at ctx ?c ≫= _] =>
      destruct (memory_at ctx c) as [output| | |]; cbn [mbind outcome_bind]; eauto
  end.
  match goal with
  | |- context [conn_type ?c] => destruct (conn_type c); eauto
  end.
Qed.

Lemma NDEBUG_changes_only_failed_assertions_witness :
  (exists expression,
      clamp_evaluator (with_NDEBUG false example_env) example_clamp_uint8 example_context
      = AssertionFailure expression)
  \/ clamp_evaluator (with_NDEBUG true example_env) example_clamp_uint8 example_context
     = clamp_evaluator (with_NDEBUG false example_env) example_clamp_uint8
         example_context.
Proof.
  apply (NDEBUG_changes_only_failed_assertions example_env example_clamp_uint8
           example_context op_clamp clamp_evaluator).
  unfold register_neutral_evaluators. do 22 apply list_elem_of_further.
  apply list_elem_of_here.
Defined.

(** X9.  With assertions compiled in, the evaluator of an operator kind
    that asserts the element type of its first input, given a node whose
    first input is declared with another type, ends in the failed [assert]
    before it looks up any binding or touches memory. *)
Theorem mistyped_input_fails_assertion (env : environment) (n : node)
    (ctx : module_evaluate_context) (f : evaluator) (input_c : connector)
    (t : datatype_t) :
  asserted_input_type (runtime_opcode n) = Some t ->
  get_evaluator (runtime_opcode n) = Some f ->
  NDEBUG env = false ->
  inputs n !! 0%nat = Some input_c ->
  conn_type input_c <> t ->
  (runtime_opcode n ∈ [op_binary; op_matmul] -> is_Some (inputs n !! 1%nat)) ->
  exists expression, f env n ctx = AssertionFailure expression.
Proof.
  intros Ht Hf Hdebug Hin Htype Hsecond.
  assert (Hassert : forall s, assert_ env (is_type t input_c) s = AssertionFailure s).
  { intros s. unfold assert_, is_type.
    by rewrite Hdebug, bool_decide_eq_false_2. }
  destruct (runtime_opcode n); try discriminate Ht; injection Ht as <-;
    injection Hf as <-;
    unfold float_kernel_evaluator, binary_evaluator, typed_neutral_evaluator,
      matmul_evaluator, unary_evaluator, clamp_evaluator;
    rewrite (input_at_Some _ _ _ Hin); cbn [mbind outcome_bind].
  all: try (rewrite Hassert; by eexists).
  all: destruct Hsecond as [input_b Hb];
    [ (apply list_elem_of_here || apply list_elem_of_further, list_elem_of_here) |].
  all: rewrite (input_at_Some _ _ _ Hb); cbn [mbind outcome_bind].
  all: rewrite Hassert; by eexists.
Qed.

Lemma mistyped_input_fails_assertion_witness :
  exists expression,
    clamp_evaluator example_env example_clamp_uint8 example_context
    = AssertionFailure expression.
Proof.
  apply (mistyped_input_fails_assertion example_env example_clamp_uint8 example_context
           clamp_evaluator (example_connector 0 dt_uint8) dt_float32).
  - reflexivity.
  - reflexivity.
  - reflexivity.
  - reflexivity.
  - simpl. discriminate.
  - simpl. intros H.
    apply elem_of_cons in H as [H | H]; [discriminate H|].
    apply elem_of_cons in H as [H | H]; [discriminate H|].
    by apply elem_of_nil in H.
Defined.

(** X10.  A dequantize node whose input type is none of uint8, int8 and
    int32 is loud only where assertions are compiled in: there the closure
    stops at the [assert] of the [default] case; with [NDEBUG] defined it
    returns as if it had succeeded, with the context as it was: the kernel
    is not called and nothing is written to the output. *)
Theorem unsupported_dequantize_by_build (env : environment) (n : node)
    (ctx : module_evaluate_context) (input_c output_c : connector) :
  inputs n !! 0%nat = Some input_c ->
  outputs n !! 0%nat = Some output_c ->
  is_Some (allocations ctx !! conn_id output_c) ->
  dequantize_supported (conn_type input_c) = false ->
  dequantize_evaluator env n ctx
  = if NDEBUG env then Normal ctx
    else AssertionFailure "false && not supported type!".
Proof.
  intros Hin Hout [output Hbound] Htype. unfold dequantize_evaluator.
  rewrite (input_at_Some _ _ _ Hin), (output_at_Some _ _ _ Hout).
  cbn [mbind outcome_bind]. rewrite (memory_at_bound _ _ _ Hbound).
  cbn [mbind outcome_bind]. unfold assert_.
  destruct (conn_type input_c); try discriminate Htype; by destruct (NDEBUG env).
Qed.

Lemma unsupported_dequantize_by_build_witness :
  dequantize_evaluator (with_NDEBUG true example_env) example_dequantize example_context
  = if NDEBUG (with_NDEBUG true example_env) then Normal example_context
    else AssertionFailure "false && not supported type!".
Proof.
  apply (unsupported_dequantize_by_build (with_NDEBUG true example_env)
           example_dequantize example_context (example_connector 1 dt_int16)
           (example_connector 3 dt_float32)).
  - reflexivity.
  - reflexivity.
  - vm_compute. by eexists.
  - reflexivity.
Defined.

(** ** The values that clamp writes *)

Lemma f32_ltb_irrefl (a : float32) : f32_ltb a a = false.
Proof.
  unfold f32_ltb, SFltb.
  destruct a as [[|]|[|]| |[|] m e]; cbn [SFcompare]; try done.
  all: rewrite Z.compare_refl, Pos.compare_cont_refl; done.
Qed.

Lemma std_clamp_within (a lo hi : float32) :
  f32_ltb hi lo = false ->
  f32_ltb (std_clamp a lo hi) lo = false /\ f32_ltb hi (std_clamp a lo hi) = false.
Proof.
  intros Hbounds. unfold std_clamp.
  destruct (f32_ltb a lo) eqn:Hlo; [by rewrite f32_ltb_irrefl|].
  destruct (f32_ltb hi a) eqn:Hhi; [by rewrite f32_ltb_irrefl | done].
Qed.

Lemma std_clamp_idempotent (a lo hi : float32) :
  f32_ltb hi lo = false ->
  std_clamp (std_clamp a lo hi) lo hi = std_clamp a lo hi.
Proof.
  intros Hbounds. destruct (std_clamp_within a lo hi Hbounds) as [Hlo Hhi].
  unfold std_clamp at 1. by rewrite Hlo, Hhi.
Qed.



(** X12.  Clamping twice is clamping once: where the high bound is not below
    the low bound, the output view is the input view itself or lies apart
    from it, and the first elements of the bounds lie outside the output,
    a second evaluation of the node finds nothing to change. *)
Theorem clamp_evaluator_idempotent (env : environment) (n : node)
    (ctx : module_evaluate_context)
    (input_c input_low_c input_high_c output_c : connector)
    (input input_low input_high output : evaluate_tensor)
    (low high : float32) (values : list float32) :
  inputs n = [input_c; input_low_c; input_high_c] ->
  outputs n !! 0%nat = Some output_c ->
  conn_type input_c = dt_float32 ->
  allocations ctx !! conn_id input_c = Some input ->
  allocations ctx !! conn_id input_low_c = Some input_low ->
  allocations ctx !! conn_id input_high_c = Some input_high ->
  allocations ctx !! conn_id output_c = Some output ->
  memory ctx !! buffer_start input_low = Some (float_cell low) ->
  memory ctx !! buffer_start input_high = Some (float_cell high) ->
  length values = buffer_size input ->
  (forall i a, values !! i = Some a ->
               memory ctx !! (buffer_start input + i)%nat = Some (float_cell a)) ->
  (buffer_start output + buffer_size input <= length (memory ctx))%nat ->
  (buffer_start output = buffer_start input
   \/ buffer_start output + buffer_size input <= buffer_start input
   \/ buffer_start input + buffer_size input <= buffer_start output)%nat ->
  ~ (buffer_start output <= buffer_start input_low
     < buffer_start output + buffer_size input)%nat ->
  ~ (buffer_start output <= buffer_start input_high
     < buffer_start output + buffer_size input)%nat ->
  f32_ltb high low = false ->
  exists mem',
    clamp_evaluator env n ctx = Normal (with_memory ctx mem')
    /\ clamp_evaluator env n (with_memory ctx mem') = Normal (with_memory ctx mem').
Proof.
  intros Hins Hout Htype Hi Hl Hh Ho Hlow Hhigh Hsize Hvalues Hfit Hplace
    Hlow_out Hhigh_out Hbounds.
  destruct (clamp_evaluator_spec env n ctx input_c input_low_c input_high_c output_c
              input input_low input_high output low high values)
    as (mem' & Hrun & Hlen & Hres & Hframe); try done; [lia|].
  exists mem'. split; [done|].
  set (values' := if decide (buffer_start output = buffer_start input)
                  then (fun a => std_clamp a low high) <$> values else values).
  assert (Hlen' : length values' = buffer_size input).
  { unfold values'. case_decide; [by rewrite length_fmap | done]. }
  assert (Hvalues' : forall i a, values' !! i = Some a ->
            mem' !! (buffer_start input + i)%nat = Some (float_cell a)).
  { intros i a Ha. unfold values' in Ha. pose proof (lookup_lt_Some _ _ _ Ha) as Hlt.
    case_decide as Hsame.
    - rewrite list_lookup_fmap in Ha.
      destruct (values !! i) as [a0|] eqn:Ha0; [|done]. injection Ha as <-.
      rewrite <- Hsame. by apply Hres.
    - rewrite Hframe by lia. by apply Hvalues. }
  destruct (clamp_evaluator_spec env n (with_memory ctx mem') input_c input_low_c
              input_high_c output_c input input_low input_high output low high values')
    as (mem'' & Hrun' & Hlen'' & Hres' & Hframe'); try done.
  { cbn [memory with_memory]. by rewrite Hframe. }
  { cbn [memory with_memory]. by rewrite Hframe. }
  { cbn [memory with_memory]. lia. }
  { lia. }
  rewrite Hrun'. cbn [with_memory allocations memory] in *. do 2 f_equal.
  apply list_eq. intros j.
  destruct (decide (buffer_start output <= j
                    < buffer_start output + buffer_size input)%nat) as [Hj | Hj].
  - replace j with (buffer_start output + (j - buffer_start output))%nat by lia.
    set (i := (j - buffer_start output)%nat).
    destruct (lookup_lt_is_Some_2 values i ltac:(lia)) as [a Ha].
    rewrite (Hres i a Ha). unfold values' in Hres'. case_decide as Hsame.
    + rewrite (Hres' i (std_clamp a low high)) by (by rewrite list_lookup_fmap, Ha).
      by rewrite std_clamp_idempotent.
    + by rewrite (Hres' i a Ha).
  - by apply Hframe'.
Qed.

Lemma clamp_evaluator_idempotent_witness :
  exists mem',
    clamp_evaluator example_env example_clamp example_context
    = Normal (with_memory example_context mem')
    /\ clamp_evaluator example_env example_clamp (with_memory example_context mem')
       = Normal (with_memory example_context mem').
Proof.
  apply (clamp_evaluator_idempotent example_env example_clamp example_context
              (example_connector 0 dt_float32) (example_connector 1 dt_float32)
              (example_connector 2 dt_float32) (example_connector 4 dt_float32)
              (example_tensor 0 3) (example_tensor 3 2) (example_tensor 5 1)
              (example_tensor 0 3)
              (S754_zero false) (S754_finite false (2 ^ 23) (-22))
              [ f32_half; S754_finite false (5 * 2 ^ 21) (-22);
                S754_finite true (2 ^ 23) (-24) ]).
  - reflexivity.
  - reflexivity.
  - reflexivity.
  - vm_compute. reflexivity.
  - vm_compute. reflexivity.
  - vm_compute. reflexivity.
  - vm_compute. reflexivity.
  - reflexivity.
  - reflexivity.
  - reflexivity.
  - intros [|[|[|i]]] a H; simpl in H; try discriminate H;
      injection H as <-; reflexivity.
  - simpl. lia.
  - left. reflexivity.
  - simpl. lia.
  - simpl. lia.
  - reflexivity.
Defined.

(** ** Rounding what is already rounded *)

Lemma int_float_bounded (p : positive) :
  Z.pos p < 2 ^ 24 ->
  bounded f32_prec f32_emax (int_mantissa p) (Z.pos (digits2_pos p) - 24) = true.
Proof.
  intros Hp. pose proof (digits2_pos_le_24 p Hp) as Hd.
  pose proof (Pos2Z.is_pos (digits2_pos p)) as Hd0.
  pose proof (int_mantissa_spec p Hp) as Hm.
  unfold bounded, canonical_mantissa. apply andb_true_iff. split.
  - apply Z.eqb_eq.
    rewrite (digits2_pos_shift p (int_mantissa p) (24 - Z.pos (digits2_pos p)))
      by (lia || done).
    rewrite f32_fexp. lia.
  - apply Z.leb_le. unfold f32_emax, f32_prec. lia.
Qed.

Lemma Z_float_valid (n : Z) :
  Z.abs n < 2 ^ 24 -> valid_binary f32_prec f32_emax (Z_float n) = true.
Proof.
  intros Hn. destruct n as [|p|p]; [done| |]; cbn [Z_float int_float valid_binary];
    apply int_float_bounded; lia.
Qed.

Lemma bankers_round_Z_float (n : Z) :
  Z.abs n < 2 ^ 24 -> bankers_round (Z_float n) = Some (Z_float n).
Proof.
  intros Hn. destruct (Z.eq_dec n 0) as [-> | Hnz]; [reflexivity|].
  assert (exists s p, Z_float n = int_float s p /\ n = cond_Zopp s (Z.pos p))
    as (s & p & Hfloat & Hnp).
  { destruct n as [|p|p]; [done | by exists false, p | by exists true, p]. }
  assert (Hp : Z.pos p < 2 ^ 24) by (destruct s; cbn in Hnp; lia).
  pose proof (digits2_pos_le_24 p Hp) as Hd.
  pose proof (Pos2Z.is_pos (digits2_pos p)) as Hd0.
  pose proof (int_mantissa_spec p Hp) as Hm.
  pose proof (int_float_bounded p Hp) as Hb.
  rewrite Hfloat. unfold int_float.
  destruct (Z.eq_dec (Z.pos (digits2_pos p)) 24) as [H24 | Hlt].
  - apply bankers_round_integer. lia.
  - set (e := Z.pos (digits2_pos p) - 24) in *.
    assert (He : e < 0) by lia.
    assert (H2k : 0 < 2 ^ (- e)) by (apply Z.pow_pos_nonneg; lia).
    assert (HM : cond_Zopp s (Z.pos (int_mantissa p)) = n * 2 ^ (- e)).
    { rewrite Hm, Hnp. replace (24 - Z.pos (digits2_pos p)) with (- e) by lia.
      destruct s; cbn [cond_Zopp]; lia. }
    unfold bankers_round.
    rewrite (f32_floor_finite s _ e Hb He).
    rewrite (f32_sub_floor s _ e Hb He).
    rewrite HM, Z.div_mul, Z.mod_mul by lia.
    cbn [binary_normalize]. rewrite Hfloat. reflexivity.
Qed.

(** X13.  The lambda of [unary_round] is defined on every binary32 value
    (the cast to [int] is never out of range), its result is again a
    binary32 value, rounding the result once more returns it unchanged, and
    infinities and NaN are returned as they are. *)
Theorem bankers_round_idempotent (a : float32) :
  valid_binary f32_prec f32_emax a = true ->
  exists r : float32,
    bankers_round a = Some r
    /\ valid_binary f32_prec f32_emax r = true
    /\ bankers_round r = Some r
    /\ (f32_is_finite a = false -> r = a).
Proof.
  intros Hvalid. destruct a as [s|s| |s m e].
  - exists (S754_zero s). by destruct s.
  - exists (S754_infinity s). by destruct s.
  - by exists S754_nan.
  - cbn [valid_binary] in Hvalid. destruct (Z.lt_ge_cases e 0) as [Hneg | Hpos].
    + destruct (bankers_round_fraction s m e Hvalid Hneg) as (n & Hround & Hnear).
      destruct (bounded_facts m e Hvalid) as (Hm & Hrange & _).
      assert (Hn : Z.abs n < 2 ^ 24).
      { destruct Hnear as [Hnear _].
        assert (0 < 2 ^ (- e)) by (apply Z.pow_pos_nonneg; lia).
        assert (2 <= 2 ^ (- e)).
        { change 2 with (2 ^ 1) at 1. apply Z.pow_le_mono_r; lia. }
        destruct s; cbn [cond_Zopp] in Hnear; nia. }
      exists (Z_float n). split; [done|].
      split; [by apply Z_float_valid|]. split; [by apply bankers_round_Z_float | done].
    + exists (S754_finite s m e). split; [by apply bankers_round_integer|].
      split; [done|]. split; [by apply bankers_round_integer | done].
Qed.

Lemma bankers_round_idempotent_witness :
  exists r : float32,
    bankers_round (S754_finite false (5 * 2 ^ 21) (-22)) = Some r
    /\ valid_binary f32_prec f32_emax r = true
    /\ bankers_round r = Some r
    /\ (f32_is_finite (S754_finite false (5 * 2 ^ 21) (-22)) = false ->
        r = S754_finite false (5 * 2 ^ 21) (-22)).
Proof.
  apply (bankers_round_idempotent (S754_finite false (5 * 2 ^ 21) (-22))).
  reflexivity.
Defined.

(** * Properties of the TFLite importer *)

(** ** The output tensors *)

Lemma find_tensor_spec (name : string) (ts : list tflite_tensor) :
  forall i0 : Z,
    0 <= i0 -> i0 + Z.of_nat (length ts) < size_t_modulus ->
    match find_tensor name ts i0 with
    | Some i =>
        exists (k : nat) (tensor : tflite_tensor),
          i = i0 + Z.of_nat k
          /\ ts !! k = Some tensor
          /\ tensor_name tensor = Some name
          /\ forall (j : nat) (tensor' : tflite_tensor),
               (j < k)%nat -> ts !! j = Some tensor' -> tensor_name tensor' <> Some name
    | None => forall tensor, tensor ∈ ts -> tensor_name tensor <> Some name
    end.
Proof.
  induction ts as [|t ts IH]; intros i0 Hi0 Hfit; cbn [find_tensor].
  - intros tensor Hin. by apply elem_of_nil in Hin.
  - cbn [length] in Hfit.
    assert (Hnext : size_t_wrap (i0 + 1) = i0 + 1)
      by (apply size_t_wrap_small; lia).
    assert (Hstep :
      tensor_name t <> Some name ->
      match find_tensor name ts (size_t_wrap (i0 + 1)) with
      | Some i =>
          exists (k : nat) (tensor : tflite_tensor),
            i = i0 + Z.of_nat k
            /\ (t :: ts) !! k = Some tensor
            /\ tensor_name tensor = Some name
            /\ forall (j : nat) (tensor' : tflite_tensor),
                 (j < k)%nat -> (t :: ts) !! j = Some tensor' ->
                 tensor_name tensor' <> Some name
      | None => forall tensor, tensor ∈ t :: ts -> tensor_name tensor <> Some name
      end).
    { intros Hne. rewrite Hnext. specialize (IH (i0 + 1) ltac:(lia) ltac:(lia)).
      destruct (find_tensor name ts (i0 + 1)) as [i|].
      - destruct IH as (k & tensor & -> & Hk & Hname & Hfirst).
        exists (S k), tensor. split; [lia|]. split; [done|]. split; [done|].
        intros [|j] tensor' Hj Hlook; cbn in Hlook.
        + by injection Hlook as <-.
        + apply (Hfirst j); [lia | done].
      - intros tensor [-> | Hin]%elem_of_cons; [done | by apply IH]. }
    destruct (tensor_name t) as [t_name|] eqn:Ht; [|by apply Hstep].
    case_decide as Heq; [|apply Hstep; congruence].
    exists 0%nat, t. split; [lia|]. split; [done|]. split; [by rewrite Ht, Heq|].
    intros j tensor' Hj. lia.
Qed.

Lemma find_tensor_name (name : string) (ts : list tflite_tensor) (i0 : Z) :
  find_tensor name ts i0 = None <->
  forall tensor, tensor ∈ ts -> tensor_name tensor <> Some name.
Proof.
  revert i0. induction ts as [|t ts IH]; intros i0; cbn [find_tensor].
  - split; [|done]. intros _ tensor Hin. by apply elem_of_nil in Hin.
  - destruct (tensor_name t) as [t_name|] eqn:Ht; [case_decide as Heq|].
    + split; [done|]. intros H. destruct (H t); [apply list_elem_of_here|].
      by rewrite Ht, Heq.
    + rewrite IH. split.
      * intros H tensor [-> | Hin]%elem_of_cons; [congruence | by apply H].
      * intros H tensor Hin. apply H. by apply list_elem_of_further.
    + rewrite IH. split.
      * intros H tensor [-> | Hin]%elem_of_cons; [congruence | by apply H].
      * intros H tensor Hin. apply H. by apply list_elem_of_further.
Qed.

Lemma find_outputs_spec (ts : list tflite_tensor) (names : list string) :
  Z.of_nat (length ts) <= 2 ^ 31 ->
  Forall (names_tensor ts) names ->
  forall acc : list Z,
    exists outputs,
      find_outputs names ts acc = Normal (acc ++ outputs)
      /\ Forall2 (first_tensor_named ts) names outputs.
Proof.
  intros Hfit. induction 1 as [|name names (tensor & Hin & Hname) _ IH]; intros acc.
  - exists []. by rewrite app_nil_r.
  - cbn [find_outputs].
    pose proof (find_tensor_spec name ts 0 ltac:(lia)
                  ltac:(unfold size_t_modulus; lia)) as Hfind.
    destruct (find_tensor name ts 0) as [i|]; [|by destruct (Hfind tensor Hin)].
    destruct Hfind as (k & tensor1 & -> & Hk & Hname1 & Hfirst).
    destruct (IH (acc ++ [int32_of_size_t (0 + Z.of_nat k)])) as (outputs & -> & Hall).
    exists (Z.of_nat k :: outputs). split.
    + rewrite <- (assoc_L (++)). do 2 f_equal. cbn [app]. f_equal.
      apply lookup_lt_Some in Hk. unfold int32_of_size_t.
      rewrite Z.mod_small; lia.
    + constructor; [|done]. by exists k, tensor1.
Qed.

(** X14.  With [output_arrays] given and each of its names the name of a
    tensor, the outputs are, name by name and in the order of the names,
    the index of the first tensor of that name: tensors without a name are
    passed over, and of two tensors of one name the first is taken. *)
Theorem select_outputs_by_name (options : import_options) (model_ : tflite_model) :
  output_arrays options <> [] ->
  Z.of_nat (length (tensors model_)) <= 2 ^ 31 ->
  Forall (names_tensor (tensors model_)) (output_arrays options) ->
  exists outputs,
    select_outputs options model_ = Normal outputs
    /\ Forall2 (first_tensor_named (tensors model_)) (output_arrays options) outputs.
Proof.
  intros Hnames Hfit Hfound. unfold select_outputs.
  rewrite bool_decide_eq_false_2 by done.
  destruct (find_outputs_spec (tensors model_) (output_arrays options) Hfit Hfound [])
    as (outputs & Hrun & Hall).
  by exists outputs.
Qed.

Lemma select_outputs_by_name_witness :
  exists outputs,
    select_outputs {| output_arrays := ["out"; "in"] |} example_model = Normal outputs
    /\ Forall2 (first_tensor_named (tensors example_model)) ["out"; "in"] outputs.
Proof.
  apply (select_outputs_by_name {| output_arrays := ["out"; "in"] |} example_model).
  - simpl. discriminate.
  - simpl. lia.
  - simpl. constructor; [|constructor; [|constructor]].
    + eexists. split; [apply list_elem_of_further, list_elem_of_further,
                         list_elem_of_further, list_elem_of_here | reflexivity].
    + eexists. split; [apply list_elem_of_here | reflexivity].
Defined.

(** A name of [output_arrays] that no tensor has makes the search of the
    outputs throw, for the first such name of the list. *)
Lemma select_outputs_missing (options : import_options) (model_ : tflite_model)
    (found : list string) (missing : string) (rest : list string) :
  output_arrays options = found ++ missing :: rest ->
  Forall (names_tensor (tensors model_)) found ->
  (forall tensor, tensor ∈ tensors model_ -> tensor_name tensor <> Some missing) ->
  select_outputs options model_
  = Throw (runtime_error ("Cannot find output tensor: " ++ missing)).
Proof.
  intros Hnames Hfound Hmissing. unfold select_outputs.
  rewrite bool_decide_eq_false_2 by (rewrite Hnames; by destruct found).
  rewrite Hnames. clear Hnames. generalize (@nil Z) as acc.
  induction Hfound as [|name found (tensor & Hin & Hname) _ IH]; intros acc;
    cbn [app find_outputs].
  - by rewrite (proj2 (find_tensor_name missing (tensors model_) 0) Hmissing).
  - destruct (find_tensor name (tensors model_) 0) as [i|] eqn:Hfind; [apply IH|].
    by destruct (proj1 (find_tensor_name name (tensors model_) 0) Hfind tensor Hin).
Qed.

Section tflite_importer_properties.
Context (get_shape : option (list Z) -> outcome runtime_shape_t).
Context (to_data_type : Z -> outcome datatype_t).
Context (model_ : tflite_model).

Lemma connect_tensor_cases (c : input_connector) (t : Z) (st st' : tflite_importer) :
  connect_tensor get_shape to_data_type model_ c t st = Normal st' ->
  (exists out, output_tensors_ st !! t = Some out /\ st' = connect c out st)
  \/ (output_tensors_ st !! t = None
      /\ exists data type dims name,
           constant_data model_ t = Some data
           /\ st' = connect c (node_output (length (graph_ st)))
                      (link_output_tensor t (node_output (length (graph_ st)))
                         (emplace (constant type dims data name) st).2))
  \/ (output_tensors_ st !! t = None /\ constant_data model_ t = None /\ st' = st).
Proof.
  unfold connect_tensor, constant_data. intros H.
  destruct (output_tensors_ st !! t) as [out|]; [left; exists out; by injection H|].
  right.
  destruct (vector_get (tensors model_) t) as [tensor| | |]; cbn in H; try done.
  destruct (vector_get (buffers model_) (tensor_buffer tensor)) as [[data|]| | |];
    cbn in H; try done.
  - left. split; [done|].
    destruct (to_data_type (tensor_type tensor)) as [type| | |]; cbn in H; try done.
    destruct (get_shape (tensor_shape tensor)) as [dims| | |]; cbn in H; try done.
    destruct (deref (tensor_name tensor)) as [name| | |]; cbn in H; try done.
    injection H as <-. by exists data, type, dims, name.
  - right. by injection H.
Qed.

Lemma connect_tensors_spec (links : list (input_connector * Z)) :
  forall st st' : tflite_importer,
    connect_tensors get_shape to_data_type model_ links st = Normal st' ->
    NoDup links.*1 ->
    (exists added, graph_ st' = graph_ st ++ added)
    /\ (forall t out, output_tensors_ st !! t = Some out ->
                      output_tensors_ st' !! t = Some out)
    /\ input_tensors_ st' = input_tensors_ st
    /\ (forall c, c ∉ links.*1 -> connection st' c = connection st c)
    /\ (forall c t, (c, t) ∈ links ->
          match output_tensors_ st !! t with
          | Some producer => connection st' c = Some producer
          | None =>
              match constant_data model_ t with
              | Some data => connected_to_constant st' c t data
              | None => connection st' c = connection st c
              end
          end).
Proof.
  induction links as [|[c t] links IH]; intros st st' Hrun Hnodup;
    cbn [connect_tensors] in Hrun.
  - injection Hrun as <-. split; [exists []; by rewrite app_nil_r|].
    repeat split; try done. intros c t Hin. by apply elem_of_nil in Hin.
  - destruct (connect_tensor get_shape to_data_type model_ c t st) as [st1| | |]
      eqn:Hstep; cbn in Hrun; try done.
    cbn [fmap list_fmap fst] in Hnodup. apply NoDup_cons in Hnodup as [Hc Hnodup].
    destruct (IH st1 st' Hrun Hnodup) as ((added & Hgraph) & Hmono & Hins & Hother & Hlinks).
    apply connect_tensor_cases in Hstep.
    assert (Hstep1 :
      (exists added1, graph_ st1 = graph_ st ++ added1)
      /\ (forall t' out, output_tensors_ st !! t' = Some out ->
                         output_tensors_ st1 !! t' = Some out)
      /\ input_tensors_ st1 = input_tensors_ st
      /\ (forall c', c' <> c -> connection st1 c' = connection st c')
      /\ (forall t' out, output_tensors_ st !! t' = None ->
                         output_tensors_ st1 !! t' = Some out ->
                         t' = t
                         /\ exists data con type dims name,
                              constant_data model_ t = Some data
                              /\ out = node_output con
                              /\ graph_ st1 !! con = Some (constant type dims data name))
      /\ match output_tensors_ st !! t with
         | Some producer => connection st1 c = Some producer
         | None =>
             match constant_data model_ t with
             | Some data => connected_to_constant st1 c t data
             | None => connection st1 c = connection st c
             end
         end).
    { destruct Hstep as [(out & Hout & ->) | [(Hnone & data & type & dims & name & Hdata & ->)
                                             | (Hnone & Hdata & ->)]].
      - cbn. split; [exists []; by rewrite app_nil_r|]. split; [done|]. split; [done|].
        split; [intros c' Hne; by rewrite decide_False|].
        split; [congruence|]. rewrite Hout. by rewrite decide_True.
      - cbn. split; [by eexists|].
        split.
        { intros t' out Hsome. rewrite lookup_insert_ne; [done | congruence]. }
        split; [done|]. split; [intros c' Hne; by rewrite decide_False|].
        split.
        { intros t' out Hn. destruct (decide (t' = t)) as [-> | Hne].
          - rewrite lookup_insert_eq. intros [= <-]. split; [done|].
            exists data, (length (graph_ st)), type, dims, name.
            split; [done|]. split; [done|].
            rewrite lookup_app_r by lia. by rewrite Nat.sub_diag.
          - rewrite lookup_insert_ne by done. congruence. }
        rewrite Hnone, Hdata.
        exists (length (graph_ st)), type, dims, name. cbn.
        rewrite decide_True by done. split; [done|].
        split; [rewrite lookup_app_r by lia; by rewrite Nat.sub_diag|].
        by rewrite lookup_insert_eq.
      - split; [exists []; by rewrite app_nil_r|]. split; [done|]. split; [done|].
        split; [done|]. split; [congruence|]. by rewrite Hnone, Hdata. }
    destruct Hstep1 as ((added1 & Hgraph1) & Hmono1 & Hins1 & Hother1 & Hnew1 & Hc1).
    split; [exists (added1 ++ added); by rewrite Hgraph, Hgraph1, (assoc_L (++))|].
    split; [auto|]. split; [congruence|].
    split.
    { intros c' Hc'. cbn [fmap list_fmap fst] in Hc'.
      apply not_elem_of_cons in Hc' as [Hne Hc'].
      rewrite Hother by done. by apply Hother1. }
    intros c' t' [[= -> ->] | Hin]%elem_of_cons.
    + (* the link of this iteration *)
      pose proof (Hother c Hc) as Hsame.
      destruct (output_tensors_ st !! t) as [producer|]; [congruence|].
      destruct (constant_data model_ t) as [data|]; [|congruence].
      destruct Hc1 as (con & type & dims & name & Hconn & Hnode & Hout).
      exists con, type, dims, name. split; [congruence|].
      split; [|by apply Hmono].
      rewrite Hgraph. by apply lookup_app_l_Some.
    + (* a later link *)
      assert (Hne : c' <> c).
      { intros ->. apply Hc. apply list_elem_of_fmap. by exists (c, t'). }
      specialize (Hlinks c' t' Hin).
      destruct (output_tensors_ st !! t') as [producer|] eqn:Hprod.
      { by rewrite (Hmono1 _ _ Hprod) in Hlinks. }
      destruct (output_tensors_ st1 !! t') as [out|] eqn:Hprod1.
      * destruct (Hnew1 t' out Hprod Hprod1)
          as (-> & data & con & type & dims & name & Hdata & -> & Hnode).
        rewrite Hdata. exists con, type, dims, name. split; [done|].
        split; [|by apply Hmono].
        rewrite Hgraph. by apply lookup_app_l_Some.
      * destruct (constant_data model_ t') as [data|]; [done|].
        rewrite Hlinks. by apply Hother1.
Qed.

Lemma connect_inputs_facts (created_inputs : gmap Z output_connector)
    (links : list (input_connector * Z)) :
  forall st : tflite_importer,
    (exists st',
        connect_inputs created_inputs links st = Normal st'
        /\ graph_ st' = graph_ st
        /\ output_tensors_ st' = output_tensors_ st
        /\ input_tensors_ st' = input_tensors_ st
        /\ (forall c out, connection st c = Some out -> connection st' c = Some out)
        /\ (forall c, c ∉ links.*1 -> connection st' c = connection st c)
        /\ (forall c t, (c, t) ∈ links -> is_Some (connection st' c))
        /\ (NoDup links.*1 ->
            forall c t, (c, t) ∈ links -> connection st c = None ->
                        connection st' c = created_inputs !! t
                        /\ is_Some (created_inputs !! t)))
    \/ (connect_inputs created_inputs links st = Throw (out_of_range "unordered_map::at")
        /\ exists c t, (c, t) ∈ links /\ created_inputs !! t = None).
Proof.
  induction links as [|[c t] links IH]; intros st; cbn [connect_inputs].
  - left. exists st. do 6 (split; [done|]). split.
    + intros c t Hin. by apply elem_of_nil in Hin.
    + intros _ c t Hin. by apply elem_of_nil in Hin.
  - destruct (connection st c) as [out0|] eqn:Hconn.
    + destruct (IH st) as [(st' & Hrun & Hg & Ho & Hi & Hkeep & Hother & Hall & Hnew)
                          | (Hthrow & c' & t' & Hin & Hmiss)].
      * left. exists st'. do 5 (split; [done|]). split; [|split].
        -- intros c' Hc'. cbn [fmap list_fmap fst] in Hc'.
           apply not_elem_of_cons in Hc' as [_ Hc']. by apply Hother.
        -- intros c' t' [[= -> ->] | Hin]%elem_of_cons; [|by eapply Hall].
           rewrite (Hkeep _ _ Hconn). by eexists.
        -- intros Hnodup c' t' Hin Hnone.
           apply elem_of_cons in Hin as [[= -> ->] | Hin]; [congruence|].
           cbn [fmap list_fmap fst] in Hnodup. apply NoDup_cons in Hnodup as [_ Hnodup].
           by apply (Hnew Hnodup c' t').
      * right. split; [done|]. exists c', t'. split; [by apply list_elem_of_further | done].
    + destruct (created_inputs !! t) as [out|] eqn:Hcreated.
      * destruct (IH (connect c out st))
          as [(st' & Hrun & Hg & Ho & Hi & Hkeep & Hother & Hall & Hnew)
             | (Hthrow & c' & t' & Hin & Hmiss)].
        -- left. exists st'. cbn in Hg, Ho, Hi. do 4 (split; [done|]).
           assert (Hc : connection st' c = Some out).
           { apply Hkeep. cbn. by rewrite decide_True. }
           split; [|split; [|split]].
           ++ intros c' out' Hsome. apply Hkeep. cbn.
              rewrite decide_False; [done | congruence].
           ++ intros c' Hc'. cbn [fmap list_fmap fst] in Hc'.
              apply not_elem_of_cons in Hc' as [Hne Hc'].
              rewrite Hother by done. cbn. by rewrite decide_False.
           ++ intros c' t' [[= -> ->] | Hin]%elem_of_cons; [by eexists | by eapply Hall].
           ++ intros Hnodup c' t' Hin Hnone.
              cbn [fmap list_fmap fst] in Hnodup.
              apply NoDup_cons in Hnodup as [Hnotin Hnodup].
              apply elem_of_cons in Hin as [[= -> ->] | Hin].
              ** split; [congruence | by eexists].
              ** apply (Hnew Hnodup c' t' Hin). cbn. rewrite decide_False; [done|].
                 intros ->. apply Hnotin. apply list_elem_of_fmap. by exists (c, t').
        -- right. split; [done|]. exists c', t'.
           split; [by apply list_elem_of_further | done].
      * right. split; [done|]. exists c, t. split; [apply list_elem_of_here | done].
Qed.

Lemma create_inputs_facts (ins : list Z) :
  forall (created created' : gmap Z output_connector) (st st' : tflite_importer),
    create_inputs get_shape to_data_type model_ ins created st = Normal (created', st') ->
    connection st' = connection st
    /\ input_tensors_ st' = input_tensors_ st
    /\ output_tensors_ st' = output_tensors_ st.
Proof.
  induction ins as [|i ins IH]; intros created created' st st' Hrun;
    cbn [create_inputs] in Hrun; [by injection Hrun as <- <-|].
  destruct (vector_get (tensors model_) i) as [tensor| | |]; cbn in Hrun; try done.
  destruct (get_shape (tensor_shape tensor)) as [dims| | |]; cbn in Hrun; try done.
  destruct (to_data_type (tensor_type tensor)) as [type| | |]; cbn in Hrun; try done.
  destruct (deref (tensor_name tensor)) as [name| | |]; cbn in Hrun; try done.
  by destruct (IH _ _ _ _ Hrun) as (-> & -> & ->).
Qed.

Lemma create_outputs_facts (outputs : list Z) :
  forall (created created' : gmap Z input_connector) (st st' : tflite_importer),
    create_outputs get_shape to_data_type model_ outputs created st
    = Normal (created', st') ->
    connection st' = connection st
    /\ input_tensors_ st' = input_tensors_ st
    /\ output_tensors_ st' = output_tensors_ st.
Proof.
  induction outputs as [|i outputs IH]; intros created created' st st' Hrun;
    cbn [create_outputs] in Hrun; [by injection Hrun as <- <-|].
  destruct (vector_get (tensors model_) i) as [tensor| | |]; cbn in Hrun; try done.
  destruct (get_shape (tensor_shape tensor)) as [dims| | |]; cbn in Hrun; try done.
  destruct (to_data_type (tensor_type tensor)) as [type| | |]; cbn in Hrun; try done.
  destruct (deref (tensor_name tensor)) as [name| | |]; cbn in Hrun; try done.
  by destruct (IH _ _ _ _ Hrun) as (-> & -> & ->).
Qed.

(** [created_inputs] holds an output for the inputs of the subgraph
    only. *)
Lemma create_inputs_domain (ins : list Z) :
  forall (created created' : gmap Z output_connector) (st st' : tflite_importer) (t : Z),
    create_inputs get_shape to_data_type model_ ins created st = Normal (created', st') ->
    created !! t = None -> t ∉ ins -> created' !! t = None.
Proof.
  induction ins as [|i ins IH]; intros created created' st st' t Hrun Hnone Hnotin;
    cbn [create_inputs] in Hrun; [by injection Hrun as <- <-|].
  apply not_elem_of_cons in Hnotin as [Hne Hnotin].
  destruct (vector_get (tensors model_) i) as [tensor| | |]; cbn in Hrun; try done.
  destruct (get_shape (tensor_shape tensor)) as [dims| | |]; cbn in Hrun; try done.
  destruct (to_data_type (tensor_type tensor)) as [type| | |]; cbn in Hrun; try done.
  destruct (deref (tensor_name tensor)) as [name| | |]; cbn in Hrun; try done.
  apply (IH _ _ _ _ t Hrun); [|done].
  unfold map_emplace. destruct (created !! i); [done|].
  by rewrite lookup_insert_ne.
Qed.

Lemma connect_outputs_facts (created_outputs : gmap Z input_connector)
    (produced : list (Z * output_connector)) :
  forall st : tflite_importer,
    graph_ (connect_outputs created_outputs produced st) = graph_ st
    /\ input_tensors_ (connect_outputs created_outputs produced st) = input_tensors_ st
    /\ output_tensors_ (connect_outputs created_outputs produced st)
       = output_tensors_ st
    /\ (forall c, is_Some (connection st c) ->
                  is_Some (connection (connect_outputs created_outputs produced st) c)).
Proof.
  induction produced as [|[t out] produced IH]; intros st; cbn [connect_outputs];
    [done|].
  destruct (created_outputs !! t) as [c|]; [|apply IH].
  destruct (IH (connect c out st)) as (-> & -> & -> & Hsome).
  repeat split. intros c' Hc'. apply Hsome. cbn. by case_decide.
Qed.
End tflite_importer_properties.

Section tflite_importer_theorems.
Context (opcode_def :
  list (Z * (tflite_operator -> tflite_importer -> outcome tflite_importer))).
Context (EnumNameBuiltinOperator : Z -> string).
Context (get_shape : option (list Z) -> outcome runtime_shape_t).
Context (to_data_type : Z -> outcome datatype_t).
Context (iteration_order : gmap Z output_connector -> list (Z * output_connector)).
Context (dce : tflite_importer -> tflite_importer).
Context (model_ : tflite_model).

(** X16.  When [import] returns, every input connector that the converted
    operators registered is connected: in the graph that [import] hands to
    [dce] none of them is left without a producer. *)
Theorem import_connects_operator_inputs (options : import_options)
    (st0 st'' : tflite_importer) :
  import opcode_def EnumNameBuiltinOperator get_shape to_data_type iteration_order dce
    model_ options st0 = Normal st'' ->
  exists st',
    st'' = dce st'
    /\ forall c t, (c, t) ∈ input_tensors_ st' -> is_Some (connection st' c).
Proof.
  unfold import. intros H.
  destruct (convert_ops _ _ _ _ st0) as [sa| | |]; cbn in H; try done.
  destruct (create_inputs _ _ _ _ _ sa) as [[created_inputs sb]| | |];
    cbn in H; try done.
  destruct (select_outputs options model_) as [outputs| | |]; cbn in H; try done.
  destruct (create_outputs _ _ _ _ _ sb) as [[created_outputs sc]| | |];
    cbn in H; try done.
  destruct (connect_tensors _ _ _ _ sc) as [sd| | |]; cbn in H; try done.
  destruct (connect_inputs_facts created_inputs (input_tensors_ sd) sd)
    as [(se & Hrun & _ & _ & Hins & _ & _ & Hall & _) | (Hthrow & _)];
    rewrite ?Hrun, ?Hthrow in H; cbn in H; [|done].
  injection H as <-. eexists. split; [done|].
  destruct (connect_outputs_facts created_outputs (iteration_order (output_tensors_ se))
              se) as (_ & Hins' & _ & Hsome).
  intros c t Hin. rewrite Hins', Hins in Hin. apply Hsome. by apply (Hall c t).
Qed.

(** X17.  The source of an operator input that reads tensor [t], in this
    order of precedence: the output that a converted operator registered as
    the producer of [t]; else a constant node made from the data of the
    buffer of [t]; else the connection it had; else the input node made for
    [t] as an input of the subgraph. *)
Theorem operator_input_precedence (created_inputs : gmap Z output_connector)
    (st st1 st2 : tflite_importer) (c : input_connector) (t : Z) :
  NoDup (input_tensors_ st).*1 ->
  connect_tensors get_shape to_data_type model_ (input_tensors_ st) st = Normal st1 ->
  connect_inputs created_inputs (input_tensors_ st1) st1 = Normal st2 ->
  (c, t) ∈ input_tensors_ st ->
  match output_tensors_ st !! t with
  | Some producer => connection st2 c = Some producer
  | None =>
      match constant_data model_ t with
      | Some data => connected_to_constant st2 c t data
      | None =>
          match connection st c with
          | Some out => connection st2 c = Some out
          | None =>
              exists out, created_inputs !! t = Some out /\ connection st2 c = Some out
          end
      end
  end.
Proof.
  intros Hnodup Hrun1 Hrun2 Hin.
  destruct (connect_tensors_spec get_shape to_data_type model_ _ _ _ Hrun1 Hnodup)
    as (_ & _ & Hins & _ & Hlinks).
  specialize (Hlinks c t Hin). rewrite Hins in Hrun2.
  destruct (connect_inputs_facts created_inputs (input_tensors_ st) st1)
    as [(st2' & Hrun & Hg & Ho & _ & Hkeep & _ & _ & Hnew) | (Hthrow & _)];
    [|congruence].
  rewrite Hrun in Hrun2. injection Hrun2 as ->.
  destruct (output_tensors_ st !! t) as [producer|]; [by apply Hkeep|].
  destruct (constant_data model_ t) as [data|].
  - destruct Hlinks as (con & type & dims & name & Hconn & Hnode & Hout).
    exists con, type, dims, name. rewrite Hg, Ho. split; [by apply Hkeep | done].
  - destruct (connection st c) as [out|] eqn:Hconn; [apply Hkeep; congruence|].
    destruct (Hnew Hnodup c t Hin ltac:(congruence)) as [Hc [out Hout]].
    exists out. split; [done | congruence].
Qed.

(** X18.  One constant node per tensor: operator inputs that read the same
    tensor with data in its buffer are all connected to the same constant
    node, however many they are. *)
Theorem constant_shared_by_consumers (created_inputs : gmap Z output_connector)
    (st st1 st2 : tflite_importer) (c1 c2 : input_connector) (t : Z) (data : list Z) :
  NoDup (input_tensors_ st).*1 ->
  connect_tensors get_shape to_data_type model_ (input_tensors_ st) st = Normal st1 ->
  connect_inputs created_inputs (input_tensors_ st1) st1 = Normal st2 ->
  (c1, t) ∈ input_tensors_ st ->
  (c2, t) ∈ input_tensors_ st ->
  output_tensors_ st !! t = None ->
  constant_data model_ t = Some data ->
  exists (con : nat) (type : datatype_t) (dims : runtime_shape_t) (name : string),
    connection st2 c1 = Some (node_output con)
    /\ connection st2 c2 = Some (node_output con)
    /\ graph_ st2 !! con = Some (constant type dims data name).
Proof.
  intros Hnodup Hrun1 Hrun2 Hin1 Hin2 Hprod Hdata.
  destruct (connect_tensors_spec get_shape to_data_type model_ _ _ _ Hrun1 Hnodup)
    as (_ & _ & Hins & _ & Hlinks).
  pose proof (Hlinks c1 t Hin1) as H1. pose proof (Hlinks c2 t Hin2) as H2.
  rewrite Hprod, Hdata in H1, H2. rewrite Hins in Hrun2.
  destruct (connect_inputs_facts created_inputs (input_tensors_ st) st1)
    as [(st2' & Hrun & Hg & _ & _ & Hkeep & _) | (Hthrow & _)]; [|congruence].
  rewrite Hrun in Hrun2. injection Hrun2 as ->.
  destruct H1 as (con & type & dims & name & Hc1 & Hnode & Hout).
  destruct H2 as (con' & _ & _ & _ & Hc2 & _ & Hout').
  assert (con' = con) as -> by congruence.
  exists con, type, dims, name. rewrite Hg.
  split; [by apply Hkeep|]. split; [by apply Hkeep | done].
Qed.

(** ** The input nodes *)



(** ** Tensors without a name *)

Lemma create_inputs_app (pre rest : list Z) :
  forall (created created1 : gmap Z output_connector) (st st1 : tflite_importer),
    create_inputs get_shape to_data_type model_ pre created st = Normal (created1, st1) ->
    create_inputs get_shape to_data_type model_ (pre ++ rest) created st
    = create_inputs get_shape to_data_type model_ rest created1 st1.
Proof.
  induction pre as [|i pre IH]; intros created created1 st st1 Hrun;
    cbn [create_inputs app] in *; [by injection Hrun as -> ->|].
  destruct (vector_get (tensors model_) i) as [tensor| | |]; cbn in *; try done.
  destruct (get_shape (tensor_shape tensor)) as [dims| | |]; cbn in *; try done.
  destruct (to_data_type (tensor_type tensor)) as [type| | |]; cbn in *; try done.
  destruct (deref (tensor_name tensor)) as [name| | |]; cbn in *; try done.
  by apply IH.
Qed.

(** X21.  The name of a tensor is checked for null only where the outputs
    are looked up by name: an input of the subgraph whose tensor has no
    name (and whose shape and type are accepted) makes [import] call
    [string_view] through a null pointer, which leaves the behaviour that
    C++ defines. *)
Theorem unnamed_input_tensor_undefined (options : import_options)
    (pre post : list Z) (i : Z) (tensor : tflite_tensor)
    (dims : runtime_shape_t) (type : datatype_t)
    (created_inputs : gmap Z output_connector) (st0 st st1 : tflite_importer) :
  convert_ops opcode_def EnumNameBuiltinOperator model_ (operators model_) st0
  = Normal st ->
  subgraph_inputs model_ = pre ++ i :: post ->
  create_inputs get_shape to_data_type model_ pre ∅ st = Normal (created_inputs, st1) ->
  vector_get (tensors model_) i = Normal tensor ->
  get_shape (tensor_shape tensor) = Normal dims ->
  to_data_type (tensor_type tensor) = Normal type ->
  tensor_name tensor = None ->
  import opcode_def EnumNameBuiltinOperator get_shape to_data_type iteration_order dce
    model_ options st0
  = Undefined.
Proof.
  intros Hops Hins Hpre Htensor Hshape Htype Hname. unfold import.
  rewrite Hops. cbn [mbind outcome_bind].
  rewrite Hins, (create_inputs_app pre (i :: post) _ _ _ _ Hpre).
  cbn [create_inputs]. rewrite Htensor. cbn [mbind outcome_bind].
  rewrite Hshape. cbn [mbind outcome_bind]. rewrite Htype. cbn [mbind outcome_bind].
  by rewrite Hname.
Qed.

(** ** Operators that are not supported *)

Lemma dispatch_opcode_None
    (table : list (Z * (tflite_operator -> tflite_importer -> outcome tflite_importer)))
    (builtin_code : Z) :
  builtin_code ∉ table.*1 -> dispatch_opcode table builtin_code = None.
Proof.
  induction table as [|[code convert] table IH]; intros Hnotin; cbn; [done|].
  cbn [fmap list_fmap fst] in Hnotin. apply not_elem_of_cons in Hnotin as [Hne Hnotin].
  rewrite decide_False by done. by apply IH.
Qed.

Lemma convert_ops_app (pre rest : list tflite_operator) (st0 st1 : tflite_importer) :
  convert_ops opcode_def EnumNameBuiltinOperator model_ pre st0 = Normal st1 ->
  convert_ops opcode_def EnumNameBuiltinOperator model_ (pre ++ rest) st0
  = convert_ops opcode_def EnumNameBuiltinOperator model_ rest st1.
Proof.
  revert st0. induction pre as [|op pre IH]; intros st0 H; cbn [convert_ops app] in *.
  - by injection H as ->.
  - destruct (convert_op _ _ _ op st0) as [st| | |]; cbn in *; try done. by apply IH.
Qed.

(** X22.  The first operator whose builtin code is not among the lines of
    opcode.def ends the import with [Unsupported tflite opcode: ] and the
    name of the code: the operators after it are not converted, and no
    input or output node is made. *)
Theorem unsupported_opcode_aborts_import (options : import_options)
    (pre post : list tflite_operator) (op : tflite_operator) (builtin_code : Z)
    (st0 st1 : tflite_importer) :
  operators model_ = pre ++ op :: post ->
  convert_ops opcode_def EnumNameBuiltinOperator model_ pre st0 = Normal st1 ->
  vector_get (operator_codes model_) (opcode_index op) = Normal builtin_code ->
  builtin_code ∉ opcode_def.*1 ->
  import opcode_def EnumNameBuiltinOperator get_shape to_data_type iteration_order dce
    model_ options st0
  = Throw (runtime_error
             ("Unsupported tflite opcode: " ++ EnumNameBuiltinOperator builtin_code)).
Proof.
  intros Hops Hpre Hcode Hnotin. unfold import.
  rewrite Hops, (convert_ops_app pre (op :: post) st0 st1 Hpre).
  cbn [convert_ops]. unfold convert_op. rewrite Hcode. cbn [mbind outcome_bind].
  by rewrite (dispatch_opcode_None _ _ Hnotin).
Qed.

(** ** The output nodes *)

Lemma create_outputs_spec (outputs : list Z) :
  forall (created created' : gmap Z input_connector) (st st' : tflite_importer),
    create_outputs get_shape to_data_type model_ outputs created st
    = Normal (created', st') ->
    (forall t c, created !! t = Some c ->
       exists k type dims name tensor,
         c = node_input k
         /\ graph_ st !! k = Some (output_node type dims name)
         /\ vector_get (tensors model_) t = Normal tensor
         /\ tensor_name tensor = Some name
         /\ get_shape (tensor_shape tensor) = Normal dims
         /\ to_data_type (tensor_type tensor) = Normal type) ->
    (forall t1 t2 c, created !! t1 = Some c -> created !! t2 = Some c -> t1 = t2) ->
    (forall t c, created' !! t = Some c ->
       exists k type dims name tensor,
         c = node_input k
         /\ graph_ st' !! k = Some (output_node type dims name)
         /\ vector_get (tensors model_) t = Normal tensor
         /\ tensor_name tensor = Some name
         /\ get_shape (tensor_shape tensor) = Normal dims
         /\ to_data_type (tensor_type tensor) = Normal type)
    /\ (forall t1 t2 c, created' !! t1 = Some c -> created' !! t2 = Some c -> t1 = t2)
    /\ (forall t c, created !! t = Some c -> created' !! t = Some c)
    /\ (forall t, t ∈ outputs -> is_Some (created' !! t)).
Proof.
  induction outputs as [|i outputs IH]; intros created created' st st' Hrun Hnodes Hinj;
    cbn [create_outputs] in Hrun.
  - injection Hrun as <- <-. split; [done|]. split; [done|]. split; [done|].
    intros t Hin. by apply elem_of_nil in Hin.
  - destruct (vector_get (tensors model_) i) as [tensor| | |] eqn:Htensor;
      cbn in Hrun; try done.
    destruct (get_shape (tensor_shape tensor)) as [dims| | |] eqn:Hdims;
      cbn in Hrun; try done.
    destruct (to_data_type (tensor_type tensor)) as [type| | |] eqn:Htype;
      cbn in Hrun; try done.
    destruct (deref (tensor_name tensor)) as [name| | |] eqn:Hname;
      cbn in Hrun; try done.
    assert (Hname' : tensor_name tensor = Some name).
    { unfold deref in Hname. destruct (tensor_name tensor); by inversion Hname. }
    assert (Hi : is_Some (map_emplace i (node_input (length (graph_ st))) created !! i)).
    { unfold map_emplace. destruct (created !! i) eqn:Hi; [by rewrite Hi|].
      by rewrite lookup_insert_eq. }
    assert (Hkeep : forall t c, created !! t = Some c ->
              map_emplace i (node_input (length (graph_ st))) created !! t = Some c).
    { intros t c Hc. unfold map_emplace. destruct (created !! i) eqn:Hci; [done|].
      rewrite lookup_insert_ne; [done | congruence]. }
    apply IH in Hrun as (Hnodes' & Hinj' & Hmono & Hall).
    + split; [done|]. split; [done|]. split; [auto|].
      intros t [-> | Hin]%elem_of_cons; [|by apply Hall].
      destruct Hi as [c Hc]. rewrite (Hmono _ _ Hc). by eexists.
    + intros t c Hc. unfold map_emplace in Hc. cbn [graph_].
      destruct (created !! i) as [c0|] eqn:Hci.
      * destruct (Hnodes t c Hc) as (k & type' & dims' & name' & tensor' & -> & Hk & Ht).
        exists k, type', dims', name', tensor'. split; [done|].
        split; [by apply lookup_app_l_Some | done].
      * destruct (decide (t = i)) as [-> | Hne].
        -- rewrite lookup_insert_eq in Hc. injection Hc as <-.
           exists (length (graph_ st)), type, dims, name, tensor. split; [done|].
           split; [|done]. rewrite lookup_app_r by lia. by rewrite Nat.sub_diag.
        -- rewrite lookup_insert_ne in Hc by done.
           destruct (Hnodes t c Hc) as (k & type' & dims' & name' & tensor' & -> & Hk & Ht).
           exists k, type', dims', name', tensor'. split; [done|].
           split; [by apply lookup_app_l_Some | done].
    + intros t1 t2 c H1 H2. unfold map_emplace in H1, H2.
      destruct (created !! i) as [c0|] eqn:Hci; [by apply (Hinj t1 t2 c)|].
      destruct (decide (t1 = i)) as [-> | Hne1], (decide (t2 = i)) as [-> | Hne2];
        [done | | | ].
      * rewrite lookup_insert_eq in H1. rewrite lookup_insert_ne in H2 by done.
        injection H1 as <-.
        destruct (Hnodes t2 _ H2) as (k & ? & ? & ? & ? & [= <-] & Hk & _).
        apply lookup_lt_Some in Hk. lia.
      * rewrite lookup_insert_eq in H2. rewrite lookup_insert_ne in H1 by done.
        injection H2 as <-.
        destruct (Hnodes t1 _ H1) as (k & ? & ? & ? & ? & [= <-] & Hk & _).
        apply lookup_lt_Some in Hk. lia.
      * rewrite lookup_insert_ne in H1, H2 by done. by apply (Hinj t1 t2 c).
Qed.

Lemma connect_outputs_spec (created_outputs : gmap Z input_connector)
    (produced : list (Z * output_connector)) :
  NoDup produced.*1 ->
  (forall t1 t2 c, created_outputs !! t1 = Some c -> created_outputs !! t2 = Some c ->
                   t1 = t2) ->
  forall st : tflite_importer,
    (forall t out c, (t, out) ∈ produced -> created_outputs !! t = Some c ->
                     connection (connect_outputs created_outputs produced st) c
                     = Some out)
    /\ (forall c, (forall t out, (t, out) ∈ produced -> created_outputs !! t <> Some c) ->
                  connection (connect_outputs created_outputs produced st) c
                  = connection st c).
Proof.
  intros Hnodup Hinj. induction produced as [|[t out] produced IH]; intros st;
    cbn [connect_outputs].
  - split; [|done]. intros t out c Hin. by apply elem_of_nil in Hin.
  - cbn [fmap list_fmap fst] in Hnodup. apply NoDup_cons in Hnodup as [Ht Hnodup].
    specialize (IH Hnodup).
    destruct (created_outputs !! t) as [c0|] eqn:Hc0.
    + destruct (IH (connect c0 out st)) as [Hin Hout]. split.
      * intros t' out' c [[= -> ->] | Hmem]%elem_of_cons Hc; [|by apply (Hin t')].
        assert (c = c0) as -> by congruence.
        rewrite Hout; [cbn; by rewrite decide_True|].
        intros t' out'' Hmem Hc'. apply Ht.
        rewrite (Hinj t t' c0 Hc0 Hc'). apply list_elem_of_fmap. by exists (t', out'').
      * intros c Hc. rewrite Hout.
        -- cbn. rewrite decide_False; [done|]. intros ->.
           by apply (Hc t out); [apply list_elem_of_here|].
        -- intros t' out' Hmem. apply (Hc t' out'). by apply list_elem_of_further.
    + destruct (IH st) as [Hin Hout]. split.
      * intros t' out' c [[= -> ->] | Hmem]%elem_of_cons Hc; [congruence|].
        by apply (Hin t').
      * intros c Hc. apply Hout. intros t' out' Hmem. apply (Hc t' out').
        by apply list_elem_of_further.
Qed.

(** X23.  The output node made for an output tensor carries the type, the
    shape and the name of the tensor, and its input ends connected to the output recorded as the
    producer of the tensor, whatever the order in which [output_tensors_]
    is iterated; for a tensor without a recorded producer (an input of the
    subgraph that is an output as well, for one) the input of the output
    node is left as it was, and nothing is reported. *)
Theorem output_node_connected_to_producer (outputs : list Z)
    (created_outputs : gmap Z input_connector) (st0 st1 st : tflite_importer)
    (t : Z) :
  create_outputs get_shape to_data_type model_ outputs ∅ st0
  = Normal (created_outputs, st1) ->
  iteration_order (output_tensors_ st) ≡ₚ map_to_list (output_tensors_ st) ->
  t ∈ outputs ->
  exists (k : nat) (type : datatype_t) (dims : runtime_shape_t) (name : string)
         (tensor : tflite_tensor),
    created_outputs !! t = Some (node_input k)
    /\ graph_ st1 !! k = Some (output_node type dims name)
    /\ vector_get (tensors model_) t = Normal tensor
    /\ tensor_name tensor = Some name
    /\ get_shape (tensor_shape tensor) = Normal dims
    /\ to_data_type (tensor_type tensor) = Normal type
    /\ connection
         (connect_outputs created_outputs (iteration_order (output_tensors_ st)) st)
         (node_input k)
       = match output_tensors_ st !! t with
         | Some producer => Some producer
         | None => connection st (node_input k)
         end.
Proof.
  intros Hcreate Hperm Hin.
  destruct (create_outputs_spec outputs ∅ created_outputs st0 st1 Hcreate)
    as (Hnodes & Hinj & _ & Hall).
  { intros t' c Hc. by rewrite lookup_empty in Hc. }
  { intros t1 t2 c Hc. by rewrite lookup_empty in Hc. }
  destruct (Hall t Hin) as [c Hc].
  destruct (Hnodes t c Hc)
    as (k & type & dims & name & tensor & -> & Hk & Ht & Hname & Hdims & Htype).
  exists k, type, dims, name, tensor. do 6 (split; [done|]).
  destruct (connect_outputs_spec created_outputs
              (iteration_order (output_tensors_ st))) with (st := st)
    as [Hproduced Hother]; [|done|].
  { rewrite Hperm. apply NoDup_fst_map_to_list. }
  destruct (output_tensors_ st !! t) as [producer|] eqn:Hprod.
  - apply (Hproduced t producer); [|done].
    rewrite Hperm. by apply elem_of_map_to_list.
  - apply Hother. intros t' out Hmem Hc'. rewrite Hperm in Hmem.
    apply elem_of_map_to_list in Hmem.
    assert (t' = t) by (by apply (Hinj t' t (node_input k))). congruence.
Qed.
(** ** Imports that end in an exception *)

(** X15.  A name of [output_arrays] that no tensor has makes [import]
    throw [Cannot find output tensor: ] followed by that name, the first
    such name of the list, once the operators are converted and the input
    nodes are made; a tensor without a name matches no name, not even the
    empty one. *)
Theorem missing_output_name_aborts_import (options : import_options)
    (found : list string) (missing : string) (rest : list string)
    (created_inputs : gmap Z output_connector) (st0 st st1 : tflite_importer) :
  convert_ops opcode_def EnumNameBuiltinOperator model_ (operators model_) st0
  = Normal st ->
  create_inputs get_shape to_data_type model_ (subgraph_inputs model_) ∅ st
  = Normal (created_inputs, st1) ->
  output_arrays options = found ++ missing :: rest ->
  Forall (names_tensor (tensors model_)) found ->
  (forall tensor, tensor ∈ tensors model_ -> tensor_name tensor <> Some missing) ->
  import opcode_def EnumNameBuiltinOperator get_shape to_data_type iteration_order dce
    model_ options st0
  = Throw (runtime_error ("Cannot find output tensor: " ++ missing)).
Proof.
  intros Hops Hinputs Hnames Hfound Hmissing. unfold import.
  rewrite Hops. cbn [mbind outcome_bind].
  rewrite Hinputs. cbn [mbind outcome_bind].
  by rewrite (select_outputs_missing options model_ found missing rest Hnames Hfound
                Hmissing).
Qed.

(** X19.  A tensor that an operator input reads and that nothing provides
    (no producer registered, no data in its buffer, the input not
    connected, the tensor not an input of the subgraph) makes [import]
    throw [std::out_of_range], from [created_inputs.at], once the parts of
    [import] before the loop of lines 152-159 have completed. *)
Theorem dangling_tensor_throws (options : import_options) (outputs : list Z)
    (created_inputs : gmap Z output_connector)
    (created_outputs : gmap Z input_connector)
    (st0 st st1 st2 st3 : tflite_importer) (c : input_connector) (t : Z) :
  convert_ops opcode_def EnumNameBuiltinOperator model_ (operators model_) st0
  = Normal st ->
  create_inputs get_shape to_data_type model_ (subgraph_inputs model_) ∅ st
  = Normal (created_inputs, st1) ->
  select_outputs options model_ = Normal outputs ->
  create_outputs get_shape to_data_type model_ outputs ∅ st1
  = Normal (created_outputs, st2) ->
  connect_tensors get_shape to_data_type model_ (input_tensors_ st2) st2 = Normal st3 ->
  NoDup (input_tensors_ st).*1 ->
  (c, t) ∈ input_tensors_ st ->
  output_tensors_ st !! t = None ->
  constant_data model_ t = None ->
  connection st c = None ->
  t ∉ subgraph_inputs model_ ->
  import opcode_def EnumNameBuiltinOperator get_shape to_data_type iteration_order dce
    model_ options st0
  = Throw (out_of_range "unordered_map::at").
Proof.
  intros Hops Hinputs Hselect Houtputs Htensors Hnodup Hin Hprod Hdata Hconn Hnotin.
  destruct (create_inputs_facts get_shape to_data_type model_ _ _ _ _ _ Hinputs)
    as (Hc1 & Hi1 & Ho1).
  destruct (create_outputs_facts get_shape to_data_type model_ _ _ _ _ _ Houtputs)
    as (Hc2 & Hi2 & Ho2).
  assert (Hcreated : created_inputs !! t = None).
  { apply (create_inputs_domain get_shape to_data_type model_ _ _ _ _ _ t Hinputs);
      [apply lookup_empty | done]. }
  assert (Hnodup2 : NoDup (input_tensors_ st2).*1) by (by rewrite Hi2, Hi1).
  assert (Hin2 : (c, t) ∈ input_tensors_ st2) by (by rewrite Hi2, Hi1).
  destruct (connect_tensors_spec get_shape to_data_type model_ _ _ _ Htensors Hnodup2)
    as (_ & _ & Hins & _ & Hlinks).
  specialize (Hlinks c t Hin2). rewrite Ho2, Ho1, Hprod, Hdata, Hc2, Hc1 in Hlinks.
  unfold import. rewrite Hops. cbn [mbind outcome_bind].
  rewrite Hinputs. cbn [mbind outcome_bind].
  rewrite Hselect. cbn [mbind outcome_bind].
  rewrite Houtputs. cbn [mbind outcome_bind].
  rewrite Htensors. cbn [mbind outcome_bind].
  destruct (connect_inputs_facts created_inputs (input_tensors_ st3) st3)
    as [(st4 & _ & _ & _ & _ & _ & _ & _ & Hnew) | (Hthrow & _)];
    [|by rewrite Hthrow].
  rewrite Hins in Hnew.
  destruct (Hnew Hnodup2 c t Hin2 ltac:(congruence)) as [_ [out Hout]]. congruence.
Qed.

End tflite_importer_theorems.

Lemma import_connects_operator_inputs_witness :
  exists st',
    example_imported = id st'
    /\ forall c t, (c, t) ∈ input_tensors_ st' -> is_Some (connection st' c).
Proof.
  apply (import_connects_operator_inputs [] (fun _ => "") example_get_shape
           example_to_data_type map_to_list id example_model
           {| output_arrays := [] |} example_importer example_imported).
  vm_compute. reflexivity.
Defined.

Lemma operator_input_precedence_witness :
  match output_tensors_ example_after_outputs.2 !! 1 with
  | Some producer =>
      connection example_after_connect_inputs (operator_input 2) = Some producer
  | None =>
      match constant_data example_model 1 with
      | Some data =>
          connected_to_constant example_after_connect_inputs (operator_input 2) 1 data
      | None =>
          match connection example_after_outputs.2 (operator_input 2) with
          | Some out =>
              connection example_after_connect_inputs (operator_input 2) = Some out
          | None =>
              exists out, example_after_inputs.1 !! 1 = Some out
                          /\ connection example_after_connect_inputs (operator_input 2)
                             = Some out
          end
      end
  end.
Proof.
  apply (operator_input_precedence example_get_shape example_to_data_type example_model
           example_after_inputs.1 example_after_outputs.2 example_after_tensors
           example_after_connect_inputs (operator_input 2) 1).
  - apply (bool_decide_unpack _). vm_compute. exact I.
  - vm_compute. reflexivity.
  - vm_compute. reflexivity.
  - simpl. apply list_elem_of_further, list_elem_of_further, list_elem_of_here.
Defined.

Lemma dangling_tensor_throws_witness :
  import [] (fun _ => "") example_get_shape example_to_data_type map_to_list id
    example_model {| output_arrays := [] |} example_dangling
  = Throw (out_of_range "unordered_map::at").
Proof.
  apply (dangling_tensor_throws [] (fun _ => "") example_get_shape example_to_data_type
           map_to_list id example_model {| output_arrays := [] |}
           (subgraph_outputs example_model)
           example_dangling_inputs.1 example_dangling_outputs.1
           example_dangling example_dangling example_dangling_inputs.2
           example_dangling_outputs.2 example_dangling_outputs.2 (operator_input 0) 2).
  - reflexivity.
  - vm_compute. reflexivity.
  - reflexivity.
  - vm_compute. reflexivity.
  - vm_compute. reflexivity.
  - apply (bool_decide_unpack _). vm_compute. exact I.
  - simpl. apply list_elem_of_here.
  - reflexivity.
  - reflexivity.
  - reflexivity.
  - simpl. intros H. apply elem_of_cons in H as [H | H]; [discriminate H|].
    by apply elem_of_nil in H.
Defined.

Lemma missing_output_name_aborts_import_witness :
  import [] (fun _ => "") example_get_shape example_to_data_type map_to_list id
    example_model {| output_arrays := ["out"; ""; "in"] |} example_importer
  = Throw (runtime_error ("Cannot find output tensor: " ++ "")).
Proof.
  apply (missing_output_name_aborts_import [] (fun _ => "") example_get_shape
           example_to_data_type map_to_list id example_model
           {| output_arrays := ["out"; ""; "in"] |} ["out"] "" ["in"]
           example_after_inputs.1 example_importer example_importer
           example_after_inputs.2).
  - reflexivity.
  - vm_compute. reflexivity.
  - reflexivity.
  - constructor; [|constructor].
    eexists. split; [apply list_elem_of_further, list_elem_of_further,
                       list_elem_of_further, list_elem_of_here | reflexivity].
  - intros tensor Hin. simpl in Hin.
    repeat (apply elem_of_cons in Hin as [-> | Hin]; [discriminate|]).
    by apply elem_of_nil in Hin.
Defined.

Lemma unsupported_opcode_aborts_import_witness :
  import [] (fun _ => "CUSTOM") example_get_shape example_to_data_type map_to_list id
    example_model_one_operator {| output_arrays := [] |} example_importer
  = Throw (runtime_error ("Unsupported tflite opcode: " ++ "CUSTOM")).
Proof.
  apply (unsupported_opcode_aborts_import [] (fun _ => "CUSTOM") example_get_shape
           example_to_data_type map_to_list id example_model_one_operator
           {| output_arrays := [] |} []
           [] {| opcode_index := 0; operator_inputs := [0]; operator_outputs := [3] |}
           7 example_importer example_importer).
  - reflexivity.
  - reflexivity.
  - reflexivity.
  - simpl. apply not_elem_of_nil.
Defined.

Lemma output_node_connected_to_producer_witness :
  exists (k : nat) (type : datatype_t) (dims : runtime_shape_t) (name : string)
         (tensor : tflite_tensor),
    example_after_outputs.1 !! 3 = Some (node_input k)
    /\ graph_ example_after_outputs.2 !! k = Some (output_node type dims name)
    /\ vector_get (tensors example_model) 3 = Normal tensor
    /\ tensor_name tensor = Some name
    /\ example_get_shape (tensor_shape tensor) = Normal dims
    /\ example_to_data_type (tensor_type tensor) = Normal type
    /\ connection
         (connect_outputs example_after_outputs.1
            (map_to_list (output_tensors_ example_after_connect_inputs))
            example_after_connect_inputs)
         (node_input k)
       = match output_tensors_ example_after_connect_inputs !! 3 with
         | Some producer => Some producer
         | None => connection example_after_connect_inputs (node_input k)
         end.
Proof.
  apply (output_node_connected_to_producer example_get_shape example_to_data_type
           map_to_list example_model (subgraph_outputs example_model)
           example_after_outputs.1 example_after_inputs.2 example_after_outputs.2
           example_after_connect_inputs 3).
  - vm_compute. reflexivity.
  - reflexivity.
  - simpl. apply list_elem_of_here.
Defined.

Lemma constant_shared_by_consumers_witness :
  exists (con : nat) (type : datatype_t) (dims : runtime_shape_t) (name : string),
    connection example_after_connect_inputs (operator_input 1) = Some (node_output con)
    /\ connection example_after_connect_inputs (operator_input 2)
       = Some (node_output con)
    /\ graph_ example_after_connect_inputs !! con
       = Some (constant type dims [1; 2] name).
Proof.
  apply (constant_shared_by_consumers example_get_shape example_to_data_type
           example_model example_after_inputs.1 example_after_outputs.2
           example_after_tensors example_after_connect_inputs
           (operator_input 1) (operator_input 2) 1 [1; 2]).
  - apply (bool_decide_unpack _). vm_compute. exact I.
  - vm_compute. reflexivity.
  - vm_compute. reflexivity.
  - simpl. apply list_elem_of_further, list_elem_of_here.
  - simpl. apply list_elem_of_further, list_elem_of_further, list_elem_of_here.
  - vm_compute. reflexivity.
  - reflexivity.
Defined.

Lemma unnamed_input_tensor_undefined_witness :
  import [] (fun _ => "") example_get_shape example_to_data_type map_to_list id
    example_model_unnamed_input {| output_arrays := [] |} example_importer
  = Undefined.
Proof.
  apply (unnamed_input_tensor_undefined [] (fun _ => "") example_get_shape
           example_to_data_type map_to_list id example_model_unnamed_input
           {| output_arrays := [] |} [0] [] 2
           {| tensor_shape := Some [2]; tensor_type := 0; tensor_buffer := 0;
              tensor_name := None |}
           [2] dt_float32 example_after_inputs.1 example_importer example_importer
           example_after_inputs.2).
  - reflexivity.
  - reflexivity.
  - vm_compute. reflexivity.
  - reflexivity.
  - reflexivity.
  - reflexivity.
  - reflexivity.
Defined.

